(** * Memecoin analytics: ingestion, scheduling and read API

    A shallow embedding of the TypeScript services of the repository
    (token validation, price tracking, the BullMQ poller worker, the
    socket hub and the REST controllers) together with the properties
    that its specification states about them.

    Conventions of the embedding.
    - [async] functions are computations in a state-and-exception monad
      [M] over a [World] that holds the Redis keyspace, the two Prisma
      tables, the BullMQ queue, the pub/sub log, the Prometheus counter
      and the socket hub.  [try { } catch] is [try_catch]; a JavaScript
      [Error] is its message.
    - Everything outside the process (Solana RPC, DexScreener, RugCheck,
      Helius, database failures) is an oracle of the record [Env].
      Redis and the BullMQ queue are local infrastructure: their
      operations do not fail for lack of a connection, so a [catch]
      that only guards against that has no reachable body and is not
      written.  [job.remove()] does throw, on a locked job.
    - JavaScript numbers that carry prices are rationals ([Q]); counts
      and millisecond timestamps are integers ([Z]).  Rounding, NaN and
      infinities of IEEE doubles are outside the model. *)

From Stdlib Require Import ZArith QArith String Ascii List Bool Lia.
From stdpp Require Import base gmap strings list sorting pretty.

Local Open Scope string_scope.
Local Open Scope Z_scope.

(** ** JavaScript string helpers *)

Module Js.

(** [s.startsWith(p)] *)
Fixpoint startsWith (p s : string) : bool :=
  match p, s with
  | EmptyString, _ => true
  | String a p', String b s' => Ascii.eqb a b && startsWith p' s'
  | String _ _, EmptyString => false
  end.

(** [s.includes(p)] *)
Fixpoint includes (s p : string) : bool :=
  startsWith p s ||
  match s with
  | EmptyString => false
  | String _ s' => includes s' p
  end.

Definition lowerAscii (c : ascii) : ascii :=
  let n := N_of_ascii c in
  if ((65 <=? n) && (n <=? 90))%N then ascii_of_N (n + 32) else c.

(** [s.toLowerCase()] on ASCII text *)
Fixpoint toLowerCase (s : string) : string :=
  match s with
  | EmptyString => EmptyString
  | String c s' => String (lowerAscii c) (toLowerCase s')
  end.

(** [xs.some(x => s.includes(x))] *)
Definition includesAny (s : string) (xs : list string) : bool :=
  existsb (includes s) xs.

(** [array.slice(0, n)]: a negative [n] counts from the end. *)
Definition slice0 {A} (n : Z) (l : list A) : list A :=
  if 0 <=? n then take (Z.to_nat n) l
  else take (Z.to_nat (Z.of_nat (length l) + n)) l.

(** The pattern language of Redis [KEYS]: [*] matches any run of
    characters, [?] one character, anything else itself.  (Bracket
    classes and backslash escapes do not occur in the patterns the
    services build from base58 mints.) *)
Fixpoint glob (p s : string) {struct p} : bool :=
  match p with
  | EmptyString => match s with EmptyString => true | _ => false end
  | String c p' =>
      if Ascii.eqb c "*" then
        (fix star (t : string) : bool :=
           glob p' t ||
           match t with
           | EmptyString => false
           | String _ t' => star t'
           end) s
      else
        match s with
        | EmptyString => false
        | String d s' =>
            (Ascii.eqb c "?" || Ascii.eqb c d) && glob p' s'
        end
  end.

End Js.

(** ** Outcomes and the monad of [async] functions *)

Inductive outcome (A : Type) : Type :=
| Returned (a : A)
| Thrown (message : string).
Arguments Returned {A} a.
Arguments Thrown {A} message.

(** ** Data carried by the services *)

(** [TokenValidationResult] of tokenValidationService.ts *)
Record TokenValidationResult : Type := {
  isValid : bool;
  reason : option string;
  decimals : option Z;
  supply : option Q;
  name : option string;
  symbol : option string
}.

Definition verdict_invalid (why : string) : TokenValidationResult :=
  {| isValid := false; reason := Some why; decimals := None;
     supply := None; name := None; symbol := None |}.

Definition verdict_valid (d : option Z) (s : option Q) : TokenValidationResult :=
  {| isValid := true; reason := None; decimals := d;
     supply := s; name := None; symbol := None |}.

(** [TokenPriceData] of priceTrackingService.ts: the unit of broadcast. *)
Record TokenPriceData : Type := {
  tokenMint : string;
  priceUsd : Q;
  priceInSol : Q;
  marketCap : Q;
  totalSupply : Q;
  timestamp : Z
}.

(** [BatchTokenPriceResult] of dexScreenerService.ts *)
Record BatchTokenPriceResult : Type := {
  br_tokenMint : string;
  br_priceUsd : Q;
  br_priceInSol : Q;
  br_marketCap : Q;
  br_liquidity : Q;
  br_volume24h : Q;
  br_pairAddress : string;
  br_dexId : string
}.

(** [TokenInfo] and [HolderBalance] of metricService.ts *)
Record TokenInfo : Type := {
  ti_name : string;
  ti_symbol : string;
  ti_decimals : Z;
  ti_totalSupply : Q
}.

Record HolderBalance : Type := {
  hb_address : string;
  hb_balance : Q;
  hb_percentage : Q
}.

(** [RugCheckRisk] and [RugCheckData] of rugCheckService.ts *)
Inductive RiskLevel : Type := info | warn | danger.

Record RugCheckRisk : Type := {
  rk_name : string;
  rk_value : string;
  rk_description : string;
  rk_score : Z;
  rk_level : RiskLevel
}.

Record RugCheckData : Type := {
  rc_mint : string;
  rc_score_normalised : Z;
  rc_risks : list RugCheckRisk;
  rc_rugged : bool
}.

(** Rows of the Prisma schema: [TokenPrice] is keyed by its mint,
    [PriceHistory] has an auto-increment id and a default-now stamp. *)
Record TokenPriceRow : Type := {
  tp_priceUsd : Q;
  tp_priceInSol : Q;
  tp_marketCap : Q;
  tp_totalSupply : Q;
  tp_lastUpdated : Z
}.

Record PriceHistoryRow : Type := {
  ph_id : Z;
  ph_tokenMint : string;
  ph_priceUsd : Q;
  ph_priceInSol : Q;
  ph_marketCap : Q;
  ph_timestamp : Z
}.

(** What a Redis string holds once parsed by its reader: a JSON scalar
    such as ['true'] ([RText]), a printed number, or a JSON object. *)
Inductive RedisValue : Type :=
| RText (s : string)
| RNumber (q : Q)
| RVerdict (v : TokenValidationResult)
| RTimedPrice (price : Q) (stamp : Z)
| RTokenInfo (i : TokenInfo)
| RHolders (hs : list HolderBalance)
| RRugCheck (d : RugCheckData) (stamp : Z).

(** A Redis string is falsy in [if (cached)] only when it is empty. *)
Definition truthy (v : RedisValue) : bool :=
  match v with
  | RText EmptyString => false
  | _ => true
  end.

(** ** The BullMQ queue [price-tracking]

    The queue is seen through the calls that pollerWorker.ts makes:
    [getRepeatableJobs], [removeRepeatable(name, {every})], [add] with a
    [repeat] option, [getJobs([state], 0, 1000)] and [job.remove()],
    each with the behaviour of BullMQ 4 (package.json asks for
    [^4.15.4]).

    BullMQ keeps the repeatable jobs in a sorted set.  A member is the
    key [name:jobId:endDate:tz:every] of a job and its score the time
    of the next run; [getRepeatableJobs] splits each key into the
    fields below.  The worker adds its jobs without [endDate] and [tz],
    so the key of an entry is its name, its job id and its interval.
    [rj_id] is empty for a job added without a job id.  [rj_pattern]
    is the pattern when it is a number, which is what the worker tests
    for; BullMQ itself reports the last field of the key as a string,
    so the jobs that [add] stores have none.

    An instance of a job is locked while a worker processes it. *)
Record RepeatableJob : Type := {
  rj_name : string;
  rj_id : string;
  rj_pattern : option Z;
  rj_every : Z;
  rj_next : Z
}.

Inductive JobState : Type :=
  waiting | active | delayed | completed | failed | paused.

Record Job : Type := {
  job_id : string;
  job_state : JobState;
  job_tokenMint : string;
  job_locked : bool
}.

(** ** Events emitted to a socket *)
Inductive SocketEvent : Type :=
| EvError (message : string)
| EvSubscriptionError (mint : string) (message : string) (code : option string)
| EvSubscriptionStatus (mint : string) (status : string)
| EvPriceUpdate (d : TokenPriceData)
| EvSubscriptionSuccess (mint : string) (totalSubscriptions : Z).

(** ** The world *)
Record World : Type := {
  now : Z;
  redis : gmap string (RedisValue * option Z);
  tokenPrice : gmap string TokenPriceRow;
  priceHistory : list PriceHistoryRow;
  historySeq : Z;
  repeatable : list RepeatableJob;
  jobs : list Job;
  published : list (string * TokenPriceData);
  pollingJobsTotal : list (string * string);
  solPriceCache : option (Q * Z);
  socketSubscriptions : gmap string (gset string);
  rooms : gset (string * string);
  emitted : list (string * SocketEvent)
}.

Definition emptyWorld (t : Z) : World :=
  {| now := t; redis := ∅; tokenPrice := ∅; priceHistory := [];
     historySeq := 0; repeatable := []; jobs := []; published := [];
     pollingJobsTotal := []; solPriceCache := None;
     socketSubscriptions := ∅; rooms := ∅; emitted := [] |}.

Definition with_now (t : Z) (w : World) : World :=
  {| now := t; redis := redis w; tokenPrice := tokenPrice w;
     priceHistory := priceHistory w; historySeq := historySeq w;
     repeatable := repeatable w; jobs := jobs w; published := published w;
     pollingJobsTotal := pollingJobsTotal w; solPriceCache := solPriceCache w;
     socketSubscriptions := socketSubscriptions w; rooms := rooms w;
     emitted := emitted w |}.

Definition with_redis (r : gmap string (RedisValue * option Z)) (w : World) : World :=
  {| now := now w; redis := r; tokenPrice := tokenPrice w;
     priceHistory := priceHistory w; historySeq := historySeq w;
     repeatable := repeatable w; jobs := jobs w; published := published w;
     pollingJobsTotal := pollingJobsTotal w; solPriceCache := solPriceCache w;
     socketSubscriptions := socketSubscriptions w; rooms := rooms w;
     emitted := emitted w |}.

Definition with_db (tp : gmap string TokenPriceRow) (ph : list PriceHistoryRow)
    (seq : Z) (w : World) : World :=
  {| now := now w; redis := redis w; tokenPrice := tp;
     priceHistory := ph; historySeq := seq;
     repeatable := repeatable w; jobs := jobs w; published := published w;
     pollingJobsTotal := pollingJobsTotal w; solPriceCache := solPriceCache w;
     socketSubscriptions := socketSubscriptions w; rooms := rooms w;
     emitted := emitted w |}.

Definition with_queue (rs : list RepeatableJob) (js : list Job) (w : World) : World :=
  {| now := now w; redis := redis w; tokenPrice := tokenPrice w;
     priceHistory := priceHistory w; historySeq := historySeq w;
     repeatable := rs; jobs := js; published := published w;
     pollingJobsTotal := pollingJobsTotal w; solPriceCache := solPriceCache w;
     socketSubscriptions := socketSubscriptions w; rooms := rooms w;
     emitted := emitted w |}.

Definition with_published (ps : list (string * TokenPriceData)) (w : World) : World :=
  {| now := now w; redis := redis w; tokenPrice := tokenPrice w;
     priceHistory := priceHistory w; historySeq := historySeq w;
     repeatable := repeatable w; jobs := jobs w; published := ps;
     pollingJobsTotal := pollingJobsTotal w; solPriceCache := solPriceCache w;
     socketSubscriptions := socketSubscriptions w; rooms := rooms w;
     emitted := emitted w |}.

Definition with_counter (c : list (string * string)) (w : World) : World :=
  {| now := now w; redis := redis w; tokenPrice := tokenPrice w;
     priceHistory := priceHistory w; historySeq := historySeq w;
     repeatable := repeatable w; jobs := jobs w; published := published w;
     pollingJobsTotal := c; solPriceCache := solPriceCache w;
     socketSubscriptions := socketSubscriptions w; rooms := rooms w;
     emitted := emitted w |}.

Definition with_solPriceCache (c : option (Q * Z)) (w : World) : World :=
  {| now := now w; redis := redis w; tokenPrice := tokenPrice w;
     priceHistory := priceHistory w; historySeq := historySeq w;
     repeatable := repeatable w; jobs := jobs w; published := published w;
     pollingJobsTotal := pollingJobsTotal w; solPriceCache := c;
     socketSubscriptions := socketSubscriptions w; rooms := rooms w;
     emitted := emitted w |}.

Definition with_hub (subs : gmap string (gset string)) (rs : gset (string * string))
    (ev : list (string * SocketEvent)) (w : World) : World :=
  {| now := now w; redis := redis w; tokenPrice := tokenPrice w;
     priceHistory := priceHistory w; historySeq := historySeq w;
     repeatable := repeatable w; jobs := jobs w; published := published w;
     pollingJobsTotal := pollingJobsTotal w; solPriceCache := solPriceCache w;
     socketSubscriptions := subs; rooms := rs; emitted := ev |}.

(** ** The monad *)

Definition M (A : Type) : Type := World → outcome A * World.

Definition ret {A} (a : A) : M A := λ w, (Returned a, w).

Definition throw {A} (message : string) : M A := λ w, (Thrown message, w).

Definition bind {A B} (m : M A) (k : A → M B) : M B :=
  λ w, match m w with
       | (Returned a, w') => k a w'
       | (Thrown e, w') => (Thrown e, w')
       end.

(** [try { body } catch (error) { handler(error.message) }] *)
Definition try_catch {A} (body : M A) (handler : string → M A) : M A :=
  λ w, match body w with
       | (Returned a, w') => (Returned a, w')
       | (Thrown e, w') => handler e w'
       end.

(** Lift the answer of an external service. *)
Definition call {A} (o : outcome A) : M A := λ w, (o, w).

Definition gets {A} (f : World → A) : M A := λ w, (Returned (f w), w).

Definition modify (f : World → World) : M unit := λ w, (Returned tt, f w).

Notation "'let*' x := m 'in' k" := (bind m (λ x, k))
  (at level 10, x pattern, m at level 100, k at level 200, only parsing).
Notation "m >> k" := (bind m (λ _, k))
  (at level 100, k at level 200, right associativity, only parsing).

Definition run {A} (m : M A) (w : World) : World := snd (m w).
Definition result {A} (m : M A) (w : World) : outcome A := fst (m w).

(** ** Redis commands *)

Definition live (t : Z) (entry : RedisValue * option Z) : bool :=
  match entry.2 with
  | None => true
  | Some expiry => t <? expiry
  end.

Definition redis_lookup (w : World) (key : string) : option RedisValue :=
  match redis w !! key with
  | Some entry => if live (now w) entry then Some entry.1 else None
  | None => None
  end.

(** [redis.get(key)] *)
Definition redis_get (key : string) : M (option RedisValue) :=
  gets (λ w, redis_lookup w key).

(** [redis.setex(key, seconds, value)] *)
Definition redis_setex (key : string) (seconds : Z) (v : RedisValue) : M unit :=
  modify (λ w, with_redis (<[key := (v, Some (now w + seconds * 1000))]> (redis w)) w).

(** [redis.del(...keys)] *)
Definition redis_del (keys : list string) : M unit :=
  modify (λ w, with_redis (foldr delete (redis w) keys) w).

(** [redis.keys(pattern)] *)
Definition redis_keys (pattern : string) : M (list string) :=
  gets (λ w, List.filter
               (λ k, Js.glob pattern k && bool_decide (is_Some (redis_lookup w k)))
               (map_to_list (redis w)).*1).

(** [if (cached)] on the answer of [redis.get] *)
Definition present (cached : option RedisValue) : option RedisValue :=
  match cached with
  | Some v => if truthy v then Some v else None
  | None => None
  end.

(** ** External services *)

(** [value] of the RPC call [getTokenSupply] *)
Record SupplyValue : Type := {
  sv_amount : Q;
  sv_decimals : Z
}.

(** One account of the RPC call [getTokenLargestAccounts] *)
Record LargestAccount : Type := {
  la_address : string;
  la_uiAmount : option Q
}.

(** The HTTP answer of the RugCheck report endpoint *)
Inductive RugCheckResponse : Type :=
| RugOk (d : option RugCheckData)
| RugHttpError (status : Z)
| RugOtherError.

Record Env : Type := {
  (** [new PublicKey(s)] does not throw *)
  publicKeyOk : string → bool;
  (** [connection.getAccountInfo]: the owner program of the account *)
  getAccountInfo : string → outcome (option string);
  (** [connection.getTokenSupply] *)
  getTokenSupplyRpc : string → outcome (option SupplyValue);
  (** [connection.getTokenLargestAccounts], which the validator calls
      without using its answer *)
  getTokenLargestAccountsRpc : string → outcome (list LargestAccount);
  (** [dexScreenerService.getTokenPrice] *)
  dexScreenerTokenPrice : string → outcome (option BatchTokenPriceResult);
  (** [getTokenPriceFromPool(mint, SOL)] *)
  tokenPriceFromPool : string → outcome Q;
  (** [dexScreenerService.getSolPriceUsd], which never throws *)
  dexScreenerSolPrice : Q;
  (** [getSolPriceFromOnChain] *)
  solPriceFromOnChain : outcome Q;
  (** failures of the Prisma statements: the upsert and the create of
      an update, and the two [deleteMany] of a mint, each on its own *)
  upsertFails : option string;
  createFails : option string;
  deleteHistoryFails : string → option string;
  deleteTokenPriceFails : string → option string;
  (** the time written into [lastUpdated] ([@updatedAt]) and into
      [timestamp] ([@default(now())]) by a statement issued at the
      given reading of the process clock *)
  upsertStamp : Z → Z;
  createStamp : Z → Z;
  (** [fetch] of [getTokenLargestAccounts] with its JSON answer *)
  largestAccounts : string → outcome (option (list LargestAccount));
  (** Helius token metadata: name and symbol, when the call succeeds *)
  tokenMetadata : string → outcome (option string * option string);
  (** RugCheck report *)
  rugCheckReport : string → RugCheckResponse
}.

(** ** Prisma statements and transactions *)

(** [prisma.$transaction(async tx => body)]: when the body throws, the
    tables are as they were before it started. *)
Definition transaction {A} (body : M A) : M A :=
  λ w, match body w with
       | (Returned a, w') => (Returned a, w')
       | (Thrown e, w') =>
           (Thrown e, with_db (tokenPrice w) (priceHistory w) (historySeq w) w')
       end.

Definition failing (f : option string) (m : M unit) : M unit :=
  match f with
  | Some message => throw message
  | None => m
  end.

(** The failure of a purge of the mint's rows, if any: that of the
    first of its two statements that fails. *)
Definition deleteFails (env : Env) (mint : string) : option string :=
  match deleteHistoryFails env mint with
  | Some message => Some message
  | None => deleteTokenPriceFails env mint
  end.

(** The history that [deleteMany({ where: { tokenMint } })] leaves. *)
Definition purgedHistory (mint : string) (rows : list PriceHistoryRow)
    : list PriceHistoryRow :=
  List.filter (λ r, negb (String.eqb (ph_tokenMint r) mint)) rows.

(** [priceHistory.deleteMany({ where: { tokenMint } })] *)
Definition db_deleteHistory (env : Env) (mint : string) : M unit :=
  failing (deleteHistoryFails env mint)
    (modify (λ w, with_db (tokenPrice w) (purgedHistory mint (priceHistory w))
                          (historySeq w) w)).

(** [tokenPrice.deleteMany({ where: { tokenMint } })] *)
Definition db_deleteTokenPrice (env : Env) (mint : string) : M unit :=
  failing (deleteTokenPriceFails env mint)
    (modify (λ w, with_db (delete mint (tokenPrice w)) (priceHistory w)
                          (historySeq w) w)).

(** The [TokenPrice] row written for a snapshot; [lastUpdated] is
    maintained by the database, which stamps the row when it writes
    it. *)
Definition latestRow (d : TokenPriceData) (t : Z) : TokenPriceRow :=
  {| tp_priceUsd := priceUsd d; tp_priceInSol := priceInSol d;
     tp_marketCap := marketCap d; tp_totalSupply := totalSupply d;
     tp_lastUpdated := t |}.

(** The [PriceHistory] row written for a snapshot; id and stamp are
    defaults of the database. *)
Definition historyRow (d : TokenPriceData) (id t : Z) : PriceHistoryRow :=
  {| ph_id := id; ph_tokenMint := tokenMint d;
     ph_priceUsd := priceUsd d; ph_priceInSol := priceInSol d;
     ph_marketCap := marketCap d; ph_timestamp := t |}.

(** [tokenPrice.upsert({ where: { tokenMint }, create, update })] *)
Definition db_upsertTokenPrice (env : Env) (d : TokenPriceData) : M unit :=
  failing (upsertFails env)
    (modify (λ w, with_db (<[tokenMint d := latestRow d (upsertStamp env (now w))]>
                             (tokenPrice w))
                          (priceHistory w) (historySeq w) w)).

(** [priceHistory.create({ data })] *)
Definition db_createHistory (env : Env) (d : TokenPriceData) : M unit :=
  failing (createFails env)
    (modify (λ w, with_db (tokenPrice w)
                          (priceHistory w ++
                             [historyRow d (historySeq w + 1) (createStamp env (now w))])
                          (historySeq w + 1) w)).

(** [a > b] on numbers *)
Definition Qgtb (a b : Q) : bool := negb (Qle_bool a b).

Definition SOL_MINT : string := "So11111111111111111111111111111111111111112".

(** ** tokenValidationService.ts *)

Section TokenValidationService.
Context (env : Env).

Definition VALIDATION_CACHE_TTL : Z := 3600.

(** The character class [[1-9A-HJ-NP-Za-km-z]] *)
Definition base58_char (c : ascii) : bool :=
  let n := N_of_ascii c in
  ((49 <=? n) && (n <=? 57) || (65 <=? n) && (n <=? 72) ||
   (74 <=? n) && (n <=? 78) || (80 <=? n) && (n <=? 90) ||
   (97 <=? n) && (n <=? 107) || (109 <=? n) && (n <=? 122))%N.

(** [/^[1-9A-HJ-NP-Za-km-z]+$/.test(s)] *)
Definition base58Regex (s : string) : bool :=
  match s with
  | EmptyString => false
  | _ => forallb base58_char (list_ascii_of_string s)
  end.

Definition validateAddressFormat (mint : string) : TokenValidationResult :=
  if bool_decide (mint = "") then
    verdict_invalid "Invalid address format: not a string"
  else if (String.length mint <? 32)%nat || (44 <? String.length mint)%nat then
    verdict_invalid "Invalid address format: incorrect length"
  else if negb (base58Regex mint) then
    verdict_invalid "Invalid address format: invalid base58 characters"
  else if publicKeyOk env mint then verdict_valid None None
  else verdict_invalid "Invalid address format: not a valid Solana public key".

Definition TOKEN_PROGRAM_ID : string := "TokenkegQfeZyiNwAJbNbGKPFXCWuBvf9Ss623VQ5DA".
Definition TOKEN_2022_PROGRAM_ID : string := "TokenzQdBNbLqP5VEhdkAS6EPFLC1PHnBqCXEpPxuEb".

(** The inner [try] of [validateOnChain]: supply and decimals, then
    the optional [getTokenLargestAccounts] call, which sits in a [try]
    of its own: its answer and its failure are both discarded. *)
Definition validateSupply (mint : string) : M TokenValidationResult :=
  try_catch
    (let* supplyInfo := call (getTokenSupplyRpc env mint) in
     match supplyInfo with
     | None => ret (verdict_invalid "Unable to get token supply")
     | Some value =>
         let decimals := sv_decimals value in
         let supply := (sv_amount value / inject_Z (10 ^ decimals))%Q in
         if (decimals <? 0) || (18 <? decimals) then
           ret (verdict_invalid "Invalid token decimals")
         else if Qle_bool supply 0 then
           ret (verdict_invalid "Token has no supply")
         else
           try_catch (call (getTokenLargestAccountsRpc env mint) >> ret tt) (λ _, ret tt) >>
           ret (verdict_valid (Some decimals) (Some supply))
     end)
    (λ _, ret (verdict_invalid "Unable to get token supply information")).

Definition validateOnChain (mint : string) : M TokenValidationResult :=
  try_catch
    (if negb (publicKeyOk env mint) then throw "Invalid public key input"
     else
       let* mintInfo := call (getAccountInfo env mint) in
       match mintInfo with
       | None => ret (verdict_invalid "Token mint account does not exist")
       | Some owner =>
           if negb (String.eqb owner TOKEN_PROGRAM_ID) &&
              negb (String.eqb owner TOKEN_2022_PROGRAM_ID)
           then ret (verdict_invalid "Account is not a token mint")
           else validateSupply mint
       end)
    (λ message, ret (verdict_invalid ("On-chain validation failed: " +:+ message))).

(** [JSON.parse(cached)] read back as a verdict: a value of another
    shape has no [isValid] field, which every caller reads as falsy. *)
Definition as_verdict (v : RedisValue) : TokenValidationResult :=
  match v with
  | RVerdict r => r
  | _ => {| isValid := false; reason := None; decimals := None;
            supply := None; name := None; symbol := None |}
  end.

Definition validation_key (mint : string) : string := "token_validation:" +:+ mint.

Definition validateTokenMint (mint : string) : M TokenValidationResult :=
  try_catch
    (if String.eqb mint SOL_MINT then
       ret {| isValid := true; reason := None; decimals := Some 9;
              supply := Some (589000000 # 1); name := Some "Solana";
              symbol := Some "SOL" |}
     else
       let formatValidation := validateAddressFormat mint in
       if negb (isValid formatValidation) then ret formatValidation
       else
         let cacheKey := validation_key mint in
         let* cached := redis_get cacheKey in
         match present cached with
         | Some v => ret (as_verdict v)
         | None =>
             let* onChainValidation := validateOnChain mint in
             redis_setex cacheKey VALIDATION_CACHE_TTL (RVerdict onChainValidation) >>
             ret onChainValidation
         end)
    (λ message, ret (verdict_invalid ("Validation error: " +:+ message))).

(** The purge of [cleanupInvalidToken]: both deletions in one
    [prisma.$transaction]. *)
Definition purge_rows (mint : string) : M unit :=
  transaction (db_deleteHistory env mint >> db_deleteTokenPrice env mint).

Definition cleanup_keys (mint : string) : list string :=
  [ "token_price_sol:" +:+ mint;
    "token_supply:" +:+ mint;
    "token_decimals:" +:+ mint;
    "dexscreener_price:" +:+ mint;
    "pool_address:" +:+ mint +:+ ":*";
    "token_validation:" +:+ mint ].

Fixpoint cleanup_cache (keys : list string) : M unit :=
  match keys with
  | [] => ret tt
  | key :: rest =>
      (if Js.includes key "*" then
         let* found := redis_keys key in
         match found with
         | [] => ret tt
         | _ => redis_del found
         end
       else redis_del [key]) >>
      cleanup_cache rest
  end.

Definition cleanupInvalidToken (mint : string) : M unit :=
  try_catch
    (purge_rows mint >> cleanup_cache (cleanup_keys mint))
    (λ _, ret tt).

End TokenValidationService.

(** ** priceTrackingService.ts *)

Section PriceTrackingService.
Context (env : Env).

Definition SOL_PRICE_CACHE_TTL : Z := 30000.

(** [parseFloat(cached)] of a printed number; only [getTokenSupply]
    writes the key it reads, another shape would parse to NaN. *)
Definition as_number (v : RedisValue) : Q :=
  match v with
  | RNumber q => q
  | _ => 0
  end.

Definition getTokenSupply (mint : string) : M Q :=
  try_catch
    (let cacheKey := "token_supply:" +:+ mint in
     let* cached := redis_get cacheKey in
     match present cached with
     | Some v => ret (as_number v)
     | None =>
         if negb (publicKeyOk env mint) then throw "Invalid public key input"
         else
           let* mintInfo := call (getTokenSupplyRpc env mint) in
           match mintInfo with
           | None => throw "Failed to get token supply"
           | Some value =>
               let supply := (sv_amount value / inject_Z (10 ^ sv_decimals value))%Q in
               redis_setex cacheKey 3600 (RNumber supply) >> ret supply
           end
     end)
    (λ _, ret (1000000000 # 1)).

(** The [{ price, timestamp }] object of a price cache, when fresh. *)
Definition fresh_price (t ttl : Z) (v : RedisValue) : option Q :=
  match v with
  | RTimedPrice price stamp => if t - stamp <? ttl then Some price else None
  | _ => None
  end.

Definition remember_sol_price (price : Q) (t : Z) : M unit :=
  modify (with_solPriceCache (Some (price, t))) >>
  redis_setex "sol_usd_price" 30 (RTimedPrice price t).

(** [q > 0] *)
Definition Qpositive (q : Q) : bool := Qgtb q 0.

Definition fresh_memory (t : Z) (memory : option (Q * Z)) : option Q :=
  match memory with
  | Some (price, stamp) => if t - stamp <? SOL_PRICE_CACHE_TTL then Some price else None
  | None => None
  end.

(** The DexScreener attempt for the SOL price; its [catch] only logs. *)
Definition trySolFromDexScreener (t : Z) : M (option Q) :=
  let price := dexScreenerSolPrice env in
  if Qpositive price then remember_sol_price price t >> ret (Some price)
  else ret None.

Definition getSolPriceUsd : M Q :=
  try_catch
    (let* t := gets now in
     let* cached := redis_get "sol_usd_price" in
     match mbind (fresh_price t SOL_PRICE_CACHE_TTL) (present cached) with
     | Some price => ret price
     | None =>
         let* memory := gets solPriceCache in
         match fresh_memory t memory with
         | Some price => ret price
         | None =>
             let* fromDexScreener := trySolFromDexScreener t in
             match fromDexScreener with
             | Some price => ret price
             | None =>
                 let* price := call (solPriceFromOnChain env) in
                 remember_sol_price price t >> ret price
             end
         end
     end)
    (λ _, ret (132 # 1)).

Definition price_key (mint : string) : string := "token_price_sol:" +:+ mint.

Definition cache_price (mint : string) (price : Q) : M unit :=
  let* t := gets now in
  redis_setex (price_key mint) 5 (RTimedPrice price t).

(** The DexScreener attempt: [Some price] is the [return] inside the
    [try]; a failure is logged and the function goes on. *)
Definition tryDexScreener (mint : string) : M (option Q) :=
  try_catch
    (let* dexScreenerResult := call (dexScreenerTokenPrice env mint) in
     match dexScreenerResult with
     | Some r =>
         if Qpositive (br_priceInSol r) then
           cache_price mint (br_priceInSol r) >> ret (Some (br_priceInSol r))
         else ret None
     | None => ret None
     end)
    (λ _, ret None).

Definition tryPool (mint : string) : M (option Q) :=
  try_catch
    (let* poolPrice := call (tokenPriceFromPool env mint) in
     if Qpositive poolPrice then cache_price mint poolPrice >> ret (Some poolPrice)
     else ret None)
    (λ _, ret None).

Definition getTokenPriceInSolOptimized (mint : string) : M Q :=
  try_catch
    (if String.eqb mint SOL_MINT then ret 1%Q
     else
       let* t := gets now in
       let* cached := redis_get (price_key mint) in
       match mbind (fresh_price t 5000) (present cached) with
       | Some price => ret price
       | None =>
           let* fromDexScreener := tryDexScreener mint in
           match fromDexScreener with
           | Some price => ret price
           | None =>
               let* fromPool := tryPool mint in
               match fromPool with
               | Some price => ret price
               | None => throw "All pricing methods failed"
               end
           end
       end)
    (λ _, ret 0%Q).

(** [`${reason}`] of an optional string *)
Definition show_reason (r : option string) : string := default "undefined" r.

Definition getTokenPrice (mint : string) : M TokenPriceData :=
  let* validation := validateTokenMint env mint in
  if negb (isValid validation) then
    throw ("Invalid token mint: " +:+ show_reason (reason validation))
  else
    let* totalSupply := getTokenSupply mint in
    let* priceInSol := getTokenPriceInSolOptimized mint in
    let* solPriceUsd := getSolPriceUsd in
    let priceUsd := (priceInSol * solPriceUsd)%Q in
    let marketCap := (priceUsd * totalSupply)%Q in
    let* t := gets now in
    ret {| tokenMint := mint; priceUsd := priceUsd; priceInSol := priceInSol;
           marketCap := marketCap; totalSupply := totalSupply; timestamp := t |}.

(** [redisPublisher.publish('price_update', JSON.stringify(priceData))] *)
Definition publish (channel : string) (d : TokenPriceData) : M unit :=
  modify (λ w, with_published (published w ++ [(channel, d)]) w).

Definition updateTokenPrice (mint : string) : M unit :=
  try_catch
    (let* validation := validateTokenMint env mint in
     if negb (isValid validation) then
       cleanupInvalidToken env mint >>
       throw ("Invalid token mint: " +:+ show_reason (reason validation))
     else
       let* priceData := getTokenPrice mint in
       transaction (db_upsertTokenPrice env priceData >>
                    db_createHistory env priceData) >>
       publish "price_update" priceData)
    (λ _, ret tt).

Definition getCurrentPrice (mint : string) : M (option TokenPriceData) :=
  gets (λ w, match tokenPrice w !! mint with
             | None => None
             | Some row =>
                 Some {| tokenMint := mint; priceUsd := tp_priceUsd row;
                         priceInSol := tp_priceInSol row;
                         marketCap := tp_marketCap row;
                         totalSupply := tp_totalSupply row;
                         timestamp := tp_lastUpdated row |}
             end).

End PriceTrackingService.

(** ** pollerWorker.ts *)

Section PollerWorker.
Context (env : Env).

Definition PRICE_POLL_INTERVAL : Z := 1000.

Definition jobId (mint : string) : string := "price-" +:+ mint.

Definition invalidKey (mint : string) : string := "invalid_token:" +:+ mint.

(** [priceQueue.getRepeatableJobs()] *)
Definition queue_getRepeatableJobs : M (list RepeatableJob) := gets repeatable.

Definition JobState_eqb (a b : JobState) : bool :=
  match a, b with
  | waiting, waiting | active, active | delayed, delayed
  | completed, completed | failed, failed | paused, paused => true
  | _, _ => false
  end.

(** The entry has the key [name:id:::every]. *)
Definition sameKey (name id : string) (every : Z) (r : RepeatableJob) : bool :=
  String.eqb (rj_name r) name && String.eqb (rj_id r) id && (rj_every r =? every).

(** The id [repeat:<checksum>:<millis>] of the instance of a repeatable
    job that runs at [next]; the checksum is a hash of the key, for
    which the key itself stands here. *)
Definition instanceId (name id : string) (every next : Z) : string :=
  "repeat:" +:+ name +:+ ":" +:+ id +:+ ":" +:+ pretty every +:+ ":" +:+ pretty next.

(** The next run of a job that repeats by interval:
    [Math.floor(now / every) * every + every]. *)
Definition nextRun (every t : Z) : Z := t / every * every + every.

(** [priceQueue.removeRepeatable(name, { every })].  The call names no
    job id, so the key it looks up is [name::::every]: it removes the
    entry of a job that was added without a job id, together with the
    delayed instance of its next run, and no other entry. *)
Definition queue_removeRepeatable (name : string) (every : Z) : M unit :=
  modify (λ w,
    let found := List.filter (sameKey name "" every) (repeatable w) in
    let instances := (λ r, instanceId name "" every (rj_next r)) <$> found in
    with_queue
      (List.filter (λ r, negb (sameKey name "" every r)) (repeatable w))
      (List.filter
         (λ j, negb (JobState_eqb (job_state j) delayed &&
                     bool_decide (job_id j ∈ instances)))
         (jobs w))
      w).

(** [priceQueue.add(name, { tokenMint }, { repeat: { every }, jobId: name })].
    The key of the job is [name:name:::every].  The sorted set has
    each key once: adding a key that it holds only moves the time of
    its next run.  The delayed instance of that run is created unless
    a job with its id exists. *)
Definition queue_add (name mint : string) (every : Z) : M unit :=
  modify (λ w,
    let next := nextRun every (now w) in
    let id := instanceId name name every next in
    with_queue
      (if existsb (sameKey name name every) (repeatable w)
       then map (λ r, if sameKey name name every r
                      then {| rj_name := rj_name r; rj_id := rj_id r;
                              rj_pattern := rj_pattern r; rj_every := rj_every r;
                              rj_next := next |}
                      else r)
                (repeatable w)
       else repeatable w ++
              [{| rj_name := name; rj_id := name; rj_pattern := None;
                  rj_every := every; rj_next := next |}])
      (if existsb (λ j, String.eqb (job_id j) id) (jobs w) then jobs w
       else jobs w ++
              [{| job_id := id; job_state := delayed; job_tokenMint := mint;
                  job_locked := false |}])
      w).

(** [priceQueue.getJobs([state], 0, 1000)]: indices 0 to 1000. *)
Definition queue_getJobs (state : JobState) : M (list Job) :=
  gets (λ w, take 1001 (List.filter (λ j, JobState_eqb (job_state j) state) (jobs w))).

(** [job.remove()]: BullMQ refuses to remove a job that a worker holds
    the lock of, and the call throws. *)
Definition job_remove (j : Job) : M unit :=
  let* locked :=
    gets (λ w, existsb (λ k, String.eqb (job_id k) (job_id j) && job_locked k) (jobs w)) in
  if locked then
    throw ("Job " +:+ job_id j +:+ " could not be removed because it is locked by another worker")
  else
    modify (λ w, with_queue (repeatable w)
                   (List.filter (λ k, negb (String.eqb (job_id k) (job_id j))) (jobs w)) w).

(** Step 1 of [obliterateTokenJobs]: the loop over the repeatable jobs. *)
Fixpoint removeRepeatables (jid : string) (rs : list RepeatableJob) : M unit :=
  match rs with
  | [] => ret tt
  | repeatableJob :: rest =>
      (if String.eqb (rj_name repeatableJob) jid || String.eqb (rj_id repeatableJob) jid
       then
         let every := default PRICE_POLL_INTERVAL (rj_pattern repeatableJob) in
         queue_removeRepeatable (rj_name repeatableJob) every
       else ret tt) >>
      removeRepeatables jid rest
  end.

Fixpoint removeInstances (mint : string) (js : list Job) : M unit :=
  match js with
  | [] => ret tt
  | job :: rest =>
      (if String.eqb (job_tokenMint job) mint then job_remove job else ret tt) >>
      removeInstances mint rest
  end.

Definition allStates : list JobState :=
  [waiting; active; delayed; completed; failed; paused].

(** Step 2: the instances of the mint, state by state.  A removal
    that throws ends the loop over its state, and the next state is
    tried. *)
Fixpoint removeFromStates (mint : string) (states : list JobState) : M unit :=
  match states with
  | [] => ret tt
  | state :: rest =>
      try_catch
        (let* found := queue_getJobs state in removeInstances mint found)
        (λ _, ret tt) >>
      removeFromStates mint rest
  end.

Definition obliterateTokenJobs (mint : string) : M unit :=
  let jid := jobId mint in
  try_catch
    (let* repeatableJobs := queue_getRepeatableJobs in
     removeRepeatables jid repeatableJobs >>
     removeFromStates mint allStates >>
     let* keys := redis_keys ("bull:price-tracking:*" +:+ jid +:+ "*") in
     match keys with
     | [] => ret tt
     | _ => redis_del keys
     end)
    (λ _, ret tt).

(** The validation gate of [addTokenForTracking]: [true] when the
    function goes on past its first [try]. *)
Definition validationGate (mint : string) : M bool :=
  try_catch
    (let* validation := validateTokenMint env mint in
     if negb (isValid validation) then
       redis_setex (invalidKey mint) 86400 (RText "true") >> ret false
     else ret true)
    (λ _, ret false).

Definition addTokenForTracking (mint : string) : M unit :=
  let* passed := validationGate mint in
  if negb passed then ret tt
  else
    let* isInvalid := redis_get (invalidKey mint) in
    match present isInvalid with
    | Some _ => ret tt
    | None =>
        obliterateTokenJobs mint >>
        queue_add (jobId mint) mint PRICE_POLL_INTERVAL
    end.

Definition removeTokenFromTracking (mint : string) : M unit :=
  try_catch
    (redis_setex (invalidKey mint) 86400 (RText "true") >>
     obliterateTokenJobs mint >>
     db_deleteHistory env mint >>
     db_deleteTokenPrice env mint)
    (λ _, ret tt).

(** [pollingJobsTotal.inc({ token_mint, status })] *)
Definition inc (mint status : string) : M unit :=
  modify (λ w, with_counter (pollingJobsTotal w ++ [(mint, status)]) w).

(** The processor of the BullMQ [Worker]: a returned outcome completes
    the job, a thrown one fails it. *)
Definition worker (mint : string) : M unit :=
  let* isInvalid := redis_get (invalidKey mint) in
  match present isInvalid with
  | Some _ => removeTokenFromTracking mint
  | None =>
      try_catch
        (updateTokenPrice env mint >> inc mint "success")
        (λ message,
           if Js.includes message "Invalid token mint" then
             removeTokenFromTracking mint >> inc mint "invalid"
           else
             inc mint "error" >> throw message)
  end.

End PollerWorker.

(** ** socketService.ts *)

Section SocketService.
Context (env : Env).

(** [socket.emit(event, payload)] *)
Definition emit (socket : string) (ev : SocketEvent) : M unit :=
  modify (λ w, with_hub (socketSubscriptions w) (rooms w)
                        (emitted w ++ [(socket, ev)]) w).

Definition room (mint : string) : string := "token:" +:+ mint.

(** [subscriptions.subscriptions.add(mint); socket.join(room)] *)
Definition join (socket mint : string) : M unit :=
  modify (λ w, with_hub
                 (alter (λ subs, {[mint]} ∪ subs) socket (socketSubscriptions w))
                 ({[(socket, room mint)]} ∪ rooms w)
                 (emitted w) w).

(** [subscriptions.subscriptions.delete(mint); socket.leave(room)] *)
Definition leave (socket mint : string) : M unit :=
  modify (λ w, with_hub
                 (alter (λ subs, subs ∖ {[mint]}) socket (socketSubscriptions w))
                 (rooms w ∖ {[(socket, room mint)]})
                 (emitted w) w).

(** The inner [try] of [subscribeToToken]: discovery, first snapshot
    and confirmation. *)
Definition discover (socket mint : string) : M unit :=
  let* tracked := getCurrentPrice mint in
  let* tokenData :=
    match tracked with
    | Some d => ret d
    | None =>
        let* d := getTokenPrice env mint in
        updateTokenPrice env mint >>
        addTokenForTracking env mint >>
        ret d
    end in
  emit socket (EvPriceUpdate tokenData) >>
  let* subs := gets (λ w, socketSubscriptions w !! socket) in
  emit socket (EvSubscriptionSuccess mint
                 (Z.of_nat (size (default (∅ : gset string) subs)))).

Definition subscribeToToken (socket mint : string) : M unit :=
  try_catch
    (let* validation := validateTokenMint env mint in
     if negb (isValid validation) then
       emit socket
         (EvSubscriptionError mint
            ("Invalid token mint: " +:+ show_reason (reason validation))
            (Some "INVALID_TOKEN_MINT"))
     else
       let* subscriptions := gets (λ w, socketSubscriptions w !! socket) in
       match subscriptions with
       | None => emit socket (EvError "Socket not properly initialized")
       | Some subs =>
           if bool_decide (mint ∈ subs) then
             emit socket (EvSubscriptionStatus mint "already_subscribed")
           else
             join socket mint >>
             try_catch
               (discover socket mint)
               (λ _, leave socket mint >>
                     emit socket
                       (EvSubscriptionError mint "Failed to discover token" None))
       end)
    (λ _, emit socket (EvSubscriptionError mint "Failed to subscribe to token" None)).

End SocketService.

(** ** rugCheckService.ts *)

Section RugCheckService.
Context (env : Env).

Definition RUG_CACHE_TTL : Z := 300.

Definition fresh_rug (t : Z) (v : RedisValue) : option (option RugCheckData) :=
  match v with
  | RRugCheck d stamp => if t - stamp <? RUG_CACHE_TTL * 1000 then Some (Some d) else None
  | _ => None
  end.

Definition getTokenRugCheck (mint : string) : M (option RugCheckData) :=
  let cacheKey := "rugcheck:" +:+ mint in
  let* t := gets now in
  let* cached := redis_get cacheKey in
  match mbind (fresh_rug t) (present cached) with
  | Some hit => ret hit
  | None =>
      match rugCheckReport env mint with
      | RugOk None => ret None
      | RugOk (Some d) => redis_setex cacheKey RUG_CACHE_TTL (RRugCheck d t) >> ret (Some d)
      | RugHttpError status =>
          if status =? 404 then ret None
          else if status =? 429 then throw "RugCheck API rate limit exceeded"
          else ret None
      | RugOtherError => ret None
      end
  end.

Record RiskSummary : Type := {
  totalRisks : Z;
  highRisks : Z;
  mediumRisks : Z;
  lowRisks : Z
}.

Definition RiskLevel_eqb (a b : RiskLevel) : bool :=
  match a, b with
  | info, info | warn, warn | danger, danger => true
  | _, _ => false
  end.

Definition count_level (l : RiskLevel) (risks : list RugCheckRisk) : Z :=
  Z.of_nat (length (List.filter (λ r, RiskLevel_eqb (rk_level r) l) risks)).

Definition getRiskSummary (risks : list RugCheckRisk) : RiskSummary :=
  {| totalRisks := Z.of_nat (length risks);
     highRisks := count_level danger risks;
     mediumRisks := count_level warn risks;
     lowRisks := count_level info risks |}.

Inductive OverallRisk : Type := low | medium | high | critical.

Definition getOverallRiskLevel (score_normalised : Z) (rugged : bool) : OverallRisk :=
  if rugged then critical
  else if score_normalised <=? 20 then high
  else if score_normalised <=? 50 then medium
  else low.

End RugCheckService.

(** ** metricService.ts *)

Section MetricService.
Context (env : Env).

(** [text || fallback] on an optional string *)
Definition orElse (fallback : string) (text : option string) : string :=
  match text with
  | None | Some EmptyString => fallback
  | Some t => t
  end.

Definition fallbackInfo : TokenInfo :=
  {| ti_name := "Unknown Token"; ti_symbol := "UNKNOWN"; ti_decimals := 9;
     ti_totalSupply := 1000000000 # 1 |}.

(** [JSON.parse(cached)] read back as a [TokenInfo] *)
Definition as_info (v : RedisValue) : TokenInfo :=
  match v with
  | RTokenInfo i => i
  | _ => fallbackInfo
  end.

Definition getTokenInfo (mint : string) : M TokenInfo :=
  let* validation := validateTokenMint env mint in
  if negb (isValid validation) then
    throw ("Invalid token mint: " +:+ show_reason (reason validation))
  else
    let cacheKey := "token_info:" +:+ mint in
    let* cached := redis_get cacheKey in
    match present cached with
    | Some v => ret (as_info v)
    | None =>
        try_catch
          (if String.eqb mint SOL_MINT then
             let solInfo := {| ti_name := "Solana"; ti_symbol := "SOL";
                               ti_decimals := 9; ti_totalSupply := 589000000 # 1 |} in
             redis_setex cacheKey 3600 (RTokenInfo solInfo) >> ret solInfo
           else
             let* metadata := call (tokenMetadata env mint) in
             if negb (publicKeyOk env mint) then throw "Invalid public key input"
             else
               let* mintInfo := call (getTokenSupplyRpc env mint) in
               match mintInfo with
               | None => throw "Failed to get token supply"
               | Some value =>
                   let tokenInfo :=
                     {| ti_name := orElse "Unknown Token" metadata.1;
                        ti_symbol := orElse "UNKNOWN" metadata.2;
                        ti_decimals := sv_decimals value;
                        ti_totalSupply :=
                          (sv_amount value / inject_Z (10 ^ sv_decimals value))%Q |} in
                   redis_setex cacheKey 3600 (RTokenInfo tokenInfo) >> ret tokenInfo
               end)
          (λ _, ret fallbackInfo)
    end.

Definition holders_key (mint : string) (limit : Z) : string :=
  "top_holders:" +:+ mint +:+ ":" +:+ pretty limit.

(** [JSON.parse(cached)] read back as the holder list *)
Definition as_holders (v : RedisValue) : list HolderBalance :=
  match v with
  | RHolders hs => hs
  | _ => []
  end.

Definition toHolder (tokenInfo : TokenInfo) (account : LargestAccount) : HolderBalance :=
  let balance := default 0%Q (la_uiAmount account) in
  let percentage :=
    if Qpositive (ti_totalSupply tokenInfo)
    then (balance / ti_totalSupply tokenInfo * 100)%Q
    else 0%Q in
  {| hb_address := la_address account; hb_balance := balance;
     hb_percentage := percentage |}.

Definition getTopHolders (mint : string) (limit : Z) : M (list HolderBalance) :=
  let* validation := validateTokenMint env mint in
  if negb (isValid validation) then
    throw ("Invalid token mint: " +:+ show_reason (reason validation))
  else
    let cacheKey := holders_key mint limit in
    let* cached := redis_get cacheKey in
    match present cached with
    | Some v => ret (as_holders v)
    | None =>
        try_catch
          (let* holdersData := call (largestAccounts env mint) in
           let* tokenInfo := getTokenInfo mint in
           let holders :=
             match holdersData with
             | Some accounts => map (toHolder tokenInfo) (Js.slice0 limit accounts)
             | None => []
             end in
           redis_setex cacheKey 300 (RHolders holders) >> ret holders)
          (λ _, ret [])
    end.

Definition Qmin (a b : Q) : Q := if Qle_bool a b then a else b.

Definition calculateConcentrationRatio (mint : string) : M Q :=
  try_catch
    (let* topHolders := getTopHolders mint 10 in
     let concentrationRatio :=
       fold_left (λ sum holder, (sum + hb_percentage holder)%Q) topHolders 0%Q in
     ret (Qmin concentrationRatio 100))
    (λ _, ret 0%Q).

Inductive Window : Type := W1m | W5m | W1h.

Record RugCheckView : Type := {
  rv_score_normalised : Z;
  rv_risks : list RugCheckRisk;
  rv_rugged : bool;
  rv_riskLevel : OverallRisk;
  rv_riskSummary : RiskSummary
}.

Record TokenMetricsResult : Type := {
  tm_tokenMint : string;
  tm_name : string;
  tm_symbol : string;
  tm_totalSupply : Q;
  tm_priceUsd : Q;
  tm_priceInSol : Q;
  tm_marketCap : Q;
  tm_concentrationRatio : Q;
  tm_lastUpdated : Z;
  tm_rugCheck : option RugCheckView
}.

Definition rugView (d : RugCheckData) : RugCheckView :=
  {| rv_score_normalised := rc_score_normalised d;
     rv_risks := rc_risks d;
     rv_rugged := rc_rugged d;
     rv_riskLevel := getOverallRiskLevel (rc_score_normalised d) (rc_rugged d);
     rv_riskSummary := getRiskSummary (rc_risks d) |}.

(** The private [getCurrentPrice] of the metric service *)
Definition currentPrice (mint : string) : M (option TokenPriceRow) :=
  gets (λ w, tokenPrice w !! mint).

Definition getTokenMetrics (mint : string) (_window : Window) : M TokenMetricsResult :=
  let* validation := validateTokenMint env mint in
  if negb (isValid validation) then
    throw ("Invalid token mint: " +:+ show_reason (reason validation))
  else
    let* tokenInfo := getTokenInfo mint in
    let* price := currentPrice mint in
    let* concentrationRatio := calculateConcentrationRatio mint in
    let* rugCheckData := getTokenRugCheck env mint in
    let* t := gets now in
    ret {| tm_tokenMint := mint;
           tm_name := ti_name tokenInfo;
           tm_symbol := ti_symbol tokenInfo;
           tm_totalSupply := ti_totalSupply tokenInfo;
           tm_priceUsd := default 0%Q (tp_priceUsd <$> price);
           tm_priceInSol := default 0%Q (tp_priceInSol <$> price);
           tm_marketCap := default 0%Q (tp_marketCap <$> price);
           tm_concentrationRatio := concentrationRatio;
           tm_lastUpdated := t;
           tm_rugCheck := rugView <$> rugCheckData |}.

End MetricService.

(** ** tokenController.ts *)

(** What a handler sends: [res.json(body)] or
    [res.status(code).json({ error })]. *)
Inductive Response (A : Type) : Type :=
| Ok200 (body : A)
| ErrorJson (status : Z) (error : string).
Arguments Ok200 {A} body.
Arguments ErrorJson {A} status error.

(** The value of [parseInt(text)]. *)
Inductive JsInt : Type :=
| JsNaN
| JsNum (z : Z).

Section TokenController.
Context (env : Env).

(** [MetricsQuerySchema.parse(req.query)]: the enum with its default;
    zod throws on any other text. *)
Definition parseWindow (query : option string) : outcome Window :=
  match query with
  | None => Returned W1h
  | Some text =>
      if String.eqb text "1m" then Returned W1m
      else if String.eqb text "5m" then Returned W5m
      else if String.eqb text "1h" then Returned W1h
      else Thrown "Invalid enum value. Expected '1m' | '5m' | '1h'"
  end.


Definition earlier (a b : PriceHistoryRow) : Prop := ph_timestamp a ≤ ph_timestamp b.

#[global] Instance earlier_dec : RelDecision earlier.
Proof. intros a b. unfold earlier. apply _. Defined.







(** The handler [getTokenMetrics] of the controller (the service
    function of the same name is [getTokenMetrics] above). *)
Definition getTokenMetricsHandler (mintParam windowQuery : option string)
    : M (Response TokenMetricsResult) :=
  match mintParam with
  | None => ret (ErrorJson 400 "Token mint is required")
  | Some mint =>
      if bool_decide (mint = "") then ret (ErrorJson 400 "Token mint is required")
      else
        try_catch
          (let* window := call (parseWindow windowQuery) in
           let* tokenData := getCurrentPrice mint in
           match tokenData with
           | Some _ => ret tt
           | None => getTokenPrice env mint >> updateTokenPrice env mint
           end >>
           let* comprehensiveMetrics := getTokenMetrics env mint window in
           ret (Ok200 comprehensiveMetrics))
          (λ message, ret (ErrorJson 400 message))
  end.

(** [HoldersQuerySchema] of types/api.ts:
    [z.coerce.number().min(1).max(50).default(10)].  It is declared
    next to the other query schemas; the holders handler below does
    not import it. *)
Definition HoldersQuerySchema (limit : option JsInt) : outcome Z :=
  match limit with
  | None => Returned 10
  | Some JsNaN => Thrown "Expected number, received nan"
  | Some (JsNum z) =>
      if z <? 1 then Thrown "Number must be greater than or equal to 1"
      else if 50 <? z then Thrown "Number must be less than or equal to 50"
      else Returned z
  end.

Record HoldersBody : Type := {
  hold_data : list HolderBalance;
  hold_total : Z;
  hold_limit : Z
}.

(** [parseInt(req.query.limit as string) || 10] *)
Definition effectiveLimit (parsed : JsInt) : Z :=
  match parsed with
  | JsNaN => 10
  | JsNum z => if z =? 0 then 10 else z
  end.

Definition getTokenHolders (mintParam : option string) (parsedLimit : JsInt)
    : M (Response HoldersBody) :=
  match mintParam with
  | None => ret (ErrorJson 400 "Token mint is required")
  | Some mint =>
      if bool_decide (mint = "") then ret (ErrorJson 400 "Token mint is required")
      else
        try_catch
          (let limit := effectiveLimit parsedLimit in
           if 100 <? limit then ret (ErrorJson 400 "Limit cannot exceed 100")
           else
             let* topHolders := getTopHolders env mint limit in
             ret (Ok200 {| hold_data := topHolders;
                           hold_total := Z.of_nat (length topHolders);
                           hold_limit := limit |}))
          (λ message, ret (ErrorJson 400 message))
  end.

End TokenController.

(** ** dexScreenerService.ts: the score of a pair *)

(** The fields of [DexScreenerPair] that the score reads; [None] is an
    absent field ([pair.liquidity?.usd] and the like). *)
Record DexScreenerPair : Type := {
  dexId : string;
  pairAddress : string;
  liquidityUsd : option Q;
  volume24h : option Q;
  txnsBuys : option Z;
  txnsSells : option Z
}.

Definition isLaunchLike (pair : DexScreenerPair) : bool :=
  Js.includes (Js.toLowerCase (dexId pair)) "pump" ||
  Js.includes (Js.toLowerCase (dexId pair)) "launch" ||
  Js.includes (pairAddress pair) "pump".

Definition scoreEstablishedDexes : list string := ["raydium"; "orca"; "jupiter"].

Definition calculatePairScore (pair : DexScreenerPair) : Q :=
  let liquidityUsd := default 0%Q (liquidityUsd pair) in
  let volume24h := default 0%Q (volume24h pair) in
  let txnsBuys := default 0 (txnsBuys pair) in
  let txnsSells := default 0 (txnsSells pair) in
  let totalTxns := txnsBuys + txnsSells in
  let liquidityScore := (liquidityUsd * (3 # 10))%Q in
  let volumeScore := (volume24h * (4 # 10))%Q in
  let txnScore := (inject_Z totalTxns * 200 * (3 # 10))%Q in
  let dexBonus : Q :=
    if Js.includesAny (Js.toLowerCase (dexId pair)) scoreEstablishedDexes
    then 50000%Q else 0%Q in
  let launchpadPenalty : Q :=
    if isLaunchLike pair then
      if Qgtb volume24h 100000 then (-10000)%Q else (-100000)%Q
    else 0%Q in
  let volumeToLiquidityRatio :=
    if Qpositive liquidityUsd then (volume24h / liquidityUsd)%Q else 0%Q in
  let activityBonus : Q :=
    if Qgtb volumeToLiquidityRatio (1 # 10) then 15000%Q else 0%Q in
  let recentActivityBonus : Q := if 50 <? totalTxns then 5000%Q else 0%Q in
  (liquidityScore + volumeScore + txnScore + dexBonus + launchpadPenalty +
   activityBonus + recentActivityBonus)%Q.

(** ** Notions used by the properties *)

(** Iverson bracket *)
Definition iverson (b : bool) : Q := if b then 1%Q else 0%Q.

Definition txnCount24h (pair : DexScreenerPair) : Z :=
  default 0 (txnsBuys pair) + default 0 (txnsSells pair).

Definition venueIn (venues : list string) (pair : DexScreenerPair) : bool :=
  Js.includesAny (Js.toLowerCase (dexId pair)) venues.

Definition turnoverAbove (pair : DexScreenerPair) : bool :=
  Qgtb (default 0%Q (volume24h pair) / default 0%Q (liquidityUsd pair))%Q (1 # 10).

(** The score as section 4.D.1 of the specification words it: the
    established set has four venues and the penalty, a negative
    number, is subtracted. *)
Definition specEstablished : list string := ["raydium"; "orca"; "jupiter"; "meteora"].

Definition specPenalty (pair : DexScreenerPair) : Q :=
  if isLaunchLike pair then
    if Qgtb (default 0%Q (volume24h pair)) 100000 then (-10000)%Q else (-100000)%Q
  else 0%Q.

Definition specScore (pair : DexScreenerPair) : Q :=
  ((3 # 10) * default 0%Q (liquidityUsd pair)
   + (4 # 10) * default 0%Q (volume24h pair)
   + (3 # 10) * (200 * inject_Z (txnCount24h pair))
   + 50000 * iverson (venueIn specEstablished pair)
   - specPenalty pair
   + 15000 * iverson (turnoverAbove pair)
   + 5000 * iverson (50 <? txnCount24h pair))%Q.

(** What a launch-like pair loses in the code, as a positive amount. *)
Definition launchDeduction (pair : DexScreenerPair) : Q :=
  if isLaunchLike pair then
    if Qgtb (default 0%Q (volume24h pair)) 100000 then 10000%Q else 100000%Q
  else 0%Q.

Definition windowText (window : Window) : string :=
  match window with
  | W1m => "1m"
  | W5m => "5m"
  | W1h => "1h"
  end.

(** The usable answer of each price source, in dispatch order. *)
Definition cachedPrice (mint : string) (w : World) : option Q :=
  mbind (fresh_price (now w) 5000) (present (redis_lookup w (price_key mint))).

Definition aggregatorPrice (env : Env) (mint : string) : option Q :=
  match dexScreenerTokenPrice env mint with
  | Returned (Some r) => if Qpositive (br_priceInSol r) then Some (br_priceInSol r) else None
  | _ => None
  end.

Definition poolPrice (env : Env) (mint : string) : option Q :=
  match tokenPriceFromPool env mint with
  | Returned price => if Qpositive price then Some price else None
  | Thrown _ => None
  end.

(** The tables and the pub/sub log, with the clock and the id sequence
    that the next write will use. *)
Definition store (w : World) :=
  (tokenPrice w, priceHistory w, historySeq w, published w, now w).

(** What the validator answers in a given world and environment. *)
Definition validates (env : Env) (mint : string) (w : World) : bool :=
  match result (validateTokenMint env mint) w with
  | Returned verdict => isValid verdict
  | Thrown _ => false
  end.

(** The cached holder list of this request, when there is one, has at
    most [limit] entries (as every list that [getTopHolders] caches
    under that key has). *)
Definition holdersCacheOk (mint : string) (limit : Z) (w : World) : Prop :=
  ∀ v, redis_lookup w (holders_key mint limit) = Some v →
       (length (as_holders v) ≤ Z.to_nat limit)%nat.


(** ** The scheduler as a transition system *)

(** One step of the scheduler's life: an enrolment
    ([addTokenForTracking]), a ban ([removeTokenFromTracking]), one
    run of the worker's processor, or the passing of time.  Each call
    sees the outside world through its own [Env]. *)
Inductive Step : Type :=
| Enrol (env : Env) (mint : string)
| BanAndRemove (env : Env) (mint : string)
| Poll (env : Env) (mint : string)
| Elapse (dt : Z).

Definition step (s : Step) (w : World) : World :=
  match s with
  | Enrol env mint => run (addTokenForTracking env mint) w
  | BanAndRemove env mint => run (removeTokenFromTracking env mint) w
  | Poll env mint => run (worker env mint) w
  | Elapse dt => with_now (now w + Z.max 0 dt) w
  end.

Definition exec (steps : list Step) (w : World) : World :=
  fold_left (λ w s, step s w) steps w.

(** The owner of an account is one of the two token programs. *)
Definition tokenProgram (owner : string) : bool :=
  String.eqb owner TOKEN_PROGRAM_ID || String.eqb owner TOKEN_2022_PROGRAM_ID.

(** The supply that the chain reports *)
Definition reportedSupply (value : SupplyValue) : Q :=
  (sv_amount value / inject_Z (10 ^ sv_decimals value))%Q.

(** The validator works out the invalid verdict [why] and caches it
    for one hour, and the verdict is acted upon as that of any invalid
    mint: an enrolment sets the 24-hour ban key and leaves the queue
    as it was, and an update purges the rows of the mint (when the
    database accepts the deletions) and publishes nothing. *)
Definition treatedAsInvalid (env : Env) (mint : string) (w : World) (why : string) : Prop :=
  validateTokenMint env mint w
  = (Returned (verdict_invalid why),
     with_redis (<[validation_key mint :=
                     (RVerdict (verdict_invalid why), Some (now w + 3600 * 1000))]>
                   (redis w)) w)
  ∧ redis (step (Enrol env mint) w) !! invalidKey mint
    = Some (RText "true", Some (now w + 86400 * 1000))
  ∧ repeatable (step (Enrol env mint) w) = repeatable w
  ∧ jobs (step (Enrol env mint) w) = jobs w
  ∧ (deleteFails env mint = None →
     let w' := run (updateTokenPrice env mint) w in
     tokenPrice w' = delete mint (tokenPrice w) ∧
     priceHistory w' = purgedHistory mint (priceHistory w) ∧
     published w' = published w).

(** Milliseconds that a list of steps lets pass. *)
Definition elapsed (steps : list Step) : Z :=
  fold_right (λ s acc, match s with Elapse dt => Z.max 0 dt + acc | _ => acc end) 0 steps.

(** The ban of [removeTokenFromTracking] lasts this many milliseconds. *)
Definition BAN_TTL_MS : Z := 86400 * 1000.

(** The repeatable entry that an enrolment of the mint stores, with the
    time of its next run. *)
Definition enrolled (mint : string) (next : Z) : RepeatableJob :=
  {| rj_name := jobId mint; rj_id := jobId mint; rj_pattern := None;
     rj_every := PRICE_POLL_INTERVAL; rj_next := next |}.

Definition enrolment (e : string * Z) : RepeatableJob := enrolled e.1 e.2.

(** The queue as enrolments build it: every entry is that of an
    enrolled mint, and no two entries are of the same mint. *)
Definition queue_wf (w : World) : Prop :=
  ∃ entries : list (string * Z),
    NoDup entries.*1 ∧ repeatable w = enrolment <$> entries.

(** Every repeatable job of the queue was added under a job id. *)
Definition keyed (w : World) : Prop :=
  Forall (λ r, rj_id r ≠ "") (repeatable w).

(** The number of repeating jobs named [price-<mint>]. *)
Definition repeatingJobs (mint : string) (w : World) : nat :=
  length (List.filter (λ r, String.eqb (rj_name r) (jobId mint)) (repeatable w)).

(** What [add] makes of the entries: the time of the next run of an
    enrolled mint is moved, and a mint that is not enrolled is
    appended. *)
Definition reschedule (mint : string) (next : Z) (entries : list (string * Z))
    : list (string * Z) :=
  if bool_decide (mint ∈ entries.*1)
  then (λ e, if String.eqb e.1 mint then (e.1, next) else e) <$> entries
  else (entries ++ [(mint, next)])%list.

(** An enrolment gets past both of its gates: the validator accepts
    the mint and the ban key is not set. *)
Definition passes (env : Env) (mint : string) (w : World) : bool :=
  match validationGate env mint w with
  | (Returned true, w1) =>
      match present (redis_lookup w1 (invalidKey mint)) with
      | Some _ => false
      | None => true
      end
  | _ => false
  end.

(** The ban key of the mint is set and expires no earlier than
    [deadline]; a ban set now would last at least as long. *)
Definition banned (mint : string) (deadline : Z) (w : World) : Prop :=
  deadline ≤ now w + BAN_TTL_MS ∧
  ∃ expiry, redis w !! invalidKey mint = Some (RText "true", Some expiry) ∧
            deadline ≤ expiry.

(** The queue is well formed and holds no repeating job of the mint. *)
Definition absent (mint : string) (w : World) : Prop :=
  ∃ entries : list (string * Z),
    NoDup entries.*1 ∧ repeatable w = enrolment <$> entries ∧ mint ∉ entries.*1.

(** ** Invariants of computations *)

(** An invariant of a computation: it holds of the world left behind
    whenever it held of the world found. *)
Definition preserves {A} (P : World → Prop) (m : M A) : Prop :=
  ∀ w, P w → P (run m w).

(** A component of the world has the value [x]. *)
Definition keeps {A} (proj : World → A) (x : A) (w : World) : Prop := proj w = x.

(** Components that a write to the cache, to the tables or to the
    pub/sub log cannot change. *)
Definition blind_cache {A} (proj : World → A) : Prop :=
  (∀ r w, proj (with_redis r w) = proj w) ∧
  (∀ c w, proj (with_solPriceCache c w) = proj w).

Definition blind_store {A} (proj : World → A) : Prop :=
  (∀ tp ph s w, proj (with_db tp ph s w) = proj w) ∧
  (∀ ps w, proj (with_published ps w) = proj w).

(** ** Sample environments and worlds *)

(** A well-formed mint address used in the examples. *)
Definition sampleMint : string := "4k3Dyjzvzp8eMZWUXbBCjEvwSkkk59S5iCNLY3QrkX6R".

(** An environment in which the chain and the other services cannot
    be reached; the aggregator client, which handles its own errors,
    answers that it has no pair. *)
Definition offlineEnv : Env :=
  {| publicKeyOk := λ _, true;
     getAccountInfo := λ _, Thrown "fetch failed";
     getTokenSupplyRpc := λ _, Thrown "fetch failed";
     getTokenLargestAccountsRpc := λ _, Thrown "fetch failed";
     dexScreenerTokenPrice := λ _, Returned None;
     tokenPriceFromPool := λ _, Thrown "No pool found";
     dexScreenerSolPrice := 265 # 2;
     solPriceFromOnChain := Thrown "fetch failed";
     upsertFails := None;
     createFails := None;
     deleteHistoryFails := λ _, None;
     deleteTokenPriceFails := λ _, None;
     upsertStamp := λ t, t + 2;
     createStamp := λ t, t + 3;
     largestAccounts := λ _, Thrown "Failed to fetch token holders";
     tokenMetadata := λ _, Thrown "Failed to fetch token metadata";
     rugCheckReport := λ _, RugOtherError |}.

(** The chain answers, and the account of the mint does not exist. *)
Definition goneEnv : Env :=
  {| publicKeyOk := λ _, true;
     getAccountInfo := λ _, Returned None;
     getTokenSupplyRpc := λ _, Returned None;
     getTokenLargestAccountsRpc := λ _, Returned [];
     dexScreenerTokenPrice := λ _, Returned None;
     tokenPriceFromPool := λ _, Thrown "No pool found";
     dexScreenerSolPrice := 265 # 2;
     solPriceFromOnChain := Thrown "fetch failed";
     upsertFails := None;
     createFails := None;
     deleteHistoryFails := λ _, None;
     deleteTokenPriceFails := λ _, None;
     upsertStamp := λ t, t + 2;
     createStamp := λ t, t + 3;
     largestAccounts := λ _, Returned None;
     tokenMetadata := λ _, Returned (None, None);
     rugCheckReport := λ _, RugHttpError 404 |}.

(** The chain answers for the account of a mint and fails for its
    supply. *)
Definition supplyDownEnv : Env :=
  {| publicKeyOk := λ _, true;
     getAccountInfo := λ _, Returned (Some "TokenkegQfeZyiNwAJbNbGKPFXCWuBvf9Ss623VQ5DA");
     getTokenSupplyRpc := λ _, Thrown "fetch failed";
     getTokenLargestAccountsRpc := λ _, Thrown "fetch failed";
     dexScreenerTokenPrice := λ _, Returned None;
     tokenPriceFromPool := λ _, Thrown "No pool found";
     dexScreenerSolPrice := 265 # 2;
     solPriceFromOnChain := Thrown "fetch failed";
     upsertFails := None;
     createFails := None;
     deleteHistoryFails := λ _, None;
     deleteTokenPriceFails := λ _, None;
     upsertStamp := λ t, t + 2;
     createStamp := λ t, t + 3;
     largestAccounts := λ _, Thrown "fetch failed";
     tokenMetadata := λ _, Thrown "Failed to fetch token metadata";
     rugCheckReport := λ _, RugOtherError |}.

(** The chain answers for the account and the supply of a mint and
    fails for its largest accounts. *)
Definition holdersDownEnv : Env :=
  {| publicKeyOk := λ _, true;
     getAccountInfo := λ _, Returned (Some "TokenkegQfeZyiNwAJbNbGKPFXCWuBvf9Ss623VQ5DA");
     getTokenSupplyRpc := λ _, Returned (Some {| sv_amount := 555000000000000 # 1;
                                                 sv_decimals := 6 |});
     getTokenLargestAccountsRpc := λ _, Thrown "fetch failed";
     dexScreenerTokenPrice := λ _, Returned None;
     tokenPriceFromPool := λ _, Thrown "No pool found";
     dexScreenerSolPrice := 265 # 2;
     solPriceFromOnChain := Thrown "fetch failed";
     upsertFails := None;
     createFails := None;
     deleteHistoryFails := λ _, None;
     deleteTokenPriceFails := λ _, None;
     upsertStamp := λ t, t + 2;
     createStamp := λ t, t + 3;
     largestAccounts := λ _, Thrown "fetch failed";
     tokenMetadata := λ _, Thrown "Failed to fetch token metadata";
     rugCheckReport := λ _, RugOtherError |}.

(** As [goneEnv], with a database that refuses to delete latest-price
    rows. *)
Definition halfDeleteEnv : Env :=
  {| publicKeyOk := λ _, true;
     getAccountInfo := λ _, Returned None;
     getTokenSupplyRpc := λ _, Returned None;
     getTokenLargestAccountsRpc := λ _, Returned [];
     dexScreenerTokenPrice := λ _, Returned None;
     tokenPriceFromPool := λ _, Thrown "No pool found";
     dexScreenerSolPrice := 265 # 2;
     solPriceFromOnChain := Thrown "fetch failed";
     upsertFails := None;
     createFails := None;
     deleteHistoryFails := λ _, None;
     deleteTokenPriceFails := λ _, Some "database is locked";
     upsertStamp := λ t, t + 2;
     createStamp := λ t, t + 3;
     largestAccounts := λ _, Returned None;
     tokenMetadata := λ _, Returned (None, None);
     rugCheckReport := λ _, RugHttpError 404 |}.

(** Every service answers: an SPL mint with supply and a priced pair. *)
Definition onlineEnv : Env :=
  {| publicKeyOk := λ _, true;
     getAccountInfo := λ _, Returned (Some "TokenkegQfeZyiNwAJbNbGKPFXCWuBvf9Ss623VQ5DA");
     getTokenSupplyRpc := λ _, Returned (Some {| sv_amount := 555000000000000 # 1;
                                                 sv_decimals := 6 |});
     getTokenLargestAccountsRpc := λ _, Returned [];
     dexScreenerTokenPrice := λ mint,
       Returned (Some {| br_tokenMint := mint; br_priceUsd := 2 # 1;
                         br_priceInSol := 1 # 100; br_marketCap := 1110000000 # 1;
                         br_liquidity := 5000000 # 1; br_volume24h := 900000 # 1;
                         br_pairAddress := "AVs9TA4nWDzfPJE9gGVNJMVhcQy3V9PGazuz33BfG2RA";
                         br_dexId := "raydium" |});
     tokenPriceFromPool := λ _, Returned (1 # 100);
     dexScreenerSolPrice := 200 # 1;
     solPriceFromOnChain := Returned (200 # 1);
     upsertFails := None;
     createFails := None;
     deleteHistoryFails := λ _, None;
     deleteTokenPriceFails := λ _, None;
     upsertStamp := λ t, t + 2;
     createStamp := λ t, t + 3;
     largestAccounts := λ _, Returned (Some []);
     tokenMetadata := λ _, Returned (Some "Raydium", Some "RAY");
     rugCheckReport := λ _, RugHttpError 404 |}.


(** A world in which the sample mint is tracked: one repeating job,
    a latest row and one history entry. *)
Definition trackedWorld : World :=
  with_queue [enrolled sampleMint 2000] []
    (with_db {[ sampleMint := {| tp_priceUsd := 2; tp_priceInSol := 1 # 100;
                                 tp_marketCap := 1110000000; tp_totalSupply := 555000000;
                                 tp_lastUpdated := 0 |} ]}
       [ {| ph_id := 1; ph_tokenMint := sampleMint; ph_priceUsd := 2;
            ph_priceInSol := 1 # 100; ph_marketCap := 1110000000; ph_timestamp := 0 |} ]
       1 (emptyWorld 1000)).

(** The world after one enrolment of the sample mint. *)
Definition onceEnrolled : World := step (Enrol onlineEnv sampleMint) (emptyWorld 0).

(** A world with one connected socket and nothing else. *)
Definition hubWorld : World :=
  with_hub {[ "socket-1" := ∅ ]} ∅ [] (emptyWorld 0).

(** The same world once the sample mint has been banned. *)
Definition bannedHub : World := step (BanAndRemove goneEnv sampleMint) hubWorld.


(** A Meteora pair with liquidity and no trading. *)
Definition meteoraPair : DexScreenerPair :=
  {| dexId := "meteora"; pairAddress := "7qbRF6YsyGuLUVs6Y1q64bdVrfe4ZcUUz1JRdoVNUJnm";
     liquidityUsd := Some (1000 # 1); volume24h := None;
     txnsBuys := None; txnsSells := None |}.

(** An enrolment of the native mint, a pause and one poll. *)
Definition pollingSteps : list Step :=
  [Enrol offlineEnv SOL_MINT; Elapse 1000; Poll offlineEnv SOL_MINT].

(** The world after those steps and one more enrolment. *)
Definition enrolledAgain : World :=
  step (Enrol offlineEnv SOL_MINT) (exec pollingSteps (emptyWorld 0)).

(** An hour of the ban of the sample mint, with a poll of another mint. *)
Definition quietSteps : list Step := [Elapse 3600000; Poll onlineEnv SOL_MINT].

(** The hub world once the sample mint has been enrolled. *)
Definition enrolledHub : World := step (Enrol onlineEnv sampleMint) hubWorld.

(** The first hour of a ban of the sample mint that was set after its
    enrolment. *)
Definition duringBan : World :=
  exec quietSteps (step (BanAndRemove goneEnv sampleMint) enrolledHub).

(** ** dexScreenerService.ts: selection and conversion of a pair *)

(** A pair as the service receives it: the fields that the score
    reads ([scored]) and those that selection and conversion read
    besides.  [parseFloat] of the two price strings is part of the
    answer; [None] is NaN. *)
Record PairListing : Type := {
  scored : DexScreenerPair;
  baseToken : string;
  quoteToken : string;
  parsedPriceUsd : option Q;
  parsedPriceNative : option Q;
  pairMarketCap : option Q
}.

(** [a < b] on numbers *)
Definition Qltb (a b : Q) : bool := negb (Qle_bool b a).

Definition USDC_MINT : string := "EPjFWdd5AufqSSqeM2qN1xzybapC8G4wEGGkZwyTDt1v".

Definition MIN_LIQUIDITY_USD : Q := 500.
Definition MIN_VOLUME_24H : Q := 100.

(** [p.liquidity?.usd || 0] and [p.volume?.['24h'] || 0] *)
Definition liquidityOf (p : PairListing) : Q := default 0%Q (liquidityUsd (scored p)).
Definition volumeOf (p : PairListing) : Q := default 0%Q (volume24h (scored p)).

(** [isLaunchpad] of the quality filter *)
Definition isLaunchpad (p : PairListing) : bool :=
  let dexIdLower := Js.toLowerCase (dexId (scored p)) in
  Js.includes dexIdLower "pump" ||
  Js.includes dexIdLower "launch" ||
  Js.includes dexIdLower "lab" ||
  String.eqb dexIdLower "launchlab" ||
  Js.includes (pairAddress (scored p)) "pump".

(** The predicate of [pairs.filter(p => ...)] that builds [qualityPairs] *)
Definition isQualityPair (p : PairListing) : bool :=
  let liquidityUsd := liquidityOf p in
  let volume24h := volumeOf p in
  if isLaunchpad p && (negb (Qgtb volume24h 1000) || negb (Qgtb liquidityUsd 5000))
  then false
  else if Js.includesAny (Js.toLowerCase (dexId (scored p)))
            ["raydium"; "orca"; "jupiter"; "meteora"]
  then negb (Qltb liquidityUsd MIN_LIQUIDITY_USD)
  else negb (Qltb volume24h MIN_VOLUME_24H || Qltb liquidityUsd MIN_LIQUIDITY_USD).

Definition selectionEstablishedDexes : list string :=
  ["raydium"; "orca"; "jupiter"; "aldrin"; "saber"].

Definition onEstablishedDex (p : PairListing) : bool :=
  Js.includesAny (Js.toLowerCase (dexId (scored p))) selectionEstablishedDexes.

(** The pair trades the mint against [other], either way round. *)
Definition quotedIn (other tokenMint : string) (p : PairListing) : bool :=
  String.eqb (baseToken p) tokenMint && String.eqb (quoteToken p) other ||
  String.eqb (baseToken p) other && String.eqb (quoteToken p) tokenMint.

(** [xs.reduce((best, current) => better(current, best) ? current : best)]
    on an array whose first element is [first]. *)
Definition reduceBest {A} (better : A → A → bool) (first : A) (rest : list A) : A :=
  fold_left (λ best current, if better current best then current else best) rest first.

Definition higherScore (current best : PairListing) : bool :=
  Qgtb (calculatePairScore (scored current)) (calculatePairScore (scored best)).

Definition higherLiquidity (current best : PairListing) : bool :=
  Qgtb (liquidityOf current) (liquidityOf best).

(** [group.reduce(...)] by score; the callers test [group.length > 0] first. *)
Definition bestByScore (group : list PairListing) : option PairListing :=
  match group with
  | [] => None
  | first :: rest => Some (reduceBest higherScore first rest)
  end.

(** The locals of [selectBestPair] *)
Definition qualityPairs (pairs : list PairListing) : list PairListing :=
  List.filter isQualityPair pairs.

Definition establishedPairs (pairs : list PairListing) : list PairListing :=
  match List.filter onEstablishedDex (qualityPairs pairs) with
  | [] => qualityPairs pairs
  | established => established
  end.

Definition solPairs (pairs : list PairListing) (tokenMint : string) : list PairListing :=
  List.filter (quotedIn SOL_MINT tokenMint) (establishedPairs pairs).

Definition usdcPairs (pairs : list PairListing) (tokenMint : string) : list PairListing :=
  List.filter (quotedIn USDC_MINT tokenMint) (establishedPairs pairs).

Definition selectBestPair (pairs : list PairListing) (tokenMint : string)
    : option PairListing :=
  match pairs with
  | [] => None
  | [only] => Some only
  | first :: rest =>
      match qualityPairs pairs with
      | [] => Some (reduceBest higherLiquidity first rest)
      | _ =>
          match solPairs pairs tokenMint with
          | _ :: _ => bestByScore (solPairs pairs tokenMint)
          | [] =>
              match usdcPairs pairs tokenMint with
              | _ :: _ => bestByScore (usdcPairs pairs tokenMint)
              | [] => bestByScore (establishedPairs pairs)
              end
          end
      end
  end.

(** [convertPairToResult]: nothing in its [try] throws. *)
Definition convertPairToResult (pair : PairListing) (tokenMint : string)
    : option BatchTokenPriceResult :=
  match parsedPriceUsd pair with
  | None => None
  | Some priceUsd =>
      if Qle_bool priceUsd 0 then None
      else
        Some {| br_tokenMint := tokenMint;
                br_priceUsd := priceUsd;
                br_priceInSol :=
                  match parsedPriceNative pair with
                  | None => (priceUsd / (1325 # 10))%Q
                  | Some priceInSol => priceInSol
                  end;
                br_marketCap := default 0%Q (pairMarketCap pair);
                br_liquidity := liquidityOf pair;
                br_volume24h := volumeOf pair;
                br_pairAddress := pairAddress (scored pair);
                br_dexId := dexId (scored pair) |}
  end.

(** [tokenPairsMap.get(key).push(pair)], the key being created on its
    first use; a [Map] iterates in insertion order. *)
Fixpoint pushTo (key : string) (pair : PairListing)
    (groups : list (string * list PairListing)) : list (string * list PairListing) :=
  match groups with
  | [] => [(key, [pair])]
  | (k, ps) :: rest =>
      if String.eqb k key then (k, (ps ++ [pair])%list) :: rest
      else (k, ps) :: pushTo key pair rest
  end.

Definition groupPairs (pairs : list PairListing) (requestedTokens : list string)
    : list (string * list PairListing) :=
  fold_left
    (λ groups pair,
       fold_left
         (λ groups tokenMint,
            if String.eqb (baseToken pair) tokenMint || String.eqb (quoteToken pair) tokenMint
            then pushTo tokenMint pair groups
            else groups)
         requestedTokens groups)
    pairs [].

Definition processPairsResponse (pairs : list PairListing) (requestedTokens : list string)
    : list BatchTokenPriceResult :=
  omap (λ group, selectBestPair group.2 group.1 ≫= λ bestPair,
                 convertPairToResult bestPair group.1)
       (groupPairs pairs requestedTokens).

(** [array.slice(start, end)]: negative indices count from the end. *)
Definition array_slice {A} (start stop : Z) (array : list A) : list A :=
  let n := Z.of_nat (length array) in
  let clamp i := if i <? 0 then Z.max (n + i) 0 else Z.min i n in
  take (Z.to_nat (clamp stop - clamp start)) (drop (Z.to_nat (clamp start)) array).

(** The loop of [chunkArray] from index [i]; [None] when it is still
    running after [fuel] iterations. *)
Fixpoint chunkLoop {A} (fuel : nat) (array : list A) (size i : Z)
    : option (list (list A)) :=
  if i <? Z.of_nat (length array) then
    match fuel with
    | O => None
    | S fuel' =>
        (λ chunks, array_slice i (i + size) array :: chunks)
          <$> chunkLoop fuel' array size (i + size)
    end
  else Some [].

Definition chunkArray {A} (fuel : nat) (array : list A) (size : Z)
    : option (list (list A)) :=
  chunkLoop fuel array size 0.

Definition BATCH_SIZE : Z := 30.

(** A pair listed on a launch pad with little trading, and one on an
    established venue. *)
Definition pumpListing : PairListing :=
  {| scored := {| dexId := "pumpfun"; pairAddress := "9Tb2ohu5P16BpBarqd3N27WnkF51Ukfs8Z1GzzLDxVZW";
                  liquidityUsd := Some (900000 # 1); volume24h := Some (500 # 1);
                  txnsBuys := Some 4; txnsSells := Some 1 |};
     baseToken := sampleMint; quoteToken := SOL_MINT;
     parsedPriceUsd := Some (3 # 1); parsedPriceNative := Some (3 # 200);
     pairMarketCap := None |}.

Definition raydiumListing : PairListing :=
  {| scored := {| dexId := "raydium"; pairAddress := "AVs9TA4nWDzfPJE9gGVNJMVhcQy3V9PGazuz33BfG2RA";
                  liquidityUsd := Some (5000 # 1); volume24h := Some (20000 # 1);
                  txnsBuys := Some 40; txnsSells := Some 30 |};
     baseToken := sampleMint; quoteToken := USDC_MINT;
     parsedPriceUsd := Some (2 # 1); parsedPriceNative := None;
     pairMarketCap := Some (1110000000 # 1) |}.

(** The group from which the pair is finally taken. *)
Definition finalGroup (pairs : list PairListing) (tokenMint : string) : list PairListing :=
  match solPairs pairs tokenMint with
  | _ :: _ => solPairs pairs tokenMint
  | [] =>
      match usdcPairs pairs tokenMint with
      | _ :: _ => usdcPairs pairs tokenMint
      | [] => establishedPairs pairs
      end
  end.

(** ** tokenValidationService.ts: validation of a batch *)

Section TokenValidationBatch.
Context (env : Env).

(** The [results] object of [validateAndCleanupBatch] *)
Record BatchValidation : Type := {
  bv_valid : list string;
  bv_invalid : list string
}.

Definition pushValid (tokenMint : string) (results : BatchValidation) : BatchValidation :=
  {| bv_valid := (bv_valid results ++ [tokenMint])%list; bv_invalid := bv_invalid results |}.

Definition pushInvalid (tokenMint : string) (results : BatchValidation) : BatchValidation :=
  {| bv_valid := bv_valid results; bv_invalid := (bv_invalid results ++ [tokenMint])%list |}.

(** One turn of the loop of [validateAndCleanupBatch].  Its [catch]
    sees [results] as the loop found it: of the two calls in the [try]
    only the validator comes before the [push]. *)
Definition validateAndCleanupOne (tokenMint : string) (results : BatchValidation)
    : M BatchValidation :=
  try_catch
    (let* validation := validateTokenMint env tokenMint in
     if isValid validation then ret (pushValid tokenMint results)
     else cleanupInvalidToken env tokenMint >> ret (pushInvalid tokenMint results))
    (λ _, cleanupInvalidToken env tokenMint >> ret (pushInvalid tokenMint results)).

Fixpoint validateAndCleanupLoop (tokenMints : list string) (results : BatchValidation)
    : M BatchValidation :=
  match tokenMints with
  | [] => ret results
  | tokenMint :: rest =>
      let* results' := validateAndCleanupOne tokenMint results in
      validateAndCleanupLoop rest results'
  end.

Definition validateAndCleanupBatch (tokenMints : list string) : M BatchValidation :=
  validateAndCleanupLoop tokenMints {| bv_valid := []; bv_invalid := [] |}.

End TokenValidationBatch.

(** A mint address is well formed: 32 to 44 characters of the base58
    alphabet that decode to a public key. *)
Definition wellFormed (env : Env) (mint : string) : Prop :=
  (32 ≤ String.length mint ≤ 44)%nat ∧
  Forall (λ c, base58_char c = true) (list_ascii_of_string mint) ∧
  publicKeyOk env mint = true.

(** The rows of the mints of a list are gone from both tables. *)
Definition purgedAll (mints : list string) (before after : World) : Prop :=
  tokenPrice after = fold_left (λ table m, delete m table) mints (tokenPrice before) ∧
  priceHistory after = fold_left (λ rows m, purgedHistory m rows) mints (priceHistory before).



(** The answer of [redis.keys(pattern)] *)
Definition matching (pattern : string) (w : World) : list string :=
  List.filter (λ k, Js.glob pattern k && bool_decide (is_Some (redis_lookup w k)))
              (map_to_list (redis w)).*1.

(** The body of the loop over [cacheKeys] in [cleanupInvalidToken] *)
Definition cleanup_one (key : string) : M unit :=
  if Js.includes key "*" then
    let* found := redis_keys key in
    match found with
    | [] => ret tt
    | _ => redis_del found
    end
  else redis_del [key].

(** ** A sample answer of the top-holders query *)


(** ** Notions used by the properties of the price caches *)

Definition supply_key (mint : string) : string := "token_supply:" +:+ mint.

(** The SOL price cached in Redis and the one kept in memory, when fresh. *)
Definition cachedSolPrice (w : World) : option Q :=
  mbind (fresh_price (now w) SOL_PRICE_CACHE_TTL) (present (redis_lookup w "sol_usd_price")).

Definition rememberedSolPrice (w : World) : option Q :=
  fresh_memory (now w) (solPriceCache w).

(** The first source of the dispatch that has a usable price. *)
Definition fetchedPrice (env : Env) (mint : string) : option Q :=
  match aggregatorPrice env mint with
  | Some price => Some price
  | None => poolPrice env mint
  end.

(** ** pollerWorker.ts: start-up *)

(** [orderBy: { lastUpdated: 'desc' }] *)
Definition laterFirst (a b : string * TokenPriceRow) : Prop :=
  tp_lastUpdated b.2 ≤ tp_lastUpdated a.2.

#[global] Instance laterFirst_dec : RelDecision laterFirst.
Proof. intros a b. unfold laterFirst. apply _. Defined.

(** [tokenPrice.findMany({ orderBy: { lastUpdated: 'desc' } })] *)
Definition findTokenPrices (w : World) : list (string * TokenPriceRow) :=
  merge_sort laterFirst (map_to_list (tokenPrice w)).

(** [getTrackedTokens] of priceTrackingService.ts *)
Definition getTrackedTokens : M (list string) :=
  gets (λ w, (findTokenPrices w).*1).

Section PollerStartup.
Context (env : Env).

(** The first loop of [schedulePriceTrackingJobs]: the tracked mints
    without a ban key, in order. *)
Fixpoint keepUnbanned (tokenMints : list string) : M (list string) :=
  match tokenMints with
  | [] => ret []
  | tokenMint :: rest =>
      let* isInvalid := redis_get (invalidKey tokenMint) in
      let* validTokens := keepUnbanned rest in
      match present isInvalid with
      | Some _ => ret validTokens
      | None => ret (tokenMint :: validTokens)
      end
  end.

(** Its second loop *)
Fixpoint addAllForTracking (validTokens : list string) : M unit :=
  match validTokens with
  | [] => ret tt
  | tokenMint :: rest => addTokenForTracking env tokenMint >> addAllForTracking rest
  end.

Definition schedulePriceTrackingJobs : M unit :=
  let* allTrackedTokens := getTrackedTokens in
  let* validTokens := keepUnbanned allTrackedTokens in
  addAllForTracking validTokens.

(** The loop of [cleanupInvalidTokensFromDatabase] *)
Fixpoint purgeBanned (allTokens : list string) : M unit :=
  match allTokens with
  | [] => ret tt
  | tokenMint :: rest =>
      (let* isInvalid := redis_get (invalidKey tokenMint) in
       match present isInvalid with
       | Some _ => db_deleteHistory env tokenMint >> db_deleteTokenPrice env tokenMint
       | None => ret tt
       end) >>
      purgeBanned rest
  end.

Definition cleanupInvalidTokensFromDatabase : M unit :=
  try_catch
    (let* allTokens := getTrackedTokens in purgeBanned allTokens)
    (λ _, ret tt).

(** [startWorker] up to the timer that repeats the cleanup every ten
    minutes. *)
Definition startWorker : M unit :=
  cleanupInvalidTokensFromDatabase >> schedulePriceTrackingJobs.

End PollerStartup.

(** ** Notions used by the properties of the worker *)

(** Components that a change of the queue cannot change. *)
Definition blind_queue {A} (proj : World → A) : Prop :=
  ∀ rs js w, proj (with_queue rs js w) = proj w.

(** The ban key of the mint is set and live. *)
Definition banLive (mint : string) (w : World) : bool :=
  bool_decide (is_Some (present (redis_lookup w (invalidKey mint)))).

(** The mint has a latest-price row. *)
Definition tracked (mint : string) (w : World) : bool :=
  bool_decide (is_Some (tokenPrice w !! mint)).







(** The tracked world once the sample mint has a ban key, its rows
    still in the database. *)
Definition staleRows : World :=
  run (redis_setex (invalidKey sampleMint) 86400 (RText "true")) trackedWorld.

(** The Redis entry under a key, live or not. *)
Definition entry (key : string) (w : World) : option (RedisValue * option Z) :=
  redis w !! key.

(** The enrolments that [schedulePriceTrackingJobs] makes. *)
Definition scheduled (env : Env) (w : World) : list Step :=
  Enrol env <$> List.filter (λ m, negb (banLive m w)) (findTokenPrices w).*1.

(** ** socketService.ts: messages, unsubscription, disconnection and fan-out *)

(** The two unsubscription events.  They are not among the events of
    [SocketEvent] that the log [emitted] holds: the one that
    [unsubscribeFromToken] emits to its socket is its result. *)
Inductive UnsubscriptionEvent : Type :=
| EvUnsubscriptionStatus (mint status : string)
| EvUnsubscriptionSuccess (mint : string) (totalSubscriptions : Z).

(** [s.split(',')] *)
Fixpoint split_comma (s : string) : list string :=
  match s with
  | EmptyString => [EmptyString]
  | String c s' =>
      if Ascii.eqb c "," then EmptyString :: split_comma s'
      else
        match split_comma s' with
        | [] => [String c EmptyString]
        | part :: parts => String c part :: parts
        end
  end.

(** A string is a sequence of bytes, the UTF-8 encoding of the
    JavaScript string. *)
Definition bytes (s : string) : list ascii := list_ascii_of_string s.

(** The white space of [s.trim()], each code point in UTF-8: the
    WhiteSpace and LineTerminator code points of ECMAScript, which are
    U+0009 to U+000D, U+0020, U+00A0, U+1680, U+2000 to U+200A, U+2028,
    U+2029, U+202F, U+205F, U+3000 and U+FEFF. *)
Definition whiteSpace : list (list ascii) :=
  map (map ascii_of_N)
    [ [9]; [10]; [11]; [12]; [13]; [32]; [194; 160]; [225; 154; 128];
      [226; 128; 128]; [226; 128; 129]; [226; 128; 130]; [226; 128; 131];
      [226; 128; 132]; [226; 128; 133]; [226; 128; 134]; [226; 128; 135];
      [226; 128; 136]; [226; 128; 137]; [226; 128; 138];
      [226; 128; 168]; [226; 128; 169]; [226; 128; 175]; [226; 129; 159];
      [227; 128; 128]; [239; 187; 191] ]%N.

(** The bytes left once the leading code points among [spaces] are
    dropped; such a code point takes one, two or three bytes. *)
Fixpoint strip (spaces : list (list ascii)) (l : list ascii) : list ascii :=
  match l with
  | [] => []
  | a :: l1 =>
      if bool_decide ([a] ∈ spaces) then strip spaces l1 else
      match l1 with
      | [] => l
      | b :: l2 =>
          if bool_decide ([a; b] ∈ spaces) then strip spaces l2 else
          match l2 with
          | [] => l
          | c :: l3 => if bool_decide ([a; b; c] ∈ spaces) then strip spaces l3 else l
          end
      end
  end.

(** [s.trimStart()] *)
Definition trimStart (s : string) : string :=
  string_of_list_ascii (strip whiteSpace (bytes s)).

(** [s.trimEnd()]: the same from the last byte backwards. *)
Definition trimEnd (s : string) : string :=
  string_of_list_ascii
    (reverse (strip (reverse <$> whiteSpace) (reverse (bytes s)))).

(** [s.trim()] *)
Definition trim (s : string) : string := trimEnd (trimStart s).

(** A double quote inside a message *)
Definition dquote : string := String (ascii_of_nat 34) EmptyString.

Definition INVALID_FORMAT : string :=
  "Invalid message format. Use " +:+ dquote +:+ "tokenMint,subscribe" +:+ dquote
  +:+ " or " +:+ dquote +:+ "tokenMint,unsubscribe" +:+ dquote.

Section SocketMessages.
Context (env : Env).

Definition unsubscribeFromToken (socket mint : string) : M (option UnsubscriptionEvent) :=
  let* subscriptions := gets (λ w, socketSubscriptions w !! socket) in
  match subscriptions with
  | None => emit socket (EvError "Socket not properly initialized") >> ret None
  | Some subs =>
      if negb (bool_decide (mint ∈ subs)) then
        ret (Some (EvUnsubscriptionStatus mint "not_subscribed"))
      else
        leave socket mint >>
        let* remaining := gets (λ w, socketSubscriptions w !! socket) in
        ret (Some (EvUnsubscriptionSuccess mint
                     (Z.of_nat (size (default (∅ : gset string) remaining)))))
  end.

(** [handleSubscriptionMessage] on a string message; its result is the
    unsubscription event emitted, if any. *)
Definition handleSubscriptionMessage (socket message : string)
    : M (option UnsubscriptionEvent) :=
  try_catch
    (let parts := trim <$> split_comma message in
     match parts !! 0%nat, parts !! 1%nat with
     | Some tokenMint, Some action =>
         if bool_decide (tokenMint = "") || bool_decide (action = "") then
           emit socket (EvError INVALID_FORMAT) >> ret None
         else if String.eqb (Js.toLowerCase action) "subscribe" then
           subscribeToToken env socket tokenMint >> ret None
         else if String.eqb (Js.toLowerCase action) "unsubscribe" then
           unsubscribeFromToken socket tokenMint
         else
           emit socket
             (EvError ("Unknown action: " +:+ action +:+ ". Use " +:+ dquote
                       +:+ "subscribe" +:+ dquote +:+ " or " +:+ dquote
                       +:+ "unsubscribe" +:+ dquote)) >>
           ret None
     | _, _ => emit socket (EvError INVALID_FORMAT) >> ret None
     end)
    (λ _, emit socket (EvError "Failed to process subscription message") >> ret None).

(** [handleDisconnection]: the socket leaves the room of each of its
    subscriptions and its entry is deleted. *)
Definition handleDisconnection (socket : string) : M unit :=
  let* subscriptions := gets (λ w, socketSubscriptions w !! socket) in
  match subscriptions with
  | Some subs =>
      modify (λ w, with_hub (delete socket (socketSubscriptions w))
                            (rooms w ∖ set_map (λ mint, (socket, room mint)) subs)
                            (emitted w) w)
  | None => ret tt
  end.

(** The sockets in a room *)
Definition roomMembers (r : string) (w : World) : list string :=
  (List.filter (λ member, String.eqb member.2 r) (elements (rooms w))).*1.

(** [io.of('/ws').to(room).emit('price_update', payload)] *)
Definition broadcastPriceUpdate (priceData : TokenPriceData) : M unit :=
  modify (λ w, with_hub (socketSubscriptions w) (rooms w)
                 (emitted w ++
                    ((λ socket, (socket, EvPriceUpdate priceData))
                       <$> roomMembers (room (tokenMint priceData)) w))
                 w).

(** The handler of the Redis subscription, on a message that parses. *)
Definition onRedisMessage (channel : string) (data : TokenPriceData) : M unit :=
  if String.eqb channel "price_update" then broadcastPriceUpdate data else ret tt.

End SocketMessages.

(** ** Notions used by the properties of the hub *)

(** What the hub does, one event after the other. *)
Inductive HubStep : Type :=
| Message (env : Env) (socket message : string)
| Disconnect (socket : string)
| Published (channel : string) (data : TokenPriceData).

Definition hub_step (s : HubStep) (w : World) : World :=
  match s with
  | Message env socket message => run (handleSubscriptionMessage env socket message) w
  | Disconnect socket => run (handleDisconnection socket) w
  | Published channel data => run (onRedisMessage channel data) w
  end.

Definition hub_exec (steps : list HubStep) (w : World) : World :=
  fold_left (λ w s, hub_step s w) steps w.

(** The socket is connected and holds a subscription to the mint. *)
Definition subscribed (socket mint : string) (w : World) : Prop :=
  ∃ subs, socketSubscriptions w !! socket = Some subs ∧ mint ∈ subs.

(** The rooms are those of the subscriptions. *)
Definition hub_consistent (w : World) : Prop :=
  ∀ socket r, (socket, r) ∈ rooms w ↔ ∃ mint, r = room mint ∧ subscribed socket mint w.

(** The subscriptions and the rooms *)
Definition hub (w : World) : gmap string (gset string) * gset (string * string) :=
  (socketSubscriptions w, rooms w).

(** The hub with everything it has emitted *)
Definition hubLog (w : World) :=
  (socketSubscriptions w, rooms w, emitted w).

(** No comma *)
Definition commaFree (s : string) : bool :=
  forallb (λ c, negb (Ascii.eqb c ",")) (list_ascii_of_string s).

(** Only white space: a run of white-space code points. *)
Definition blank (s : string) : Prop :=
  ∃ chars, Forall (λ ws, ws ∈ whiteSpace) chars ∧ bytes s = concat chars.

(** No white space at either end: no white-space code point starts the
    string and none ends it. *)
Definition tight (s : string) : Prop :=
  Forall (λ ws, ¬ ws `prefix_of` bytes s ∧ ¬ ws `suffix_of` bytes s) whiteSpace.

(** A no-break space, U+00A0 *)
Definition nbsp : string := string_of_list_ascii (ascii_of_N <$> [194; 160]%N).

(** An em space, U+2003 *)
Definition emSpace : string := string_of_list_ascii (ascii_of_N <$> [226; 128; 131]%N).

(** The answer to an action that is neither of the two: an [error]
    event that quotes it. *)
Definition unknownAction (socket action : string) : M (option UnsubscriptionEvent) :=
  emit socket
    (EvError ("Unknown action: " +:+ action +:+ ". Use " +:+ dquote
              +:+ "subscribe" +:+ dquote +:+ " or " +:+ dquote
              +:+ "unsubscribe" +:+ dquote)) >>
  ret None.

(** The one socket of [hubWorld] asks for the sample mint. *)
Definition subscribeSteps : list HubStep :=
  [Message onlineEnv "socket-1" (sampleMint +:+ ",subscribe")].

(** A hub whose one socket holds a subscription to the sample mint. *)
Definition subscribedHub : World :=
  with_hub {[ "socket-1" := {[ sampleMint ]} ]} {[ ("socket-1", room sampleMint) ]} []
           (emptyWorld 0).

Definition sampleSnapshot : TokenPriceData :=
  {| tokenMint := sampleMint; priceUsd := 2; priceInSol := 1 # 100;
     marketCap := 1110000000; totalSupply := 555000000; timestamp := 1000 |}.

(** ** Notions used by the properties of the metrics *)

Definition rug_key (mint : string) : string := "rugcheck:" +:+ mint.

(** The cached risk report of the mint, when fresh. *)
Definition cachedRisk (mint : string) (w : World) : option (option RugCheckData) :=
  mbind (fresh_rug (now w)) (present (redis_lookup w (rug_key mint))).

(** The risk service answers 429. *)
Definition rateLimited (env : Env) (mint : string) : bool :=
  match rugCheckReport env mint with
  | RugHttpError status => negb (status =? 404) && (status =? 429)
  | _ => false
  end.

(** The report that the risk service answers with, if any. *)
Definition reportedRisk (env : Env) (mint : string) : option RugCheckData :=
  match rugCheckReport env mint with
  | RugOk d => d
  | _ => None
  end.

(** The validator accepts the mint. *)
Definition accepted (env : Env) (mint : string) (w : World) : Prop :=
  validates env mint w = true.

(** The validator accepts the mint, and the risk entry and the clock
    are those of [w0]. *)
Definition settled (env : Env) (mint : string) (w0 w : World) : Prop :=
  accepted env mint w ∧ entry (rug_key mint) w = entry (rug_key mint) w0 ∧ now w = now w0.

(** What the risk service is expected to hand to the metrics. *)
Definition riskAnswer (env : Env) (mint : string) (w : World)
    : outcome (option RugCheckData) :=
  match cachedRisk mint w with
  | Some hit => Returned hit
  | None =>
      if rateLimited env mint then Thrown "RugCheck API rate limit exceeded"
      else Returned (reportedRisk env mint)
  end.

(** An environment whose risk service is rate limited. *)
Definition throttledEnv : Env :=
  {| publicKeyOk := publicKeyOk onlineEnv;
     getAccountInfo := getAccountInfo onlineEnv;
     getTokenSupplyRpc := getTokenSupplyRpc onlineEnv;
     getTokenLargestAccountsRpc := λ _, Returned [];
     dexScreenerTokenPrice := dexScreenerTokenPrice onlineEnv;
     tokenPriceFromPool := tokenPriceFromPool onlineEnv;
     dexScreenerSolPrice := dexScreenerSolPrice onlineEnv;
     solPriceFromOnChain := solPriceFromOnChain onlineEnv;
     upsertFails := None;
     createFails := None;
     deleteHistoryFails := λ _, None;
     deleteTokenPriceFails := λ _, None;
     upsertStamp := λ t, t + 2;
     createStamp := λ t, t + 3;
     largestAccounts := largestAccounts onlineEnv;
     tokenMetadata := tokenMetadata onlineEnv;
     rugCheckReport := λ _, RugHttpError 429 |}.

(** A report with one risk of each level, and an environment whose
    risk service answers with it. *)
Definition sampleReport : RugCheckData :=
  {| rc_mint := sampleMint; rc_score_normalised := 35;
     rc_risks :=
       [ {| rk_name := "Mutable metadata"; rk_value := ""; rk_description := "";
            rk_score := 100; rk_level := warn |};
         {| rk_name := "Single holder ownership"; rk_value := "87%";
            rk_description := ""; rk_score := 8700; rk_level := danger |};
         {| rk_name := "Low liquidity"; rk_value := "$412"; rk_description := "";
            rk_score := 50; rk_level := info |} ];
     rc_rugged := false |}.

Definition ratedEnv : Env :=
  {| publicKeyOk := publicKeyOk onlineEnv;
     getAccountInfo := getAccountInfo onlineEnv;
     getTokenSupplyRpc := getTokenSupplyRpc onlineEnv;
     getTokenLargestAccountsRpc := λ _, Returned [];
     dexScreenerTokenPrice := dexScreenerTokenPrice onlineEnv;
     tokenPriceFromPool := tokenPriceFromPool onlineEnv;
     dexScreenerSolPrice := dexScreenerSolPrice onlineEnv;
     solPriceFromOnChain := solPriceFromOnChain onlineEnv;
     upsertFails := None;
     createFails := None;
     deleteHistoryFails := λ _, None;
     deleteTokenPriceFails := λ _, None;
     upsertStamp := λ t, t + 2;
     createStamp := λ t, t + 3;
     largestAccounts := largestAccounts onlineEnv;
     tokenMetadata := tokenMetadata onlineEnv;
     rugCheckReport := λ _, RugOk (Some sampleReport) |}.

(** * Properties *)

(** ** Reasoning about computations *)

Section Preserves.
Context (P : World → Prop).

Lemma preserves_ret {A} (a : A) : preserves P (ret a).
Proof. by intros w. Qed.
Lemma preserves_throw {A} e : preserves P (@throw A e).
Proof. by intros w. Qed.
Lemma preserves_call {A} (o : outcome A) : preserves P (call o).
Proof. by intros w. Qed.
Lemma preserves_gets {A} (f : World → A) : preserves P (gets f).
Proof. by intros w. Qed.
Lemma preserves_modify f : (∀ w, P w → P (f w)) → preserves P (modify f).
Proof. intros H w. apply H. Qed.
Lemma preserves_bind {A B} (m : M A) (k : A → M B) :
  preserves P m → (∀ a, preserves P (k a)) → preserves P (bind m k).
Proof.
  intros Hm Hk w Hw. specialize (Hm w Hw). unfold run, bind in *.
  destruct (m w) as [[a|e] w']; simpl in *; [by apply Hk | done].
Qed.
Lemma preserves_try_catch {A} (m : M A) (h : string → M A) :
  preserves P m → (∀ e, preserves P (h e)) → preserves P (try_catch m h).
Proof.
  intros Hm Hh w Hw. specialize (Hm w Hw). unfold run, try_catch in *.
  destruct (m w) as [[a|e] w']; simpl in *; [done | by apply Hh].
Qed.
Lemma preserves_transaction {A} (m : M A) :
  (∀ w tp ph s, P w → P (with_db tp ph s w)) →
  preserves P m → preserves P (transaction m).
Proof.
  intros Hdb Hm w Hw. specialize (Hm w Hw). unfold run, transaction in *.
  destruct (m w) as [[a|e] w']; simpl in *; [done | by apply Hdb].
Qed.
Lemma preserves_failing f m : preserves P m → preserves P (failing f m).
Proof. intros Hm. destruct f; [apply preserves_throw | done]. Qed.
End Preserves.

Lemma run_bind_returned {A B} (m : M A) (k : A → M B) w a w' :
  m w = (Returned a, w') → bind m k w = k a w'.
Proof. unfold bind. by intros ->. Qed.

Lemma run_try_catch_ret {A} (m : M A) (h : string → A) w :
  run (try_catch m (λ e, ret (h e))) w = run m w.
Proof. unfold run, try_catch. by destruct (m w) as [[?|?] ?]. Qed.

Create HintDb pres discriminated.

Ltac pres_step :=
  first
  [ solve [eauto 2 with pres]
  | lazymatch goal with
    | |- preserves _ (bind _ _) => apply preserves_bind; [|intros ?]
    | |- preserves _ (try_catch _ _) => apply preserves_try_catch; [|intros ?]
    | |- preserves _ (transaction _) =>
        apply preserves_transaction;
        [ let Hk := fresh in
          intros ? ? ? ? Hk;
          first [exact Hk | unfold keeps in *; rewrite <- Hk; solve [auto]] |]
    | |- preserves _ (failing _ _) => apply preserves_failing
    | |- preserves _ (ret _) => apply preserves_ret
    | |- preserves _ (throw _) => apply preserves_throw
    | |- preserves _ (call _) => apply preserves_call
    | |- preserves _ (gets _) => apply preserves_gets
    | |- preserves _ (redis_get _) => apply preserves_gets
    | |- preserves _ (redis_keys _) => apply preserves_gets
    | |- preserves _ (match ?x with _ => _ end) => destruct x
    | |- preserves _ (let _ := _ in _) => cbv zeta
    end ].
Ltac pres := repeat pres_step.

(** ** Computations that leave a component of the world alone *)

Lemma keeps_modify {A} (proj : World → A) x f :
  (∀ w, proj (f w) = proj w) → preserves (keeps proj x) (modify f).
Proof. intros H. apply preserves_modify. unfold keeps. intros w <-. apply H. Qed.

Ltac keeps_prim := apply keeps_modify; intros; first [reflexivity | solve [auto]].

#[local] Hint Extern 1 (preserves (keeps _ _) (modify _)) => keeps_prim : pres.
#[local] Hint Extern 1 (preserves (keeps _ _) (redis_setex _ _ _)) => keeps_prim : pres.
#[local] Hint Extern 1 (preserves (keeps _ _) (redis_del _)) => keeps_prim : pres.

Section BlindToCache.
Context {A : Type} (proj : World → A) (x : A).
Context (Hcache : blind_cache proj).

Let Hredis := proj1 Hcache.
Let Hsol := proj2 Hcache.

Lemma validateTokenMint_keeps env mint :
  preserves (keeps proj x) (validateTokenMint env mint).
Proof.
  pose proof Hredis. unfold validateTokenMint, validateOnChain, validateSupply. pres.
Qed.

Lemma validationGate_keeps env mint :
  preserves (keeps proj x) (validationGate env mint).
Proof.
  pose proof Hredis. pose proof validateTokenMint_keeps. unfold validationGate. pres.
Qed.

Lemma cleanup_cache_keeps keys : preserves (keeps proj x) (cleanup_cache keys).
Proof. pose proof Hredis. induction keys; simpl; pres. Qed.

Lemma getTokenPrice_keeps env mint :
  preserves (keeps proj x) (getTokenPrice env mint).
Proof.
  pose proof Hredis. pose proof Hsol. pose proof validateTokenMint_keeps.
  unfold getTokenPrice, getTokenSupply, getTokenPriceInSolOptimized, getSolPriceUsd,
    tryDexScreener, tryPool, trySolFromDexScreener, remember_sol_price, cache_price.
  pres.
Qed.

Context (Hstore : blind_store proj).

Let Hdb := proj1 Hstore.
Let Hpub := proj2 Hstore.

Lemma cleanupInvalidToken_keeps env mint :
  preserves (keeps proj x) (cleanupInvalidToken env mint).
Proof.
  pose proof Hdb. pose proof cleanup_cache_keeps.
  unfold cleanupInvalidToken, purge_rows, db_deleteHistory, db_deleteTokenPrice. pres.
Qed.

Lemma updateTokenPrice_keeps env mint :
  preserves (keeps proj x) (updateTokenPrice env mint).
Proof.
  pose proof Hdb. pose proof Hpub. pose proof validateTokenMint_keeps.
  pose proof getTokenPrice_keeps. pose proof cleanupInvalidToken_keeps.
  unfold updateTokenPrice, db_upsertTokenPrice, db_createHistory, publish. pres.
Qed.

End BlindToCache.

Lemma repeatable_blind_cache : blind_cache repeatable.
Proof. by split. Qed.
Lemma repeatable_blind_store : blind_store repeatable.
Proof. by split. Qed.
Lemma now_blind_cache : blind_cache now.
Proof. by split. Qed.
Lemma now_blind_store : blind_store now.
Proof. by split. Qed.

#[local] Hint Resolve repeatable_blind_cache repeatable_blind_store
  now_blind_cache now_blind_store : pres.
#[local] Hint Resolve validateTokenMint_keeps validationGate_keeps cleanup_cache_keeps
  getTokenPrice_keeps cleanupInvalidToken_keeps updateTokenPrice_keeps : pres.

(** ** The score of a pair *)

Lemma iverson_true b : b = true → iverson b = 1%Q.
Proof. by intros ->. Qed.

Lemma turnover_guard (liq vol : Q) :
  Qgtb (if Qpositive liq then (vol / liq)%Q else 0%Q) (1 # 10)
  = Qpositive liq && Qgtb (vol / liq)%Q (1 # 10).
Proof. by destruct (Qpositive liq). Qed.

(** C8 (counterexample): a Meteora pair with 1000 USD of liquidity
    and no trading scores 300 in the code, while the formula of the
    claim, whose established set contains meteora, gives 50300. *)
Lemma pair_score_spec_counterexample :
  ¬ (calculatePairScore meteoraPair == specScore meteoraPair)%Q.
Proof. intros H. vm_compute in H. discriminate H. Qed.

(** C8 (amended): the score is
    0.3·liquidity + 0.4·volume24h + 0.3·(200·txnCount24h)
    + 50000·[venue id contains raydium, orca or jupiter]
    − deduction + 15000·[liquidity > 0 and volume/liquidity > 0.1]
    + 5000·[txnCount24h > 50], where the deduction is 10000 for a
    launch-like pair with volume24h > 100000, 100000 for any other
    launch-like pair, and 0 otherwise. *)
Theorem pair_score_formula (pair : DexScreenerPair) :
  (calculatePairScore pair ==
     (3 # 10) * default 0 (liquidityUsd pair)
     + (4 # 10) * default 0 (volume24h pair)
     + (3 # 10) * (200 * inject_Z (txnCount24h pair))
     + 50000 * iverson (venueIn ["raydium"; "orca"; "jupiter"] pair)
     - launchDeduction pair
     + 15000 * iverson (Qpositive (default 0 (liquidityUsd pair)) && turnoverAbove pair)
     + 5000 * iverson (50 <? txnCount24h pair))%Q.
Proof.
  unfold calculatePairScore, launchDeduction, venueIn, turnoverAbove, txnCount24h,
    scoreEstablishedDexes.
  rewrite turnover_guard.
  destruct (Js.includesAny _ _), (isLaunchLike pair),
    (Qgtb (default 0%Q (volume24h pair)) 100000),
    (Qpositive _ && Qgtb _ _), (50 <? _); unfold iverson; ring.
Qed.

(** In the code the launch-pad term lowers the score: with the sign
    of the claim's formula it would raise it. *)
Lemma launch_pair_scores_lower :
  let pump := {| dexId := "pumpfun"; pairAddress := "x"; liquidityUsd := None;
                 volume24h := None; txnsBuys := None; txnsSells := None |} in
  (calculatePairScore pump == -100000)%Q ∧ (specScore pump == 100000)%Q.
Proof. split; vm_compute; reflexivity. Qed.

(** ** The metrics computation and its window *)

Lemma parseWindow_text (window : Window) :
  parseWindow (Some (windowText window)) = Returned window.
Proof. by destruct window. Qed.

(** C10: two runs of the comprehensive-metrics computation on the
    same mint, external state and world that differ only in the window
    give the same answer and leave the same world; so do two requests
    to the metrics route that differ only in their window parameter. *)
Theorem metrics_ignore_window (env : Env) (mint : string) (window1 window2 : Window)
    (w : World) :
  getTokenMetrics env mint window1 w = getTokenMetrics env mint window2 w ∧
  getTokenMetricsHandler env (Some mint) (Some (windowText window1)) w
  = getTokenMetricsHandler env (Some mint) (Some (windowText window2)) w.
Proof.
  split; [reflexivity|].
  unfold getTokenMetricsHandler. destruct (bool_decide (mint = "")); [reflexivity|].
  unfold try_catch, bind at 1 3, call. by rewrite !parseWindow_text.
Qed.

(** ** The history query *)

Lemma elem_of_filter_bool {A} (f : A → bool) l x :
  x ∈ List.filter f l ↔ x ∈ l ∧ f x = true.
Proof. rewrite !list_elem_of_In. apply filter_In. Qed.

#[local] Instance earlier_trans : Transitive earlier.
Proof. intros a b c. unfold earlier. lia. Qed.

#[local] Instance earlier_total : Total earlier.
Proof. intros a b. unfold earlier. lia. Qed.


Section FindHistory.
Context (mint : string) (start : Z) (cap : nat) (table : list PriceHistoryRow).









End FindHistory.





(** ** The native-price dispatch *)

(** C7 (counterexample): with nothing cached, no pair from the
    aggregator and no pool, the dispatch does not fail: it returns the
    price 0. *)
Lemma native_price_all_fail_counterexample :
  cachedPrice sampleMint (emptyWorld 0) = None ∧
  aggregatorPrice offlineEnv sampleMint = None ∧
  poolPrice offlineEnv sampleMint = None ∧
  result (getTokenPriceInSolOptimized offlineEnv sampleMint) (emptyWorld 0)
  = Returned 0%Q.
Proof. by vm_compute. Qed.

(** C7 (amended): the dispatch returns 1 for the native mint;
    otherwise a cached price younger than 5 s; otherwise the
    aggregator's priceNative when it is greater than 0; otherwise the
    pool price when it is greater than 0; and when every source fails
    it returns 0 and raises no error. *)
Theorem native_price_dispatch (env : Env) (mint : string) (w : World) :
  result (getTokenPriceInSolOptimized env mint) w
  = Returned
      (if String.eqb mint SOL_MINT then 1%Q
       else match cachedPrice mint w with
            | Some price => price
            | None =>
                match aggregatorPrice env mint with
                | Some price => price
                | None => default 0%Q (poolPrice env mint)
                end
            end).
Proof.
  unfold result, getTokenPriceInSolOptimized, try_catch, cachedPrice.
  destruct (String.eqb mint SOL_MINT); [done|].
  unfold bind at 1 2. simpl.
  destruct (mbind _ _) as [price|]; [done|].
  unfold bind, tryDexScreener, tryPool, aggregatorPrice, poolPrice, try_catch, call,
    cache_price, bind, gets, redis_setex, modify, ret, throw.
  destruct (dexScreenerTokenPrice env mint) as [[r|]|]; simpl.
  - destruct (Qpositive (br_priceInSol r)); simpl; [done|].
    destruct (tokenPriceFromPool env mint) as [p|]; simpl; [|done].
    by destruct (Qpositive p).
  - destruct (tokenPriceFromPool env mint) as [p|]; simpl; [|done].
    by destruct (Qpositive p).
  - destruct (tokenPriceFromPool env mint) as [p|]; simpl; [|done].
    by destruct (Qpositive p).
Qed.

(** ** The repeatable jobs of the queue *)

Lemma jobId_eqb a b : String.eqb (jobId a) (jobId b) = String.eqb a b.
Proof.
  destruct (String.eqb_spec a b) as [->|Hne].
  - apply String.eqb_refl.
  - apply String.eqb_neq. intros H. apply Hne. unfold jobId in H. by simplify_eq/=.
Qed.

Lemma jobId_not_empty mint : jobId mint ≠ "".
Proof. unfold jobId. intros H. by simplify_eq/=. Qed.

Lemma with_queue_same w : with_queue (repeatable w) (jobs w) w = w.
Proof. by destruct w. Qed.

Lemma filter_nothing {A} (f : A → bool) l : Forall (λ x, f x = false) l → List.filter f l = [].
Proof. induction 1 as [|x l Hx _ IH]; [done|]. cbn [List.filter]. by rewrite Hx. Qed.

Lemma filter_everything {A} (f : A → bool) l :
  Forall (λ x, f x = true) l → List.filter f l = l.
Proof. induction 1 as [|x l Hx _ IH]; [done|]. cbn [List.filter]. by rewrite Hx, IH. Qed.

Lemma sameKey_keyed name every r : rj_id r ≠ "" → sameKey name "" every r = false.
Proof.
  intros Hid. unfold sameKey. destruct (String.eqb_spec (rj_id r) ""); [done|].
  by rewrite andb_false_r.
Qed.

(** The call of the worker removes nothing from a queue whose jobs
    were all added under a job id. *)
Lemma queue_removeRepeatable_keyed name every w :
  keyed w → queue_removeRepeatable name every w = (Returned tt, w).
Proof.
  intros Hkeyed. unfold queue_removeRepeatable, modify. f_equal.
  assert (Forall (λ r, sameKey name "" every r = false) (repeatable w)) as Hnone.
  { eapply Forall_impl; [exact Hkeyed|]. intros r. apply sameKey_keyed. }
  rewrite (filter_nothing _ _ Hnone). cbn [fmap list_fmap].
  rewrite filter_everything, filter_everything; [apply with_queue_same| |].
  - apply Forall_forall. intros j _. rewrite bool_decide_eq_false_2, andb_false_r; [done|].
    apply not_elem_of_nil.
  - eapply Forall_impl; [exact Hnone|]. intros r ->. done.
Qed.

Lemma removeRepeatables_keyed jid rs w :
  keyed w → removeRepeatables jid rs w = (Returned tt, w).
Proof.
  intros Hkeyed. induction rs as [|r rs IH]; [done|]. cbn [removeRepeatables].
  destruct (String.eqb (rj_name r) jid || String.eqb (rj_id r) jid).
  - by rewrite (run_bind_returned _ _ _ _ _ (queue_removeRepeatable_keyed _ _ w Hkeyed)).
  - exact IH.
Qed.

Lemma removeInstances_queue mint js rs : preserves (keeps repeatable rs) (removeInstances mint js).
Proof. induction js; simpl; unfold job_remove; pres. Qed.
#[local] Hint Resolve removeInstances_queue : pres.

Lemma removeFromStates_queue mint sts rs : preserves (keeps repeatable rs) (removeFromStates mint sts).
Proof. induction sts; simpl; unfold queue_getJobs; pres. Qed.
#[local] Hint Resolve removeFromStates_queue : pres.

(** An obliteration removes no repeatable job that was added under a
    job id. *)
Lemma obliterate_repeatable mint w :
  keyed w → repeatable (run (obliterateTokenJobs mint) w) = repeatable w.
Proof.
  intros Hkeyed. unfold obliterateTokenJobs.
  rewrite (run_try_catch_ret _ (λ _, tt)).
  unfold run, queue_getRepeatableJobs.
  rewrite (run_bind_returned _ _ w (repeatable w) w) by done.
  rewrite (run_bind_returned _ _ _ _ _ (removeRepeatables_keyed _ _ w Hkeyed)).
  apply (preserves_bind (keeps repeatable (repeatable w))); [pres| |done].
  intros []. pres.
Qed.

Lemma run_bind {A B} (m : M A) (k : A → M B) w :
  run (bind m k) w
  = match result m w with
    | Returned a => run (k a) (run m w)
    | Thrown _ => run m w
    end.
Proof. unfold run, result, bind. by destruct (m w) as [[?|?] ?]. Qed.

Lemma run_try_catch {A} (m : M A) (h : string → M A) w :
  run (try_catch m h) w
  = match result m w with
    | Returned _ => run m w
    | Thrown e => run (h e) (run m w)
    end.
Proof. unfold run, result, try_catch. by destruct (m w) as [[?|?] ?]. Qed.

(** *** Queues built by enrolments *)

Lemma enrolment_named mint e :
  String.eqb (rj_name (enrolment e)) (jobId mint) = String.eqb e.1 mint.
Proof. apply jobId_eqb. Qed.

Lemma enrolment_key mint e :
  sameKey (jobId mint) (jobId mint) PRICE_POLL_INTERVAL (enrolment e) = String.eqb e.1 mint.
Proof.
  unfold sameKey. cbn [enrolment enrolled rj_name rj_id rj_every].
  by rewrite jobId_eqb, Z.eqb_refl, andb_diag, andb_true_r.
Qed.

Lemma queue_wf_keyed w : queue_wf w → keyed w.
Proof.
  intros (entries & _ & Hrs). unfold keyed. rewrite Hrs. apply Forall_fmap, Forall_forall.
  intros e _. apply jobId_not_empty.
Qed.

Lemma filter_absent mint (ms : list string) :
  mint ∉ ms → List.filter (λ m, String.eqb m mint) ms = [].
Proof.
  induction ms as [|m ms IH]; [done|]. rewrite not_elem_of_cons. intros [Hne Hnot].
  cbn [List.filter]. destruct (String.eqb_spec m mint); [congruence|]. by apply IH.
Qed.

Lemma count_enrolled mint entries :
  List.filter (λ r, String.eqb (rj_name r) (jobId mint)) (enrolment <$> entries)
  = enrolment <$> List.filter (λ e, String.eqb e.1 mint) entries.
Proof.
  induction entries as [|e entries IH]; [done|].
  rewrite fmap_cons. cbn [List.filter]. rewrite enrolment_named.
  destruct (e.1 =? mint)%string; rewrite ?fmap_cons; by rewrite IH.
Qed.

Lemma count_named mint (entries : list (string * Z)) :
  NoDup entries.*1 →
  length (List.filter (λ e, String.eqb e.1 mint) entries)
  = if bool_decide (mint ∈ entries.*1) then 1%nat else 0%nat.
Proof.
  induction entries as [|e entries IH]; [done|].
  rewrite fmap_cons, NoDup_cons. intros [Hnot Hnd]. cbn [List.filter].
  destruct (String.eqb_spec e.1 mint) as [<-|Hne].
  - rewrite bool_decide_eq_true_2 by (apply elem_of_cons; by left).
    cbn [length]. rewrite (IH Hnd), bool_decide_eq_false_2; done.
  - rewrite (IH Hnd).
    assert (bool_decide (mint ∈ e.1 :: entries.*1) = bool_decide (mint ∈ entries.*1)) as ->;
      [|done].
    apply bool_decide_ext. rewrite elem_of_cons. split; [|by right].
    by intros [?|?]; [congruence|].
Qed.

(** The repeating jobs of a mint in a queue built by enrolments: one
    if the mint is enrolled, none otherwise. *)
Lemma repeatingJobs_entries mint w entries :
  NoDup entries.*1 → repeatable w = enrolment <$> entries →
  repeatingJobs mint w = if bool_decide (mint ∈ entries.*1) then 1%nat else 0%nat.
Proof.
  intros Hnd Hrs. unfold repeatingJobs.
  by rewrite Hrs, count_enrolled, length_fmap, count_named.
Qed.

Lemma queue_wf_at_most_one mint w : queue_wf w → (repeatingJobs mint w ≤ 1)%nat.
Proof.
  intros (entries & Hnd & Hrs). rewrite (repeatingJobs_entries mint w entries Hnd Hrs).
  case_bool_decide; lia.
Qed.

Lemma reschedule_mints mint next entries :
  (reschedule mint next entries).*1
  = if bool_decide (mint ∈ entries.*1) then entries.*1 else (entries.*1 ++ [mint])%list.
Proof.
  unfold reschedule. case_bool_decide.
  - rewrite <- list_fmap_compose. apply list_fmap_ext. intros _ e _. cbn.
    by destruct (e.1 =? mint)%string.
  - by rewrite fmap_app.
Qed.

Lemma reschedule_NoDup mint next entries :
  NoDup entries.*1 → NoDup (reschedule mint next entries).*1.
Proof.
  intros Hnd. rewrite reschedule_mints. case_bool_decide; [done|].
  apply NoDup_app. split_and!; [done| |apply NoDup_singleton].
  intros m Hm Hin. apply list_elem_of_singleton in Hin as ->. done.
Qed.

Lemma reschedule_enrolled mint next entries : mint ∈ (reschedule mint next entries).*1.
Proof.
  rewrite reschedule_mints. case_bool_decide; [done|].
  apply elem_of_app. right. apply list_elem_of_singleton. done.
Qed.

Lemma reschedule_others mint next entries m :
  m ≠ mint → m ∈ (reschedule mint next entries).*1 ↔ m ∈ entries.*1.
Proof.
  intros Hne. rewrite reschedule_mints. case_bool_decide; [done|].
  rewrite elem_of_app, list_elem_of_singleton. split; [|by left].
  by intros [?|?].
Qed.

Lemma existsb_enrolled mint entries :
  existsb (sameKey (jobId mint) (jobId mint) PRICE_POLL_INTERVAL) (enrolment <$> entries)
  = bool_decide (mint ∈ entries.*1).
Proof.
  induction entries as [|e entries IH]; [done|].
  rewrite !fmap_cons. cbn [existsb]. rewrite enrolment_key, IH.
  destruct (String.eqb_spec e.1 mint) as [<-|Hne].
  - symmetry. apply bool_decide_eq_true_2, elem_of_cons. by left.
  - cbn [orb]. apply bool_decide_ext. rewrite elem_of_cons. split; [by right|].
    by intros [?|?]; [congruence|].
Qed.

Lemma queue_add_repeatable mint w entries :
  repeatable w = enrolment <$> entries →
  repeatable (run (queue_add (jobId mint) mint PRICE_POLL_INTERVAL) w)
  = enrolment <$> reschedule mint (nextRun PRICE_POLL_INTERVAL (now w)) entries.
Proof.
  intros Hrs. unfold run, queue_add, modify, reschedule. cbn [snd repeatable with_queue].
  rewrite Hrs, existsb_enrolled. case_bool_decide.
  - rewrite <- !list_fmap_compose. apply list_fmap_ext. intros _ e _. cbn [compose].
    rewrite enrolment_key. by destruct (e.1 =? mint)%string.
  - by rewrite fmap_app.
Qed.

Lemma result_try_catch_unit (m : M unit) w :
  result (try_catch m (λ _, ret tt)) w = Returned tt.
Proof. unfold result, try_catch. by destruct (m w) as [[[]|?] ?]. Qed.

Lemma validateOnChain_pure env mint w : ∃ r, validateOnChain env mint w = (Returned r, w).
Proof.
  unfold validateOnChain, validateSupply, try_catch, bind, call, ret, throw.
  repeat (case_match; simplify_eq/=); eauto.
Qed.

Lemma validateTokenMint_run env mint w :
  ∃ r w', validateTokenMint env mint w = (Returned r, w') ∧
    (w' = w ∨
     w' = with_redis (<[validation_key mint :=
                          (RVerdict r, Some (now w + VALIDATION_CACHE_TTL * 1000))]> (redis w)) w).
Proof.
  unfold validateTokenMint, try_catch.
  destruct (String.eqb mint SOL_MINT); [by eexists _, _; split; [|left]|].
  destruct (negb (isValid (validateAddressFormat env mint)));
    [by eexists _, _; split; [|left]|].
  unfold bind at 1. unfold redis_get, gets.
  destruct (present (redis_lookup w (validation_key mint)));
    [by eexists _, _; split; [|left]|].
  destruct (validateOnChain_pure env mint w) as [r Hr].
  unfold bind, redis_setex, modify, ret. rewrite Hr.
  by eexists _, _; split; [|right].
Qed.

Lemma redis_lookup_insert_ne w k k' x :
  k ≠ k' → redis_lookup (with_redis (<[k := x]> (redis w)) w) k' = redis_lookup w k'.
Proof. intros Hne. unfold redis_lookup. simpl. by rewrite lookup_insert_ne. Qed.

Lemma head_mismatch c p d s : c ≠ d → String c p ≠ String d s.
Proof. congruence. Qed.

Lemma validateTokenMint_ban_lookup env mint m w :
  redis_lookup (run (validateTokenMint env mint) w) (invalidKey m)
  = redis_lookup w (invalidKey m).
Proof.
  unfold run. destruct (validateTokenMint_run env mint w) as (r & w' & -> & [-> | ->]); [done|].
  simpl. apply redis_lookup_insert_ne. by apply head_mismatch.
Qed.

Lemma passes_valid env mint w :
  validates env mint w = true →
  redis_lookup w (invalidKey mint) = None →
  passes env mint w = true.
Proof.
  intros Hvalid Hban. unfold passes, validationGate, try_catch, bind.
  pose proof (validateTokenMint_ban_lookup env mint mint w) as Hl.
  unfold validates, result in Hvalid. unfold run in Hl.
  destruct (validateTokenMint_run env mint w) as (r & w' & E & _).
  rewrite E in *. simpl in *. rewrite Hvalid. simpl. by rewrite Hl, Hban.
Qed.

Lemma obliterate_result mint w : result (obliterateTokenJobs mint) w = Returned tt.
Proof. apply result_try_catch_unit. Qed.

(** An enrolment that is refused leaves the queue alone; one that is
    accepted leaves the entries with the mint enrolled. *)
Lemma addTokenForTracking_queue env mint w entries :
  repeatable w = enrolment <$> entries →
  ∃ next,
    repeatable (run (addTokenForTracking env mint) w)
    = enrolment <$> (if passes env mint w then reschedule mint next entries else entries).
Proof.
  intros Hrs. unfold addTokenForTracking, passes.
  pose proof (validationGate_keeps repeatable _ repeatable_blind_cache env mint w Hrs) as Hq.
  rewrite run_bind. unfold run, result in *.
  destruct (validationGate env mint w) as [[[]|e] w1]; simpl in *; [|by exists 0..].
  unfold bind at 1. unfold redis_get, gets.
  destruct (present (redis_lookup w1 (invalidKey mint))); [by exists 0|].
  assert (keyed w1) as Hkeyed.
  { unfold keyed. rewrite Hq. apply Forall_fmap, Forall_forall.
    intros e _. apply jobId_not_empty. }
  pose proof (obliterate_repeatable mint w1 Hkeyed) as Ho.
  pose proof (obliterate_result mint w1) as Hr.
  unfold run, result in Ho, Hr. unfold bind.
  destruct (obliterateTokenJobs mint w1) as [[[]|?] w2]; simpl in *; [|done].
  exists (nextRun PRICE_POLL_INTERVAL (now w2)).
  apply (queue_add_repeatable mint w2 entries). by rewrite Ho.
Qed.

Lemma addTokenForTracking_wf env mint : preserves queue_wf (addTokenForTracking env mint).
Proof.
  intros w (entries & Hnd & Hrs).
  destruct (addTokenForTracking_queue env mint w entries Hrs) as [next Hq].
  exists (if passes env mint w then reschedule mint next entries else entries). split.
  - destruct (passes env mint w); [|done]. by apply reschedule_NoDup.
  - exact Hq.
Qed.
#[local] Hint Resolve addTokenForTracking_wf : pres.

Lemma preserves_queue_wf {A} (m : M A) :
  (∀ rs, preserves (keeps repeatable rs) m) → preserves queue_wf m.
Proof.
  intros H w (entries & Hnd & Hrs). exists entries. split; [done|]. by apply (H _ w).
Qed.

Lemma obliterate_wf mint w : queue_wf w → queue_wf (run (obliterateTokenJobs mint) w).
Proof.
  intros Hw. pose proof (obliterate_repeatable mint w (queue_wf_keyed w Hw)) as Ho.
  destruct Hw as (entries & Hnd & Hrs). exists entries. split; [done|]. by rewrite Ho.
Qed.

Lemma obliterate_pres_wf mint : preserves queue_wf (obliterateTokenJobs mint).
Proof. intros w. apply obliterate_wf. Qed.
#[local] Hint Resolve obliterate_pres_wf : pres.

#[local] Hint Extern 5 (preserves queue_wf _) =>
  (apply preserves_queue_wf; intros ?; solve [pres]) : pres.

Lemma removeTokenFromTracking_wf env mint : preserves queue_wf (removeTokenFromTracking env mint).
Proof. unfold removeTokenFromTracking, db_deleteHistory, db_deleteTokenPrice. pres. Qed.
#[local] Hint Resolve removeTokenFromTracking_wf : pres.

Lemma worker_wf env mint : preserves queue_wf (worker env mint).
Proof. unfold worker, inc. pres. Qed.

Lemma step_wf s w : queue_wf w → queue_wf (step s w).
Proof.
  destruct s; simpl.
  - apply addTokenForTracking_wf.
  - apply removeTokenFromTracking_wf.
  - apply worker_wf.
  - done.
Qed.

Lemma exec_wf steps : ∀ w, queue_wf w → queue_wf (exec steps w).
Proof.
  induction steps as [|s steps IH]; intros w Hw; [done|].
  simpl. apply IH. by apply step_wf.
Qed.

Lemma emptyWorld_wf t : queue_wf (emptyWorld t).
Proof. exists []. split; [apply NoDup_nil_2 | done]. Defined.

(** From a queue built by enrolments, whatever the scheduler does,
    there is at most one repeating job of a mint; an enrolment that is
    accepted leaves exactly one. *)
Lemma exec_at_most_one steps w mint :
  queue_wf w → (repeatingJobs mint (exec steps w) ≤ 1)%nat.
Proof. intros Hw. apply queue_wf_at_most_one. by apply exec_wf. Qed.

Lemma accepted_enrolment_count env mint w :
  queue_wf w → passes env mint w = true →
  repeatingJobs mint (step (Enrol env mint) w) = 1%nat.
Proof.
  intros (entries & Hnd & Hrs) Hpass. cbn [step].
  destruct (addTokenForTracking_queue env mint w entries Hrs) as [next Hq].
  rewrite Hpass in Hq.
  rewrite (repeatingJobs_entries mint _ _ (reschedule_NoDup mint next entries Hnd) Hq).
  by rewrite bool_decide_eq_true_2 by apply reschedule_enrolled.
Qed.

(** C3 (the code at a failing input): the sample mint has been
    enrolled once.  The obliteration with which the next enrolment
    starts removes the delayed instance of the job but not its
    repeatable entry, whose key carries the job id that the call of
    removeRepeatable leaves out; the enrolment then adds a key that the
    queue holds already, which is why one repeating job is left; and a
    ban leaves that repeating job in the queue as well. *)
Lemma obliterate_keeps_repeating_job :
  repeatable onceEnrolled = [enrolled sampleMint 1000]
  ∧ repeatable (run (obliterateTokenJobs sampleMint) onceEnrolled)
    = [enrolled sampleMint 1000]
  ∧ jobs (run (obliterateTokenJobs sampleMint) onceEnrolled) = []
  ∧ repeatingJobs sampleMint (step (Enrol onlineEnv sampleMint) onceEnrolled) = 1%nat
  ∧ repeatingJobs sampleMint (step (BanAndRemove goneEnv sampleMint) onceEnrolled) = 1%nat.
Proof. by vm_compute. Qed.

(** ** Persist, then publish *)

Lemma store_blind_cache : blind_cache store.
Proof. by split. Qed.

Lemma result_try_catch_ret {A} (m : M A) (h : string → A) w :
  ∃ a, result (try_catch m (λ e, ret (h e))) w = Returned a.
Proof. unfold result, try_catch. destruct (m w) as [[?|?] ?]; eauto. Qed.

Lemma validateTokenMint_result env mint w :
  ∃ r, result (validateTokenMint env mint) w = Returned r.
Proof.
  destruct (validateTokenMint_run env mint w) as (r & w' & E & _).
  exists r. unfold result. by rewrite E.
Qed.

Lemma getTokenPrice_mint env mint w d :
  result (getTokenPrice env mint) w = Returned d → tokenMint d = mint.
Proof.
  unfold result, getTokenPrice, bind, gets, ret, throw.
  repeat case_match; simpl; intros; by simplify_eq.
Qed.

Lemma purge_rows_cases env mint w :
  (deleteFails env mint = None ∧
   purge_rows env mint w
   = (Returned tt,
      with_db (delete mint (tokenPrice w)) (purgedHistory mint (priceHistory w))
              (historySeq w) w))
  ∨ ((∃ e, deleteFails env mint = Some e) ∧
     purge_rows env mint w
     = (Thrown (default "" (deleteFails env mint)),
        with_db (tokenPrice w) (priceHistory w) (historySeq w) w)).
Proof.
  unfold purge_rows, db_deleteHistory, db_deleteTokenPrice, transaction, bind, failing,
    deleteFails.
  destruct (deleteHistoryFails env mint) as [message|]; simpl;
    [right; split; [by eexists|done]|].
  destruct (deleteTokenPriceFails env mint) as [message|]; simpl;
    [right; split; [by eexists|done] | by left].
Qed.

(** The purge and cache cleanup for an invalid mint: nothing is
    published, and the rows of the mint are deleted together, or kept
    together when the deletion fails. *)
Lemma cleanupInvalidToken_store env mint w :
  let w' := run (cleanupInvalidToken env mint) w in
  published w' = published w ∧ now w' = now w ∧
  match deleteFails env mint with
  | None => tokenPrice w' = delete mint (tokenPrice w) ∧
            priceHistory w' = purgedHistory mint (priceHistory w)
  | Some _ => tokenPrice w' = tokenPrice w ∧ priceHistory w' = priceHistory w
  end.
Proof.
  unfold cleanupInvalidToken. rewrite (run_try_catch_ret _ (λ _, tt)), run_bind.
  destruct (purge_rows_cases env mint w) as [[Hnone E] | [(e & Hsome) E]];
    [|rewrite Hsome in E; cbn [default] in E].
  - assert (result (purge_rows env mint) w = Returned tt) as -> by (unfold result; by rewrite E).
    assert (run (purge_rows env mint) w
            = with_db (delete mint (tokenPrice w)) (purgedHistory mint (priceHistory w))
                      (historySeq w) w) as -> by (unfold run; by rewrite E).
    match goal with |- context [run (cleanup_cache ?ks) ?w1] =>
      pose proof (cleanup_cache_keeps store _ store_blind_cache ks w1 eq_refl) as Hk;
      set (w2 := run (cleanup_cache ks) w1) in *
    end.
    unfold keeps, store in Hk. injection Hk as Htp Hph _ Hpub Hnow.
    rewrite Hnone. by split_and!.
  - assert (result (purge_rows env mint) w = Thrown e) as -> by (unfold result; by rewrite E).
    unfold run. rewrite E, Hsome. by split_and!.
Qed.

(** What an update leaves behind in the two tables and on the
    channel. *)
Lemma updateTokenPrice_outcome (env : Env) (mint : string) (w : World) :
  let w' := run (updateTokenPrice env mint) w in
  (∃ d, tokenMint d = mint
        ∧ published w' = (published w ++ [("price_update", d)])%list
        ∧ tokenPrice w' = <[mint := latestRow d (upsertStamp env (now w))]> (tokenPrice w)
        ∧ priceHistory w'
          = (priceHistory w
             ++ [historyRow d (historySeq w + 1) (createStamp env (now w))])%list)
  ∨ (published w' = published w ∧
     ((tokenPrice w' = tokenPrice w ∧ priceHistory w' = priceHistory w) ∨
      (tokenPrice w' = delete mint (tokenPrice w) ∧
       priceHistory w' = purgedHistory mint (priceHistory w)))).
Proof.
  intros w'. subst w'. unfold updateTokenPrice.
  rewrite (run_try_catch_ret _ (λ _, tt)), run_bind.
  destruct (validateTokenMint_result env mint w) as [validation ->].
  pose proof (validateTokenMint_keeps store _ store_blind_cache env mint w eq_refl) as Hv.
  revert Hv. generalize (run (validateTokenMint env mint) w). intros w1 Hv.
  unfold keeps, store in Hv. injection Hv as Htp1 Hph1 Hseq1 Hpub1 Hnow1.
  rewrite <- Htp1, <- Hph1, <- Hseq1, <- Hpub1, <- Hnow1. clear dependent w.
  destruct (isValid validation); cbn [negb].
  - rewrite run_bind.
    pose proof (getTokenPrice_keeps store _ store_blind_cache env mint w1 eq_refl) as Hp.
    pose proof (getTokenPrice_mint env mint w1) as Hm.
    revert Hp. generalize (run (getTokenPrice env mint) w1). intros w2 Hp.
    unfold keeps, store in Hp. injection Hp as Htp2 Hph2 Hseq2 Hpub2 Hnow2.
    rewrite <- Htp2, <- Hph2, <- Hseq2, <- Hpub2, <- Hnow2.
    destruct (result (getTokenPrice env mint) w1) as [d|e]; [|right; split; [done|by left]].
    specialize (Hm d eq_refl).
    unfold run, bind, transaction, db_upsertTokenPrice, db_createHistory, failing,
      publish, modify, throw.
    destruct (upsertFails env), (createFails env); simpl;
      try (right; split; [done|by left]).
    left. exists d. by rewrite Hm.
  - rewrite run_bind.
    destruct (cleanupInvalidToken_store env mint w1) as (Hpub & _ & Hdb).
    revert Hpub Hdb. generalize (run (cleanupInvalidToken env mint) w1). intros w2 Hpub Hdb.
    right. assert (∀ e, run (throw (A:=unit) e) w2 = w2) as Hthrow by done.
    destruct (result (cleanupInvalidToken env mint) w1); rewrite ?Hthrow;
      (split; [done|]); destruct (deleteFails env mint); [by left | by right | by left | by right].
Qed.


(** ** An invalid mint seen by the worker *)

Lemma updateTokenPrice_never_throws env mint w :
  result (updateTokenPrice env mint) w = Returned tt.
Proof. apply result_try_catch_unit. Qed.

Lemma worker_unbanned env mint w :
  present (redis_lookup w (invalidKey mint)) = None →
  worker env mint w
  = (Returned tt, run (inc mint "success") (run (updateTokenPrice env mint) w)).
Proof.
  intros Hban. unfold worker, bind at 1, redis_get, gets. rewrite Hban.
  pose proof (updateTokenPrice_never_throws env mint w) as Hr.
  unfold try_catch, bind, result, run in *.
  by destruct (updateTokenPrice env mint w) as [[[]|?] w1]; simplify_eq/=.
Qed.

(** C1 (the code at a failing input): the worker polls a tracked mint
    whose account is gone from the chain.  The update purges the rows
    but swallows its own InvalidMint error, so the worker counts a
    success, sets no ban key and leaves the repeating job in place. *)
Lemma worker_invalid_mint_not_banned :
  let w' := run (worker goneEnv sampleMint) trackedWorld in
  validates goneEnv sampleMint trackedWorld = false ∧
  result (worker goneEnv sampleMint) trackedWorld = Returned tt ∧
  tokenPrice w' !! sampleMint = None ∧
  redis_lookup w' (invalidKey sampleMint) = None ∧
  repeatingJobs sampleMint w' = 1%nat ∧
  pollingJobsTotal w' = [(sampleMint, "success")].
Proof. vm_compute. by split_and!. Qed.

(** ** A chain that cannot be reached *)

Lemma format_valid_publicKey env mint :
  isValid (validateAddressFormat env mint) = true → publicKeyOk env mint = true.
Proof. unfold validateAddressFormat. by repeat case_match. Qed.

(** C5 (counterexample): with the chain unreachable, enrolling a
    well-formed mint sets its ban key, and an update of a tracked mint
    purges its latest row. *)
Lemma chain_unavailable_counterexample :
  getAccountInfo offlineEnv sampleMint = Thrown "fetch failed" ∧
  redis_lookup (step (Enrol offlineEnv sampleMint) (emptyWorld 0)) (invalidKey sampleMint)
  = Some (RText "true") ∧
  is_Some (tokenPrice trackedWorld !! sampleMint) ∧
  tokenPrice (run (updateTokenPrice offlineEnv sampleMint) trackedWorld) !! sampleMint = None.
Proof. split_and!; [done | by vm_compute | by eexists | by vm_compute]. Qed.

(** The verdict that the validator works out when nothing is cached. *)
Lemma validateTokenMint_fresh env mint w :
  String.eqb mint SOL_MINT = false →
  isValid (validateAddressFormat env mint) = true →
  present (redis_lookup w (validation_key mint)) = None →
  ∃ verdict,
    validateOnChain env mint w = (Returned verdict, w)
    ∧ validateTokenMint env mint w
      = (Returned verdict,
         with_redis (<[validation_key mint :=
                         (RVerdict verdict, Some (now w + 3600 * 1000))]> (redis w)) w).
Proof.
  intros Hsol Hformat Hmiss. destruct (validateOnChain_pure env mint w) as [verdict Hrun].
  exists verdict. split; [exact Hrun|].
  unfold validateTokenMint, try_catch. rewrite Hsol, Hformat. cbn [negb].
  unfold bind at 1. unfold redis_get, gets. rewrite Hmiss.
  unfold bind, redis_setex, modify, ret. by rewrite Hrun.
Qed.

(** A verdict of invalidity, once worked out, has the consequences of
    an invalid mint. *)
Lemma invalid_verdict_consequences env mint w why :
  validateTokenMint env mint w
  = (Returned (verdict_invalid why),
     with_redis (<[validation_key mint :=
                     (RVerdict (verdict_invalid why), Some (now w + 3600 * 1000))]>
                   (redis w)) w) →
  treatedAsInvalid env mint w why.
Proof.
  intros Hrun. unfold treatedAsInvalid. split_and!; [exact Hrun| | | |].
  - cbn [step]. unfold addTokenForTracking, validationGate, run, bind, try_catch.
    rewrite Hrun. simpl. by rewrite lookup_insert_eq.
  - cbn [step]. unfold addTokenForTracking, validationGate, run, bind, try_catch.
    by rewrite Hrun.
  - cbn [step]. unfold addTokenForTracking, validationGate, run, bind, try_catch.
    by rewrite Hrun.
  - intros Hdelete. cbv zeta.
    set (cached := with_redis _ w) in Hrun.
    assert (run (updateTokenPrice env mint) w
            = run (cleanupInvalidToken env mint) cached) as ->.
    { unfold updateTokenPrice.
      rewrite (run_try_catch_ret _ (λ _, tt)), run_bind.
      unfold result, run at 2 3. rewrite Hrun. cbn [fst snd isValid verdict_invalid negb].
      rewrite run_bind. by destruct (result (cleanupInvalidToken env mint) cached). }
    destruct (cleanupInvalidToken_store env mint cached) as (Hpub & _ & Hdb).
    rewrite Hdelete in Hdb. destruct Hdb as [Htp Hph].
    split_and!; [exact Htp | exact Hph | exact Hpub].
Qed.

Lemma tokenProgram_owner owner :
  tokenProgram owner = true →
  negb (String.eqb owner TOKEN_PROGRAM_ID) && negb (String.eqb owner TOKEN_2022_PROGRAM_ID)
  = false.
Proof.
  unfold tokenProgram.
  by destruct (String.eqb owner TOKEN_PROGRAM_ID), (String.eqb owner TOKEN_2022_PROGRAM_ID).
Qed.

(** C5 (amended): when a call of the chain round-trip of a validation
    fails with a network error, the validator does not treat the
    failure as transient.  A failure of the account lookup gives the
    invalid verdict "On-chain validation failed: ..." and a failure of
    the supply lookup the invalid verdict "Unable to get token supply
    information"; either is returned and cached for one hour, an
    enrolment that receives it sets the 24-hour ban key and adds no
    job, and the Pricing Engine's update purges the mint's rows and
    publishes nothing.  Only a failure of the optional look at the
    largest accounts is ignored: the mint is accepted as if the call
    had answered. *)
Theorem chain_error_is_invalid (env : Env) (mint : string) (w : World) :
  String.eqb mint SOL_MINT = false →
  isValid (validateAddressFormat env mint) = true →
  present (redis_lookup w (validation_key mint)) = None →
  (∀ message,
     getAccountInfo env mint = Thrown message →
     treatedAsInvalid env mint w ("On-chain validation failed: " +:+ message))
  ∧ (∀ owner message,
       getAccountInfo env mint = Returned (Some owner) → tokenProgram owner = true →
       getTokenSupplyRpc env mint = Thrown message →
       treatedAsInvalid env mint w "Unable to get token supply information")
  ∧ (∀ owner value message,
       getAccountInfo env mint = Returned (Some owner) → tokenProgram owner = true →
       getTokenSupplyRpc env mint = Returned (Some value) →
       0 ≤ sv_decimals value ≤ 18 → (0 < reportedSupply value)%Q →
       getTokenLargestAccountsRpc env mint = Thrown message →
       result (validateTokenMint env mint) w
       = Returned (verdict_valid (Some (sv_decimals value)) (Some (reportedSupply value)))).
Proof.
  intros Hsol Hformat Hmiss.
  destruct (validateTokenMint_fresh env mint w Hsol Hformat Hmiss) as (verdict & Hchain & Hrun).
  pose proof (format_valid_publicKey _ _ Hformat) as Hkey.
  unfold validateOnChain, try_catch, bind, call, throw, ret in Hchain.
  rewrite Hkey in Hchain. cbn [negb] in Hchain.
  split_and!.
  - intros message Herr. rewrite Herr in Hchain. injection Hchain as <-.
    by apply invalid_verdict_consequences.
  - intros owner message Hinfo Howner Herr.
    rewrite Hinfo, (tokenProgram_owner owner Howner) in Hchain.
    unfold validateSupply, try_catch, bind, call in Hchain. rewrite Herr in Hchain.
    injection Hchain as <-. by apply invalid_verdict_consequences.
  - intros owner value message Hinfo Howner Hsupply Hdecimals Hpositive Herr.
    rewrite Hinfo, (tokenProgram_owner owner Howner) in Hchain.
    unfold validateSupply, try_catch, bind, call, ret in Hchain.
    rewrite Hsupply, Herr in Hchain. fold (reportedSupply value) in Hchain.
    assert ((sv_decimals value <? 0) || (18 <? sv_decimals value) = false) as Hrange
      by lia.
    assert (Qle_bool (reportedSupply value) 0 = false) as Hsome.
    { destruct (Qle_bool (reportedSupply value) 0) eqn:E; [|done].
      apply Qle_bool_iff in E. by apply Qle_not_lt in E. }
    rewrite Hrange, Hsome in Hchain. injection Hchain as <-.
    unfold result. by rewrite Hrun.
Qed.

Lemma chain_error_is_invalid_witness :
  String.eqb sampleMint SOL_MINT = false ∧
  present (redis_lookup trackedWorld (validation_key sampleMint)) = None ∧
  (getAccountInfo offlineEnv sampleMint = Thrown "fetch failed" ∧
   redis (step (Enrol offlineEnv sampleMint) trackedWorld) !! invalidKey sampleMint
   = Some (RText "true", Some (now trackedWorld + 86400 * 1000)) ∧
   tokenPrice (run (updateTokenPrice offlineEnv sampleMint) trackedWorld)
   = delete sampleMint (tokenPrice trackedWorld)) ∧
  (getTokenSupplyRpc supplyDownEnv sampleMint = Thrown "fetch failed" ∧
   redis (step (Enrol supplyDownEnv sampleMint) trackedWorld) !! invalidKey sampleMint
   = Some (RText "true", Some (now trackedWorld + 86400 * 1000)) ∧
   tokenPrice (run (updateTokenPrice supplyDownEnv sampleMint) trackedWorld)
   = delete sampleMint (tokenPrice trackedWorld)) ∧
  (getTokenLargestAccountsRpc holdersDownEnv sampleMint = Thrown "fetch failed" ∧
   validates holdersDownEnv sampleMint trackedWorld = true).
Proof.
  assert (String.eqb sampleMint SOL_MINT = false) as H1 by reflexivity.
  assert (∀ env, publicKeyOk env sampleMint = true →
                 isValid (validateAddressFormat env sampleMint) = true) as H2.
  { intros env Hkey. unfold validateAddressFormat. rewrite Hkey. by vm_compute. }
  assert (present (redis_lookup trackedWorld (validation_key sampleMint)) = None) as H3
    by (vm_compute; reflexivity).
  destruct (chain_error_is_invalid offlineEnv sampleMint trackedWorld H1 (H2 offlineEnv eq_refl) H3)
    as (Haccount & _ & _).
  destruct (chain_error_is_invalid supplyDownEnv sampleMint trackedWorld H1 (H2 supplyDownEnv eq_refl) H3)
    as (_ & Hsupply & _).
  destruct (chain_error_is_invalid holdersDownEnv sampleMint trackedWorld H1 (H2 holdersDownEnv eq_refl) H3)
    as (_ & _ & Hholders).
  destruct (Haccount "fetch failed" eq_refl) as (_ & Hban1 & _ & _ & Hpurge1).
  destruct (Hsupply TOKEN_PROGRAM_ID "fetch failed" eq_refl eq_refl eq_refl)
    as (_ & Hban2 & _ & _ & Hpurge2).
  pose proof (Hholders TOKEN_PROGRAM_ID
                {| sv_amount := 555000000000000 # 1; sv_decimals := 6 |} "fetch failed"
                eq_refl eq_refl eq_refl ltac:(cbn; lia) ltac:(by vm_compute) eq_refl)
    as Hvalid.
  split_and!; [exact H1 | exact H3 | done | exact Hban1 | exact (proj1 (Hpurge1 eq_refl))
               | done | exact Hban2 | exact (proj1 (Hpurge2 eq_refl)) | done |].
  unfold validates. by rewrite Hvalid.
Defined.

(** ** Ban durability *)

Section Banned.
Context (mint : string) (deadline : Z).

Lemma banned_modify f :
  (∀ w, redis (f w) = redis w) → (∀ w, now (f w) = now w) →
  preserves (banned mint deadline) (modify f).
Proof.
  intros Hr Hn. apply preserves_modify. unfold banned. intros w. by rewrite Hr, Hn.
Qed.

Lemma banned_setex_other key seconds v :
  key ≠ invalidKey mint → preserves (banned mint deadline) (redis_setex key seconds v).
Proof.
  intros Hne. apply preserves_modify. unfold banned. intros w. simpl.
  by rewrite lookup_insert_ne.
Qed.

Lemma banned_setex_ban m :
  preserves (banned mint deadline) (redis_setex (invalidKey m) 86400 (RText "true")).
Proof.
  destruct (decide (invalidKey m = invalidKey mint)) as [->|Hne];
    [|by apply banned_setex_other].
  apply preserves_modify. unfold banned. intros w [Hnow _]. simpl.
  split; [done|]. rewrite lookup_insert_eq. eexists. split; [done|].
  unfold BAN_TTL_MS in Hnow. lia.
Qed.

Lemma lookup_foldr_delete_absent {V} (m : gmap string V) keys key :
  key ∉ keys → foldr delete m keys !! key = m !! key.
Proof.
  induction keys as [|k keys IH]; [done|]. rewrite not_elem_of_cons. intros [Hne Hnot].
  simpl. rewrite lookup_delete_ne by done. by apply IH.
Qed.

Lemma banned_del keys :
  invalidKey mint ∉ keys → preserves (banned mint deadline) (redis_del keys).
Proof.
  intros Hnot. apply preserves_modify. unfold banned. intros w. simpl.
  by rewrite lookup_foldr_delete_absent.
Qed.

Lemma banned_del_glob pattern :
  Js.glob pattern (invalidKey mint) = false →
  preserves (banned mint deadline)
    (let* found := redis_keys pattern in
     match found with
     | [] => ret tt
     | _ => redis_del found
     end).
Proof.
  intros Hglob w Hw. unfold run, bind, redis_keys, gets.
  set (found := List.filter _ _).
  assert (invalidKey mint ∉ found) as Hnot.
  { unfold found. rewrite list_elem_of_In, filter_In, Hglob. by intros [_ ?]. }
  destruct found; [done|]. by apply (banned_del _ Hnot w).
Qed.

End Banned.

Lemma head_differs c p d s : Ascii.eqb c d = false → String c p ≠ String d s.
Proof. intros H [= -> _]. by rewrite Ascii.eqb_refl in H. Qed.

Lemma glob_head_mismatch c p d s :
  Ascii.eqb c "*" = false → Ascii.eqb c "?" = false → Ascii.eqb c d = false →
  Js.glob (String c p) (String d s) = false.
Proof. intros H1 H2 H3. simpl. by rewrite H1, H2, H3. Qed.

#[local] Hint Extern 1 (preserves (banned _ _) (modify _)) =>
  (apply banned_modify; intros; reflexivity) : pres.
#[local] Hint Extern 1 (preserves (banned _ _) (redis_setex _ _ _)) =>
  (first [ apply banned_setex_ban
         | apply banned_setex_other; by apply head_differs ]) : pres.
#[local] Hint Extern 1 (preserves (banned _ _) (redis_del [_])) =>
  (apply banned_del; rewrite list_elem_of_singleton; apply not_eq_sym;
   by apply head_differs) : pres.
#[local] Hint Extern 1 (preserves (banned _ _) (bind (redis_keys _) _)) =>
  (apply banned_del_glob; by apply glob_head_mismatch) : pres.

Section BannedServices.
Context (mint : string) (deadline : Z).

Lemma validateTokenMint_banned env m :
  preserves (banned mint deadline) (validateTokenMint env m).
Proof. unfold validateTokenMint, validateOnChain, validateSupply. pres. Qed.

Lemma cleanupInvalidToken_banned env m :
  preserves (banned mint deadline) (cleanupInvalidToken env m).
Proof.
  unfold cleanupInvalidToken, purge_rows, db_deleteHistory, db_deleteTokenPrice,
    cleanup_keys, cleanup_cache. pres.
Qed.

Lemma getTokenPrice_banned env m :
  preserves (banned mint deadline) (getTokenPrice env m).
Proof.
  pose proof validateTokenMint_banned.
  unfold getTokenPrice, getTokenSupply, getTokenPriceInSolOptimized, getSolPriceUsd,
    tryDexScreener, tryPool, trySolFromDexScreener, remember_sol_price, cache_price.
  pres.
Qed.

Lemma updateTokenPrice_banned env m :
  preserves (banned mint deadline) (updateTokenPrice env m).
Proof.
  pose proof validateTokenMint_banned. pose proof getTokenPrice_banned.
  pose proof cleanupInvalidToken_banned.
  unfold updateTokenPrice, db_upsertTokenPrice, db_createHistory, publish. pres.
Qed.

Lemma validationGate_banned env m :
  preserves (banned mint deadline) (validationGate env m).
Proof. pose proof validateTokenMint_banned. unfold validationGate. pres. Qed.

Lemma removeRepeatables_banned jid rs :
  preserves (banned mint deadline) (removeRepeatables jid rs).
Proof. induction rs; simpl; unfold queue_removeRepeatable; pres. Qed.

Lemma removeInstances_banned m js :
  preserves (banned mint deadline) (removeInstances m js).
Proof. induction js; simpl; unfold job_remove; pres. Qed.

Lemma removeFromStates_banned m sts :
  preserves (banned mint deadline) (removeFromStates m sts).
Proof.
  pose proof removeInstances_banned. induction sts; simpl; unfold queue_getJobs; pres.
Qed.

Lemma obliterate_banned m :
  preserves (banned mint deadline) (obliterateTokenJobs m).
Proof.
  pose proof removeRepeatables_banned. pose proof removeFromStates_banned.
  unfold obliterateTokenJobs, queue_getRepeatableJobs. pres.
Qed.

Lemma addTokenForTracking_banned env m :
  preserves (banned mint deadline) (addTokenForTracking env m).
Proof.
  pose proof validationGate_banned. pose proof obliterate_banned.
  unfold addTokenForTracking, queue_add. pres.
Qed.

Lemma removeTokenFromTracking_banned env m :
  preserves (banned mint deadline) (removeTokenFromTracking env m).
Proof.
  pose proof obliterate_banned.
  unfold removeTokenFromTracking, db_deleteHistory, db_deleteTokenPrice. pres.
Qed.

Lemma worker_banned env m :
  preserves (banned mint deadline) (worker env m).
Proof.
  pose proof removeTokenFromTracking_banned. pose proof updateTokenPrice_banned.
  unfold worker, inc. pres.
Qed.

End BannedServices.

(** The clock is not moved by the services. *)

Section Clock.
Context (t : Z).

Lemma removeRepeatables_now jid rs : preserves (keeps now t) (removeRepeatables jid rs).
Proof. induction rs; simpl; unfold queue_removeRepeatable; pres. Qed.

Lemma removeInstances_now m js : preserves (keeps now t) (removeInstances m js).
Proof. induction js; simpl; unfold job_remove; pres. Qed.

Lemma removeFromStates_now m sts : preserves (keeps now t) (removeFromStates m sts).
Proof.
  pose proof removeInstances_now. induction sts; simpl; unfold queue_getJobs; pres.
Qed.

Lemma obliterate_now m : preserves (keeps now t) (obliterateTokenJobs m).
Proof.
  pose proof removeRepeatables_now. pose proof removeFromStates_now.
  unfold obliterateTokenJobs, queue_getRepeatableJobs. pres.
Qed.

Lemma addTokenForTracking_now env m : preserves (keeps now t) (addTokenForTracking env m).
Proof. pose proof obliterate_now. unfold addTokenForTracking, queue_add. pres. Qed.

Lemma removeTokenFromTracking_now env m :
  preserves (keeps now t) (removeTokenFromTracking env m).
Proof.
  pose proof obliterate_now.
  unfold removeTokenFromTracking, db_deleteHistory, db_deleteTokenPrice. pres.
Qed.

Lemma worker_now env m : preserves (keeps now t) (worker env m).
Proof. pose proof removeTokenFromTracking_now. unfold worker, inc. pres. Qed.

End Clock.

Lemma step_now s w :
  now (step s w) = now w + match s with Elapse dt => Z.max 0 dt | _ => 0 end.
Proof.
  destruct s as [env m|env m|env m|dt]; cbn [step]; [| | |done]; rewrite Z.add_0_r.
  - by apply (addTokenForTracking_now (now w) env m w).
  - by apply (removeTokenFromTracking_now (now w) env m w).
  - by apply (worker_now (now w) env m w).
Qed.

(** No repeating job for a mint *)
Lemma absent_wf mint w : absent mint w → queue_wf w.
Proof. intros (entries & ? & ? & ?). by exists entries. Qed.

Lemma absent_none mint w : absent mint w → repeatingJobs mint w = 0%nat.
Proof.
  intros (entries & Hnd & Hrs & Hnot).
  by rewrite (repeatingJobs_entries mint w entries Hnd Hrs), bool_decide_eq_false_2.
Qed.

Lemma preserves_absent {A} mint (m : M A) :
  (∀ rs, preserves (keeps repeatable rs) m) → preserves (absent mint) m.
Proof.
  intros H w (entries & Hnd & Hrs & Hnot). exists entries. split_and!; [done| |done].
  by apply (H _ w).
Qed.

Lemma obliterate_absent mint m : preserves (absent mint) (obliterateTokenJobs m).
Proof.
  intros w Hw.
  pose proof (obliterate_repeatable m w (queue_wf_keyed w (absent_wf mint w Hw))) as Ho.
  destruct Hw as (entries & Hnd & Hrs & Hnot). exists entries.
  split_and!; [done| |done]. by rewrite Ho.
Qed.

#[local] Hint Resolve obliterate_absent : pres.
#[local] Hint Extern 5 (preserves (absent _) _) =>
  (apply preserves_absent; intros ?; solve [pres]) : pres.

Lemma removeTokenFromTracking_absent mint env m :
  preserves (absent mint) (removeTokenFromTracking env m).
Proof. unfold removeTokenFromTracking, db_deleteHistory, db_deleteTokenPrice. pres. Qed.

Lemma worker_absent mint env m : preserves (absent mint) (worker env m).
Proof.
  pose proof removeTokenFromTracking_absent. unfold worker, inc. pres.
Qed.

Lemma banned_live mint deadline w :
  banned mint deadline w → now w < deadline →
  present (redis_lookup w (invalidKey mint)) = Some (RText "true").
Proof.
  intros (_ & expiry & Hkey & Hle) Hnow. unfold redis_lookup, live. rewrite Hkey. simpl.
  by rewrite (proj2 (Z.ltb_lt _ _)) by lia.
Qed.

Lemma passes_banned env mint deadline w :
  banned mint deadline w → now w < deadline → passes env mint w = false.
Proof.
  intros Hban Hnow. unfold passes.
  pose proof (validationGate_banned mint deadline env mint w Hban) as Hb.
  pose proof (validationGate_keeps now _ now_blind_cache env mint w eq_refl) as Ht.
  unfold run, keeps in *.
  destruct (validationGate env mint w) as [[[]|e] w1]; [|done..]. simpl in *.
  rewrite (banned_live mint deadline w1); [done..|lia].
Qed.

(** An enrolment that is refused leaves the queue as it found it. *)
Lemma refused_enrolment env mint w :
  passes env mint w = false →
  repeatable (run (addTokenForTracking env mint) w) = repeatable w ∧
  jobs (run (addTokenForTracking env mint) w) = jobs w.
Proof.
  intros Hpass. unfold passes in Hpass. unfold addTokenForTracking.
  pose proof (validationGate_keeps (λ w, (repeatable w, jobs w)) _ ltac:(by split)
                env mint w eq_refl) as Hq.
  rewrite run_bind. unfold run, result, keeps in *.
  destruct (validationGate env mint w) as [[[]|e] w1]; simpl in *;
    injection Hq as Hrs Hjs; [|by split..].
  unfold bind, redis_get, gets. cbn [fst snd].
  destruct (present (redis_lookup w1 (invalidKey mint))); [by split | done].
Qed.

Lemma addTokenForTracking_absent env mint deadline m w :
  absent mint w → banned mint deadline w → now w < deadline →
  absent mint (run (addTokenForTracking env m) w).
Proof.
  intros (entries & Hnd & Hrs & Hnot) Hban Hnow.
  destruct (addTokenForTracking_queue env m w entries Hrs) as [next Hq].
  exists (if passes env m w then reschedule m next entries else entries).
  split_and!; [|exact Hq|].
  - destruct (passes env m w); [|done]. by apply reschedule_NoDup.
  - destruct (passes env m w) eqn:Hadm; [|done].
    destruct (decide (mint = m)) as [->|Hne].
    + by rewrite (passes_banned env m deadline w) in Hadm.
    + by rewrite reschedule_others.
Qed.

Lemma step_banned mint deadline s w :
  banned mint deadline w →
  now w + match s with Elapse dt => Z.max 0 dt | _ => 0 end < deadline →
  banned mint deadline (step s w).
Proof.
  intros Hban Hnow. destruct s as [env m|env m|env m|dt]; cbn [step].
  - by apply addTokenForTracking_banned.
  - by apply removeTokenFromTracking_banned.
  - by apply worker_banned.
  - destruct Hban as [Hd Hkey]. split; [simpl; lia | done].
Qed.

Lemma step_absent mint deadline s w :
  absent mint w → banned mint deadline w →
  now w + match s with Elapse dt => Z.max 0 dt | _ => 0 end < deadline →
  absent mint (step s w).
Proof.
  intros Habs Hban Hnow. destruct s as [env m|env m|env m|dt]; cbn [step].
  - eapply addTokenForTracking_absent; [done..|lia].
  - by apply removeTokenFromTracking_absent.
  - by apply worker_absent.
  - done.
Qed.

Lemma elapsed_nonneg steps : 0 ≤ elapsed steps.
Proof. induction steps as [|[] ? ?]; simpl; lia. Qed.

(** The ban key outlives whatever the scheduler does before its
    deadline. *)
Lemma exec_banned mint deadline steps : ∀ w,
  banned mint deadline w → now w + elapsed steps < deadline →
  banned mint deadline (exec steps w) ∧ now (exec steps w) = now w + elapsed steps.
Proof.
  induction steps as [|s steps IH]; intros w Hban Hnow.
  - simpl in *. split; [done|lia].
  - pose proof (elapsed_nonneg steps) as Hpos.
    cbn [exec fold_left]. fold (exec steps (step s w)).
    pose proof (step_now s w) as Hstep.
    assert (banned mint deadline (step s w)) as Hban'.
    { apply step_banned; [done|]. destruct s; simpl in *; lia. }
    destruct (IH (step s w) Hban') as (? & Hn).
    { rewrite Hstep. destruct s; simpl in *; lia. }
    split; [done|]. rewrite Hn, Hstep. destruct s; simpl; lia.
Qed.

(** A banned mint without a repeating job gets none before the
    deadline. *)
Lemma exec_absent mint deadline steps : ∀ w,
  absent mint w → banned mint deadline w → now w + elapsed steps < deadline →
  absent mint (exec steps w).
Proof.
  induction steps as [|s steps IH]; intros w Habs Hban Hnow; [done|].
  pose proof (elapsed_nonneg steps) as Hpos.
  cbn [exec fold_left]. fold (exec steps (step s w)).
  pose proof (step_now s w) as Hstep.
  apply IH.
  - eapply step_absent; [done..|]. destruct s; simpl in *; lia.
  - apply step_banned; [done|]. destruct s; simpl in *; lia.
  - rewrite Hstep. destruct s; simpl in *; lia.
Qed.

Lemma ban_establishes env mint w :
  let w1 := step (BanAndRemove env mint) w in
  banned mint (now w + BAN_TTL_MS) w1 ∧ now w1 = now w.
Proof.
  intros w1. subst w1. cbn [step]. split.
  - unfold removeTokenFromTracking. rewrite (run_try_catch_ret _ (λ _, tt)).
    rewrite run_bind. cbn [result redis_setex modify fst].
    assert (banned mint (now w + BAN_TTL_MS)
              (run (redis_setex (invalidKey mint) 86400 (RText "true")) w)) as Hb.
    { split; [simpl; lia|]. simpl. rewrite lookup_insert_eq. eexists. split; [done|].
      unfold BAN_TTL_MS. lia. }
    revert Hb. generalize (run (redis_setex (invalidKey mint) 86400 (RText "true")) w).
    pose proof obliterate_banned.
    unfold db_deleteHistory, db_deleteTokenPrice.
    change (preserves (banned mint (now w + BAN_TTL_MS))
              (obliterateTokenJobs mint >>
               failing (deleteHistoryFails env mint)
                 (modify (λ w0, with_db (tokenPrice w0)
                                  (purgedHistory mint (priceHistory w0)) (historySeq w0) w0)) >>
               failing (deleteTokenPriceFails env mint)
                 (modify (λ w0, with_db (delete mint (tokenPrice w0)) (priceHistory w0)
                                  (historySeq w0) w0)))).
    pres.
  - by apply (removeTokenFromTracking_now (now w) env mint w).
Qed.

Lemma subscribe_invalid env socket mint w :
  validates env mint w = false →
  ∃ message,
    emitted (run (subscribeToToken env socket mint) w)
    = (emitted w ++ [(socket, EvSubscriptionError mint message (Some "INVALID_TOKEN_MINT"))])%list.
Proof.
  unfold validates, result. intros Hinvalid.
  pose proof (validateTokenMint_keeps emitted _ ltac:(by split) env mint w eq_refl) as He.
  unfold keeps, run in He.
  unfold subscribeToToken, run, try_catch, bind.
  destruct (validateTokenMint_run env mint w) as (r & w1 & E & _).
  rewrite E in *. simpl in *. rewrite Hinvalid. simpl. rewrite He. by eexists.
Qed.

(** C4 (amended): after banAndRemove has set the ban key, and for as
    long as less than its 24-hour TTL has elapsed, whatever the
    scheduler does in between, an enrolment of the mint produces no
    repeating job: it leaves the repeatable jobs and the job instances
    of the queue as it found them; and a subscription attempt yields
    subscription_error with code INVALID_TOKEN_MINT whenever the
    validator finds the mint invalid (the subscription path does not
    read the ban key). *)
Theorem ban_durable (env0 env : Env) (mint socket : string) (w : World) (steps : list Step) :
  elapsed steps < BAN_TTL_MS →
  let during := exec steps (step (BanAndRemove env0 mint) w) in
  let after := step (Enrol env mint) during in
  repeatable after = repeatable during
  ∧ jobs after = jobs during
  ∧ (validates env mint during = false →
     ∃ message,
       emitted (run (subscribeToToken env socket mint) during)
       = (emitted during
          ++ [(socket, EvSubscriptionError mint message (Some "INVALID_TOKEN_MINT"))])%list).
Proof.
  intros Hshort during after.
  destruct (ban_establishes env0 mint w) as (Hban & Hnow).
  destruct (exec_banned mint (now w + BAN_TTL_MS) steps _ Hban) as (Hban' & Hnow').
  { rewrite Hnow. lia. }
  assert (passes env mint during = false) as Hrefused.
  { apply (passes_banned env mint (now w + BAN_TTL_MS)); [exact Hban'|].
    unfold during. rewrite Hnow', Hnow. lia. }
  destruct (refused_enrolment env mint during Hrefused) as [Hrs Hjs].
  split_and!; [exact Hrs | exact Hjs | apply subscribe_invalid].
Qed.

(** C4 (counterexample): the sample mint is banned, the chain and the
    aggregator answer for it, and a subscription attempt is served a
    price_update and a subscription_success instead of an error. *)
Lemma banned_mint_subscribes_counterexample :
  redis_lookup bannedHub (invalidKey sampleMint) = Some (RText "true") ∧
  ∃ d, emitted (run (subscribeToToken onlineEnv "socket-1" sampleMint) bannedHub)
       = [ ("socket-1", EvPriceUpdate d);
           ("socket-1", EvSubscriptionSuccess sampleMint 1) ].
Proof. split; [by vm_compute|]. vm_compute. by eexists. Qed.

Lemma hubWorld_wf : queue_wf hubWorld.
Proof. exists []. split; [apply NoDup_nil_2 | done]. Defined.

Lemma ban_durable_witness :
  elapsed quietSteps < BAN_TTL_MS ∧
  repeatable enrolledHub = [enrolled sampleMint 1000] ∧
  repeatable (step (Enrol onlineEnv sampleMint) duringBan) = repeatable duringBan ∧
  jobs (step (Enrol onlineEnv sampleMint) duringBan) = jobs duringBan ∧
  validates goneEnv sampleMint duringBan = false ∧
  ∃ message,
    emitted (run (subscribeToToken goneEnv "socket-1" sampleMint) duringBan)
    = (emitted duringBan
       ++ [("socket-1", EvSubscriptionError sampleMint message (Some "INVALID_TOKEN_MINT"))])%list.
Proof.
  assert (elapsed quietSteps < BAN_TTL_MS) as Hshort by (vm_compute; reflexivity).
  assert (repeatable enrolledHub = [enrolled sampleMint 1000]) as Henrolled
    by (vm_compute; reflexivity).
  assert (validates goneEnv sampleMint duringBan = false) as Hinvalid
    by (vm_compute; reflexivity).
  destruct (ban_durable goneEnv onlineEnv sampleMint "socket-1" enrolledHub quietSteps
              Hshort) as (Hrs & Hjs & _).
  destruct (ban_durable goneEnv goneEnv sampleMint "socket-1" enrolledHub quietSteps
              Hshort) as (_ & _ & Herror).
  split_and!; [exact Hshort | exact Henrolled | exact Hrs | exact Hjs | exact Hinvalid |].
  exact (Herror Hinvalid).
Defined.

(** ** The top-holders query *)

Lemma slice0_length {A} (n : Z) (l : list A) :
  0 ≤ n → (length (Js.slice0 n l) ≤ Z.to_nat n)%nat.
Proof.
  intros Hn. unfold Js.slice0. rewrite (proj2 (Z.leb_le _ _)) by done.
  rewrite length_take. lia.
Qed.






(** The handler reads the limit itself: a limit of 75, which
    [HoldersQuerySchema] refuses, and a limit of -3, below every lower
    bound, are both served. *)
Lemma handler_reads_limit_itself :
  HoldersQuerySchema (Some (JsNum 75)) = Thrown "Number must be less than or equal to 50" ∧
  result (getTokenHolders offlineEnv (Some SOL_MINT) (JsNum 75)) (emptyWorld 0)
  = Returned (Ok200 {| hold_data := []; hold_total := 0; hold_limit := 75 |}) ∧
  result (getTokenHolders offlineEnv (Some SOL_MINT) (JsNum (-3))) (emptyWorld 0)
  = Returned (Ok200 {| hold_data := []; hold_total := 0; hold_limit := -3 |}).
Proof. by vm_compute. Qed.


(** The cache assumption is kept by the service itself. *)
Lemma holdersCacheOk_setex_other mint limit key seconds v :
  key ≠ holders_key mint limit →
  preserves (holdersCacheOk mint limit) (redis_setex key seconds v).
Proof.
  intros Hne. apply preserves_modify. unfold holdersCacheOk. intros w Hw u.
  rewrite redis_lookup_insert_ne by done. apply Hw.
Qed.

Lemma holdersCacheOk_setex_bounded mint limit seconds holders :
  (length holders ≤ Z.to_nat limit)%nat →
  preserves (holdersCacheOk mint limit)
    (redis_setex (holders_key mint limit) seconds (RHolders holders)).
Proof.
  intros Hlen. apply preserves_modify. unfold holdersCacheOk, redis_lookup. intros w Hw u.
  cbn [redis with_redis now]. rewrite lookup_insert_eq.
  destruct (live _ _); [|done]. by intros [= <-].
Qed.

#[local] Hint Extern 1 (preserves (holdersCacheOk _ _) (redis_setex _ _ _)) =>
  (apply holdersCacheOk_setex_other;
   let H := fresh in
   intros H; unfold validation_key, holders_key in H; by simplify_eq/=) : pres.

Lemma validateTokenMint_holders mint limit env m :
  preserves (holdersCacheOk mint limit) (validateTokenMint env m).
Proof. unfold validateTokenMint, validateOnChain, validateSupply. pres. Qed.

Lemma getTokenInfo_holders mint limit env m :
  preserves (holdersCacheOk mint limit) (getTokenInfo env m).
Proof. pose proof validateTokenMint_holders. unfold getTokenInfo. pres. Qed.

Lemma getTopHolders_keeps_cache env mint limit :
  0 ≤ limit → preserves (holdersCacheOk mint limit) (getTopHolders env mint limit).
Proof.
  intros Hlimit. pose proof validateTokenMint_holders. pose proof getTokenInfo_holders.
  unfold getTopHolders. pres.
  apply holdersCacheOk_setex_bounded.
  match goal with |- context [match ?d with Some _ => _ | None => _ end] => destruct d end.
  - rewrite length_map. by apply slice0_length.
  - simpl. lia.
Qed.

(** ** Selection of a pair *)

Lemma reduceBest_elem {A} (better : A → A → bool) rest : ∀ first,
  reduceBest better first rest ∈ first :: rest.
Proof.
  unfold reduceBest. induction rest as [|x rest IH]; intros first; simpl.
  - apply elem_of_cons. by left.
  - specialize (IH (if better x first then x else first)).
    apply elem_of_cons in IH as [->|IH].
    + destruct (better x first); rewrite !elem_of_cons; auto.
    + rewrite !elem_of_cons. auto.
Qed.

Lemma bestByScore_elem group p : bestByScore group = Some p → p ∈ group.
Proof.
  destruct group as [|first rest]; [done|]. intros [= <-]. apply reduceBest_elem.
Qed.

Lemma bestByScore_some group : group ≠ [] → is_Some (bestByScore group).
Proof. destruct group; [done|]. by eexists. Qed.

Lemma Qgtb_false a b : Qgtb a b = false → (a <= b)%Q.
Proof.
  unfold Qgtb. intros H. apply negb_false_iff in H. by apply Qle_bool_iff.
Qed.

Lemma Qgtb_true a b : Qgtb a b = true → (b < a)%Q.
Proof.
  unfold Qgtb. intros H. apply negb_true_iff in H.
  apply Qnot_le_lt. intros Hle. apply Qle_bool_iff in Hle. congruence.
Qed.

(** The element that [reduce] keeps is maximal for the measure that
    the comparison reads. *)
Lemma reduceBest_max {A} (measure : A → Q) rest : ∀ first x,
  x ∈ first :: rest →
  (measure x <= measure (reduceBest (λ c b, Qgtb (measure c) (measure b)) first rest))%Q.
Proof.
  unfold reduceBest. induction rest as [|y rest IH]; intros first x Hx; simpl.
  - apply elem_of_cons in Hx as [->|Hx]; [apply Qle_refl | by apply elem_of_nil in Hx].
  - destruct (Qgtb (measure y) (measure first)) eqn:Hcmp.
    + apply elem_of_cons in Hx as [->|Hx].
      * apply Qle_trans with (measure y).
        -- apply Qlt_le_weak. by apply Qgtb_true.
        -- apply IH. apply elem_of_cons. by left.
      * apply IH. done.
    + apply elem_of_cons in Hx as [->|Hx].
      * apply IH. apply elem_of_cons. by left.
      * apply elem_of_cons in Hx as [->|Hx].
        -- apply Qle_trans with (measure first).
           ++ by apply Qgtb_false.
           ++ apply IH. apply elem_of_cons. by left.
        -- apply IH. apply elem_of_cons. by right.
Qed.

Lemma bestByScore_max group p x :
  bestByScore group = Some p → x ∈ group →
  (calculatePairScore (scored x) <= calculatePairScore (scored p))%Q.
Proof.
  destruct group as [|first rest]; [done|]. intros [= <-] Hx.
  by apply (reduceBest_max (λ p, calculatePairScore (scored p))).
Qed.

Lemma elem_of_filter_list {A} (f : A → bool) l x :
  x ∈ List.filter f l ↔ x ∈ l ∧ f x = true.
Proof. rewrite !list_elem_of_In. apply filter_In. Qed.

Lemma establishedPairs_quality pairs p :
  p ∈ establishedPairs pairs → p ∈ qualityPairs pairs.
Proof.
  unfold establishedPairs.
  destruct (List.filter onEstablishedDex (qualityPairs pairs)) eqn:Hf; [done|].
  rewrite <- Hf. intros Hp. by apply elem_of_filter_list in Hp as [? _].
Qed.

Lemma establishedPairs_nonempty pairs :
  qualityPairs pairs ≠ [] → establishedPairs pairs ≠ [].
Proof.
  unfold establishedPairs.
  by destruct (List.filter onEstablishedDex (qualityPairs pairs)).
Qed.

Lemma selectBestPair_quality pairs tokenMint :
  (2 ≤ length pairs)%nat → qualityPairs pairs ≠ [] →
  selectBestPair pairs tokenMint = bestByScore (finalGroup pairs tokenMint)
  ∧ finalGroup pairs tokenMint ≠ [].
Proof.
  intros Hlen Hq. pose proof (establishedPairs_nonempty pairs Hq) as He.
  unfold selectBestPair, finalGroup.
  destruct pairs as [|first [|second rest]]; simpl in Hlen; [lia..|].
  destruct (qualityPairs (first :: second :: rest)) eqn:Hqp; [done|].
  destruct (solPairs _ _); [|done].
  destruct (usdcPairs _ _); done.
Qed.

Lemma finalGroup_established pairs tokenMint p :
  p ∈ finalGroup pairs tokenMint → p ∈ establishedPairs pairs.
Proof.
  unfold finalGroup.
  destruct (solPairs pairs tokenMint) eqn:Hs.
  - destruct (usdcPairs pairs tokenMint) eqn:Hu; [done|].
    rewrite <- Hu. unfold usdcPairs. intros Hp. by apply elem_of_filter_list in Hp as [? _].
  - rewrite <- Hs. unfold solPairs. intros Hp. by apply elem_of_filter_list in Hp as [? _].
Qed.

Lemma selectBestPair_listed (pairs : list PairListing) (tokenMint : string) :
  (selectBestPair pairs tokenMint = None ↔ pairs = []) ∧
  (∀ p, selectBestPair pairs tokenMint = Some p → p ∈ pairs).
Proof.
  destruct pairs as [|first [|second rest]].
  - split; [done|]. intros p. discriminate.
  - split; [done|]. intros p [= <-]. apply elem_of_cons. by left.
  - set (pairs := first :: second :: rest).
    destruct (qualityPairs pairs) as [|q0 qs] eqn:Hq.
    + assert (selectBestPair pairs tokenMint
              = Some (reduceBest higherLiquidity first (second :: rest))) as ->.
      { unfold selectBestPair, pairs. fold pairs. by rewrite Hq. }
      split; [done|]. intros p [= <-]. apply (reduceBest_elem _ (second :: rest) first).
    + destruct (selectBestPair_quality pairs tokenMint) as [-> Hne].
      { simpl. lia. } { by rewrite Hq. }
      split.
      * split; [|done]. intros Hnone.
        destruct (bestByScore_some _ Hne) as [p Hp]. congruence.
      * intros p Hp. apply bestByScore_elem in Hp.
        apply finalGroup_established, establishedPairs_quality in Hp.
        unfold qualityPairs in Hp. by apply elem_of_filter_list in Hp as [? _].
Qed.

(** X1: [selectBestPair] answers [null] only for an empty array, and the
    pair it answers with is always one of the pairs it was given. *)
Theorem selected_pair_is_listed (pairs : list PairListing) (tokenMint : string) :
  (selectBestPair pairs tokenMint = None ↔ pairs = []) ∧
  (∀ p, selectBestPair pairs tokenMint = Some p → p ∈ pairs).
Proof.
  split.
  - apply selectBestPair_listed.
  - intros p Hp. by apply (selectBestPair_listed pairs tokenMint).
Qed.

(** X2: given at least two pairs of which one passes the quality
    filter, the selected pair passes the quality filter, is quoted in
    SOL when a candidate is, in USDC when none is in SOL and one is in
    USDC, and no candidate of its group has a higher score. *)
Theorem selected_pair_is_best (pairs : list PairListing) (tokenMint : string)
    (p : PairListing) :
  (2 ≤ length pairs)%nat →
  (∃ q, q ∈ pairs ∧ isQualityPair q = true) →
  selectBestPair pairs tokenMint = Some p →
  isQualityPair p = true
  ∧ (solPairs pairs tokenMint ≠ [] → quotedIn SOL_MINT tokenMint p = true)
  ∧ (solPairs pairs tokenMint = [] → usdcPairs pairs tokenMint ≠ [] →
     quotedIn USDC_MINT tokenMint p = true)
  ∧ (∀ q, q ∈ finalGroup pairs tokenMint →
       (calculatePairScore (scored q) <= calculatePairScore (scored p))%Q).
Proof.
  intros Hlen (q & Hq & Hqq) Hsel.
  assert (qualityPairs pairs ≠ []) as Hne.
  { intros Hnil. assert (q ∈ qualityPairs pairs) as Hin.
    { unfold qualityPairs. by apply elem_of_filter_list. }
    rewrite Hnil in Hin. by apply elem_of_nil in Hin. }
  destruct (selectBestPair_quality pairs tokenMint Hlen Hne) as [Heq _].
  rewrite Heq in Hsel. pose proof (bestByScore_elem _ _ Hsel) as Hin.
  split_and!.
  - apply finalGroup_established, establishedPairs_quality in Hin.
    unfold qualityPairs in Hin. by apply elem_of_filter_list in Hin as [_ ?].
  - intros Hs. unfold finalGroup in Hin.
    destruct (solPairs pairs tokenMint) eqn:E; [done|]. rewrite <- E in Hin.
    unfold solPairs in Hin. by apply elem_of_filter_list in Hin as [_ ?].
  - intros Hs Hu. unfold finalGroup in Hin. rewrite Hs in Hin.
    destruct (usdcPairs pairs tokenMint) eqn:E; [done|]. rewrite <- E in Hin.
    unfold usdcPairs in Hin. by apply elem_of_filter_list in Hin as [_ ?].
  - intros x Hx. by eapply bestByScore_max.
Qed.

Lemma selected_pair_is_best_witness :
  (2 ≤ length [pumpListing; raydiumListing])%nat ∧
  (∃ q, q ∈ [pumpListing; raydiumListing] ∧ isQualityPair q = true) ∧
  selectBestPair [pumpListing; raydiumListing] sampleMint = Some raydiumListing ∧
  isQualityPair raydiumListing = true ∧
  quotedIn USDC_MINT sampleMint raydiumListing = true.
Proof.
  assert ((2 ≤ length [pumpListing; raydiumListing])%nat) as Hlen by (simpl; lia).
  assert (∃ q, q ∈ [pumpListing; raydiumListing] ∧ isQualityPair q = true) as Hq.
  { exists raydiumListing. split; [|by vm_compute].
    apply elem_of_cons. right. apply elem_of_cons. by left. }
  assert (selectBestPair [pumpListing; raydiumListing] sampleMint = Some raydiumListing)
    as Hsel by (by vm_compute).
  destruct (selected_pair_is_best _ _ _ Hlen Hq Hsel) as (Hquality & _ & Husdc & _).
  split_and!; [exact Hlen | exact Hq | exact Hsel | exact Hquality |].
  apply Husdc; by vm_compute.
Defined.

(** ** Conversion of the answer *)

Lemma convertPairToResult_sound pair tokenMint r :
  convertPairToResult pair tokenMint = Some r →
  br_tokenMint r = tokenMint ∧ (0 < br_priceUsd r)%Q ∧
  br_pairAddress r = pairAddress (scored pair) ∧ br_dexId r = dexId (scored pair).
Proof.
  unfold convertPairToResult. destruct (parsedPriceUsd pair) as [priceUsd|]; [|done].
  destruct (Qle_bool priceUsd 0) eqn:Hle; [done|]. intros [= <-]. simpl.
  split_and!; try done.
  apply Qnot_le_lt. intros H. apply Qle_bool_iff in H. congruence.
Qed.

(** Keys of the grouping map *)
Lemma pushTo_keys key pair groups :
  (pushTo key pair groups).*1
  = if bool_decide (key ∈ groups.*1) then groups.*1 else (groups.*1 ++ [key])%list.
Proof.
  induction groups as [|[k ps] rest IH].
  - done.
  - cbn [pushTo]. destruct (String.eqb k key) eqn:Hk.
    + apply String.eqb_eq in Hk as ->.
      rewrite bool_decide_eq_true_2; [done|]. apply elem_of_cons. by left.
    + apply String.eqb_neq in Hk. rewrite !fmap_cons, IH. cbn [fst].
      destruct (bool_decide (key ∈ rest.*1)) eqn:Hin.
      * apply bool_decide_eq_true_1 in Hin.
        rewrite bool_decide_eq_true_2; [done|]. apply elem_of_cons. by right.
      * apply bool_decide_eq_false_1 in Hin.
        rewrite bool_decide_eq_false_2; [done|].
        rewrite elem_of_cons. intros [?|?]; [congruence|done].
Qed.

Lemma pushTo_members key pair groups k ps x :
  (k, ps) ∈ pushTo key pair groups → x ∈ ps →
  (k = key ∧ x = pair) ∨ ∃ ps', (k, ps') ∈ groups ∧ x ∈ ps'.
Proof.
  induction groups as [|[k0 ps0] rest IH]; simpl; intros Hin Hx.
  - apply list_elem_of_singleton in Hin as [= -> ->].
    apply list_elem_of_singleton in Hx as ->. by left.
  - destruct (String.eqb k0 key) eqn:Hk.
    + apply String.eqb_eq in Hk as ->.
      apply elem_of_cons in Hin as [[= -> ->]|Hin].
      * apply elem_of_app in Hx as [Hx|Hx].
        -- right. exists ps0. split; [|done]. apply elem_of_cons. by left.
        -- apply list_elem_of_singleton in Hx as ->. by left.
      * right. exists ps. split; [|done]. apply elem_of_cons. by right.
    + apply elem_of_cons in Hin as [[= -> ->]|Hin].
      * right. exists ps0. split; [|done]. apply elem_of_cons. by left.
      * destruct (IH Hin Hx) as [?|(ps' & ? & ?)]; [by left|].
        right. exists ps'. split; [|done]. apply elem_of_cons. by right.
Qed.

(** What holds of every group of the map: its key was requested, and
    its pairs are pairs of the answer that trade the key. *)
Definition groups_ok (pairs : list PairListing) (requestedTokens : list string)
    (groups : list (string * list PairListing)) : Prop :=
  NoDup groups.*1 ∧
  ∀ k ps, (k, ps) ∈ groups →
    k ∈ requestedTokens ∧
    ∀ x, x ∈ ps → x ∈ pairs ∧ (baseToken x = k ∨ quoteToken x = k).

Lemma pushTo_ok pairs requestedTokens groups key pair :
  groups_ok pairs requestedTokens groups →
  key ∈ requestedTokens → pair ∈ pairs →
  baseToken pair = key ∨ quoteToken pair = key →
  groups_ok pairs requestedTokens (pushTo key pair groups).
Proof.
  intros [Hnd Hall] Hkey Hpair Htrade. split.
  - rewrite pushTo_keys. case_bool_decide as Hin; [done|].
    apply NoDup_app. split_and!; [done| |apply NoDup_singleton].
    intros x Hx Hx'. apply list_elem_of_singleton in Hx' as ->. done.
  - intros k ps Hin. split.
    + assert (k ∈ (pushTo key pair groups).*1) as Hk.
      { apply list_elem_of_fmap. by exists (k, ps). }
      rewrite pushTo_keys in Hk. case_bool_decide as Hin'.
      * apply list_elem_of_fmap in Hk as ([k' ps'] & -> & Hk). by apply (Hall k' ps').
      * apply elem_of_app in Hk as [Hk|Hk].
        -- apply list_elem_of_fmap in Hk as ([k' ps'] & -> & Hk). by apply (Hall k' ps').
        -- by apply list_elem_of_singleton in Hk as ->.
    + intros x Hx. destruct (pushTo_members _ _ _ _ _ _ Hin Hx) as [[-> ->]|(ps' & Hin' & Hx')].
      * done.
      * by apply (Hall k ps').
Qed.

Lemma groupPairs_ok pairs requestedTokens :
  groups_ok pairs requestedTokens (groupPairs pairs requestedTokens).
Proof.
  unfold groupPairs.
  assert (∀ done groups,
            (∀ x, x ∈ done → x ∈ pairs) →
            groups_ok pairs requestedTokens groups →
            groups_ok pairs requestedTokens
              (fold_left
                 (λ groups pair,
                    fold_left
                      (λ groups tokenMint,
                         if String.eqb (baseToken pair) tokenMint
                            || String.eqb (quoteToken pair) tokenMint
                         then pushTo tokenMint pair groups
                         else groups)
                      requestedTokens groups)
                 done groups)) as Hgen.
  { induction done as [|pair rest IH]; intros groups Hsub Hok; [done|]. simpl.
    apply IH.
    - intros x Hx. apply Hsub. apply elem_of_cons. by right.
    - assert (pair ∈ pairs) as Hpair by (apply Hsub, elem_of_cons; by left).
      clear IH Hsub.
      assert (∀ tokens groups,
                (∀ t, t ∈ tokens → t ∈ requestedTokens) →
                groups_ok pairs requestedTokens groups →
                groups_ok pairs requestedTokens
                  (fold_left
                     (λ groups tokenMint,
                        if String.eqb (baseToken pair) tokenMint
                           || String.eqb (quoteToken pair) tokenMint
                        then pushTo tokenMint pair groups
                        else groups)
                     tokens groups)) as Hinner.
      { induction tokens as [|t tokens IHt]; intros gs Hsub Hgs; [done|]. simpl.
        apply IHt.
        - intros t' Ht'. apply Hsub. apply elem_of_cons. by right.
        - destruct (String.eqb (baseToken pair) t || String.eqb (quoteToken pair) t) eqn:Ht;
            [|done].
          apply pushTo_ok; [done| |done|].
          + apply Hsub. apply elem_of_cons. by left.
          + apply orb_true_iff in Ht as [Ht|Ht]; apply String.eqb_eq in Ht; auto. }
      by apply Hinner. }
  apply Hgen; [done|]. split; [apply NoDup_nil_2|]. intros k ps Hin.
  by apply elem_of_nil in Hin.
Qed.

Lemma processPairsResponse_mints :
  ∀ groups, NoDup groups.*1 →
    NoDup (br_tokenMint <$>
             omap (λ group, selectBestPair group.2 group.1 ≫= λ bestPair,
                            convertPairToResult bestPair group.1) groups)
    ∧ ∀ m, m ∈ (br_tokenMint <$>
             omap (λ group, selectBestPair group.2 group.1 ≫= λ bestPair,
                            convertPairToResult bestPair group.1) groups) → m ∈ groups.*1.
Proof.
  induction groups as [|[k ps] rest IH]; intros Hnd.
  - split; [apply NoDup_nil_2|]. intros m Hm. by apply elem_of_nil in Hm.
  - apply NoDup_cons in Hnd as [Hk Hnd]. destruct (IH Hnd) as [IH1 IH2]. simpl.
    destruct (selectBestPair ps k ≫= _) as [r|] eqn:Hr; simpl.
    + destruct (selectBestPair ps k) as [best|]; [|done]. simpl in Hr.
      apply convertPairToResult_sound in Hr as (Hm & _). rewrite Hm. split.
      * apply NoDup_cons. split; [|done]. intros Hin. apply Hk. by apply IH2.
      * intros m Hin. apply elem_of_cons in Hin as [->|Hin].
        -- apply elem_of_cons. by left.
        -- apply elem_of_cons. right. by apply IH2.
    + split; [done|]. intros m Hin. apply elem_of_cons. right. by apply IH2.
Qed.

(** X3: the quotes built from an answer of the aggregator carry
    distinct mints, each of them requested; every quote has a positive
    USD price and is taken from a pair of the answer that trades its
    mint. *)
Theorem one_quote_per_requested_mint (pairs : list PairListing)
    (requestedTokens : list string) :
  let results := processPairsResponse pairs requestedTokens in
  NoDup (br_tokenMint <$> results) ∧
  ∀ r, r ∈ results →
    br_tokenMint r ∈ requestedTokens ∧
    (0 < br_priceUsd r)%Q ∧
    ∃ pair, pair ∈ pairs ∧
            (baseToken pair = br_tokenMint r ∨ quoteToken pair = br_tokenMint r) ∧
            br_pairAddress r = pairAddress (scored pair) ∧
            br_dexId r = dexId (scored pair).
Proof.
  intros results. destruct (groupPairs_ok pairs requestedTokens) as [Hnd Hall]. split.
  - by apply processPairsResponse_mints.
  - intros r Hr. unfold results, processPairsResponse in Hr.
    apply list_elem_of_omap in Hr as ([k ps] & Hin & Hr). simpl in Hr.
    destruct (selectBestPair ps k) as [best|] eqn:Hbest; [|done]. simpl in Hr.
    apply convertPairToResult_sound in Hr as (Hm & Hpos & Haddr & Hdex).
    destruct (Hall k ps Hin) as [Hreq Hps].
    apply selectBestPair_listed in Hbest. destruct (Hps best Hbest) as [Hbp Htrade].
    rewrite Hm. split_and!; [done..|]. by exists best.
Qed.

(** ** Batches of mints *)

Lemma array_slice_chunk {A} (array : list A) (size i : Z) :
  0 ≤ i → 0 ≤ size →
  array_slice i (i + size) array
  = take (Z.to_nat size) (drop (Z.to_nat i) array).
Proof.
  intros Hi Hsize. unfold array_slice.
  assert ((i <? 0) = false) as -> by lia. assert ((i + size <? 0) = false) as -> by lia.
  destruct (Z.le_gt_cases (Z.of_nat (length array)) i) as [Hout|Hin].
  - rewrite !drop_ge by lia. by rewrite !take_nil.
  - rewrite (Z.min_l i) by lia.
    destruct (Z.le_gt_cases (i + size) (Z.of_nat (length array))) as [Hfit|Hover].
    + rewrite Z.min_l by lia. f_equal. lia.
    + rewrite Z.min_r by lia. rewrite !take_ge; [done|rewrite length_drop; lia..].
Qed.

Lemma chunkLoop_covers {A} (array : list A) (size : Z) :
  0 < size →
  ∀ fuel i, 0 ≤ i → Z.of_nat (length array) - i ≤ Z.of_nat fuel →
    ∃ chunks, chunkLoop fuel array size i = Some chunks
              ∧ concat chunks = drop (Z.to_nat i) array
              ∧ Forall (λ chunk, (1 ≤ length chunk)%nat ∧ Z.of_nat (length chunk) ≤ size)
                       chunks.
Proof.
  intros Hsize. induction fuel as [|fuel IH]; intros i Hi Hfuel.
  - exists []. simpl. assert ((i <? Z.of_nat (length array)) = false) as -> by lia.
    split_and!; [done| |done]. rewrite drop_ge; [done|lia].
  - cbn [chunkLoop]. destruct (i <? Z.of_nat (length array)) eqn:Hlt.
    + apply Z.ltb_lt in Hlt.
      destruct (IH (i + size)) as (chunks & -> & Hcat & Hall); [lia..|].
      eexists. split; [reflexivity|]. rewrite array_slice_chunk by lia. split.
      * cbn [concat]. rewrite Hcat.
        replace (Z.to_nat (i + size)) with (Z.to_nat i + Z.to_nat size)%nat by lia.
        rewrite <- drop_drop. apply take_drop.
      * apply Forall_cons. split; [|done]. rewrite length_take, length_drop. lia.
    + exists []. split_and!; [done| |done]. apply Z.ltb_ge in Hlt.
      rewrite drop_ge; [done|lia].
Qed.

Lemma chunkLoop_diverges {A} (array : list A) (size : Z) :
  size ≤ 0 → ∀ fuel i, i < Z.of_nat (length array) → chunkLoop fuel array size i = None.
Proof.
  intros Hsize. induction fuel as [|fuel IH]; intros i Hi; cbn [chunkLoop];
    assert ((i <? Z.of_nat (length array)) = true) as -> by lia; [done|].
  rewrite IH by lia. done.
Qed.

(** X4: for a positive chunk size [chunkArray] terminates within as
    many iterations as the array has elements; the chunks, put one
    after the other, are the array, and every chunk has between 1 and
    [size] elements. *)
Theorem chunks_cover_the_array {A} (array : list A) (size : Z) (fuel : nat) :
  0 < size → (length array ≤ fuel)%nat →
  ∃ chunks, chunkArray fuel array size = Some chunks
            ∧ concat chunks = array
            ∧ Forall (λ chunk, (1 ≤ length chunk)%nat ∧ Z.of_nat (length chunk) ≤ size)
                     chunks.
Proof.
  intros Hsize Hfuel.
  destruct (chunkLoop_covers array size Hsize fuel 0) as (chunks & ? & ? & ?); [lia..|].
  by exists chunks.
Qed.

Lemma chunks_cover_the_array_witness :
  0 < BATCH_SIZE ∧ (length [SOL_MINT; USDC_MINT; sampleMint] ≤ 3)%nat ∧
  ∃ chunks, chunkArray 3 [SOL_MINT; USDC_MINT; sampleMint] BATCH_SIZE = Some chunks
            ∧ concat chunks = [SOL_MINT; USDC_MINT; sampleMint].
Proof.
  assert (0 < BATCH_SIZE) as Hsize by (unfold BATCH_SIZE; lia).
  assert ((length [SOL_MINT; USDC_MINT; sampleMint] ≤ 3)%nat) as Hfuel by (simpl; lia).
  destruct (chunks_cover_the_array [SOL_MINT; USDC_MINT; sampleMint] BATCH_SIZE 3 Hsize Hfuel)
    as (chunks & Hrun & Hcat & _).
  split_and!; [exact Hsize | exact Hfuel |]. exists chunks. by split.
Defined.

(** ** The validator and its cache *)

Lemma validateAddressFormat_env env1 env2 mint :
  publicKeyOk env2 mint = publicKeyOk env1 mint →
  validateAddressFormat env2 mint = validateAddressFormat env1 mint.
Proof. unfold validateAddressFormat. by intros ->. Qed.

Lemma validateTokenMint_native env w :
  ∃ r, validateTokenMint env SOL_MINT w = (Returned r, w) ∧ isValid r = true.
Proof. by eexists. Qed.

Lemma validateTokenMint_malformed env mint w :
  String.eqb mint SOL_MINT = false →
  isValid (validateAddressFormat env mint) = false →
  validateTokenMint env mint w = (Returned (validateAddressFormat env mint), w).
Proof.
  intros Hsol Hfmt. unfold validateTokenMint, try_catch. by rewrite Hsol, Hfmt.
Qed.

Lemma validateTokenMint_hit env mint w v :
  String.eqb mint SOL_MINT = false →
  isValid (validateAddressFormat env mint) = true →
  present (redis_lookup w (validation_key mint)) = Some v →
  validateTokenMint env mint w = (Returned (as_verdict v), w).
Proof.
  intros Hsol Hfmt Hhit. unfold validateTokenMint, try_catch, bind, redis_get, gets.
  rewrite Hsol, Hfmt. cbv beta zeta. cbn [negb]. by rewrite Hhit.
Qed.

Lemma validateTokenMint_miss env mint w :
  String.eqb mint SOL_MINT = false →
  isValid (validateAddressFormat env mint) = true →
  present (redis_lookup w (validation_key mint)) = None →
  ∃ r, validateOnChain env mint w = (Returned r, w) ∧
       validateTokenMint env mint w
       = (Returned r,
          with_redis (<[validation_key mint :=
                          (RVerdict r, Some (now w + VALIDATION_CACHE_TTL * 1000))]> (redis w)) w).
Proof.
  intros Hsol Hfmt Hmiss. destruct (validateOnChain_pure env mint w) as [r Hr].
  exists r. split; [done|].
  unfold validateTokenMint, try_catch, bind, redis_get, gets.
  rewrite Hsol, Hfmt. cbv beta zeta. cbn [negb]. by rewrite Hmiss, Hr.
Qed.

Lemma redis_lookup_later w key v expiry t :
  redis w !! key = Some (v, Some expiry) → t < expiry →
  redis_lookup (with_now t w) key = Some v.
Proof.
  intros Hkey Ht. unfold redis_lookup, live. cbn. rewrite Hkey. cbn.
  by rewrite (proj2 (Z.ltb_lt _ _) Ht).
Qed.

(** X5: a verdict that the validator worked out (its cache held none)
    is the verdict of every validation of that mint during the next
    hour, whatever the chain would answer then, and those validations
    change nothing. *)
Theorem verdict_cached_for_an_hour (env1 env2 : Env) (mint : string) (w : World) (dt : Z) :
  present (redis_lookup w (validation_key mint)) = None →
  publicKeyOk env2 mint = publicKeyOk env1 mint →
  0 ≤ dt < VALIDATION_CACHE_TTL * 1000 →
  let later := with_now (now w + dt) (run (validateTokenMint env1 mint) w) in
  validateTokenMint env2 mint later = (result (validateTokenMint env1 mint) w, later).
Proof.
  intros Hmiss Hkey Hdt later. subst later.
  destruct (String.eqb mint SOL_MINT) eqn:Hsol.
  { apply String.eqb_eq in Hsol as ->. reflexivity. }
  destruct (isValid (validateAddressFormat env1 mint)) eqn:Hfmt.
  - destruct (validateTokenMint_miss env1 mint w Hsol Hfmt Hmiss) as (r & _ & E).
    unfold run, result. rewrite E. cbn [fst snd].
    erewrite (validateTokenMint_hit env2 mint _ (RVerdict r)); [done|done| |].
    + by rewrite (validateAddressFormat_env env1 env2).
    + rewrite (redis_lookup_later _ _ (RVerdict r) (now w + VALIDATION_CACHE_TTL * 1000));
        [done| |lia].
      cbn. apply lookup_insert_eq.
  - unfold run, result. rewrite (validateTokenMint_malformed env1 mint w Hsol Hfmt).
    cbn [fst snd].
    rewrite <- (validateAddressFormat_env env1 env2 mint Hkey) in Hfmt |- *.
    by apply validateTokenMint_malformed.
Qed.

Lemma verdict_cached_for_an_hour_witness :
  present (redis_lookup (emptyWorld 0) (validation_key sampleMint)) = None ∧
  publicKeyOk offlineEnv sampleMint = publicKeyOk onlineEnv sampleMint ∧
  0 ≤ 1800000 < VALIDATION_CACHE_TTL * 1000 ∧
  validates offlineEnv sampleMint
    (with_now (now (emptyWorld 0) + 1800000)
       (run (validateTokenMint onlineEnv sampleMint) (emptyWorld 0))) = true.
Proof.
  assert (present (redis_lookup (emptyWorld 0) (validation_key sampleMint)) = None)
    as Hmiss by reflexivity.
  assert (publicKeyOk offlineEnv sampleMint = publicKeyOk onlineEnv sampleMint)
    as Hkey by reflexivity.
  assert (0 ≤ 1800000 < VALIDATION_CACHE_TTL * 1000) as Hdt by (unfold VALIDATION_CACHE_TTL; lia).
  split; [exact Hmiss|]. split; [exact Hkey|]. split; [exact Hdt|].
  unfold validates, result.
  rewrite (verdict_cached_for_an_hour onlineEnv offlineEnv sampleMint (emptyWorld 0)
             1800000 Hmiss Hkey Hdt).
  by vm_compute.
Defined.

(** ** What the validator accepts *)

Lemma validateAddressFormat_wellFormed env mint :
  isValid (validateAddressFormat env mint) = true → wellFormed env mint.
Proof.
  unfold validateAddressFormat, wellFormed.
  destruct (bool_decide (mint = "")); [done|].
  destruct ((String.length mint <? 32)%nat || (44 <? String.length mint)%nat) eqn:Hlen; [done|].
  destruct (base58Regex mint) eqn:Hre; [|done]. cbn [negb].
  destruct (publicKeyOk env mint); [|done]. intros _.
  apply orb_false_iff in Hlen as [H1 H2].
  apply Nat.ltb_ge in H1. apply Nat.ltb_ge in H2. split_and!; [lia..| |done].
  unfold base58Regex in Hre. destruct mint; [done|].
  apply Forall_forall. intros c Hc. apply list_elem_of_In in Hc.
  by apply (proj1 (forallb_forall _ _) Hre).
Qed.

(** X6: whatever its cache holds, the validator accepts no mint other
    than the native one unless the address is well formed: 32 to 44
    base58 characters that decode to a public key. *)
Theorem accepted_mint_is_well_formed (env : Env) (mint : string) (w : World) :
  validates env mint w = true → mint = SOL_MINT ∨ wellFormed env mint.
Proof.
  intros Hvalid. destruct (String.eqb mint SOL_MINT) eqn:Hsol.
  { left. by apply String.eqb_eq. }
  right. destruct (isValid (validateAddressFormat env mint)) eqn:Hfmt.
  - by apply validateAddressFormat_wellFormed.
  - unfold validates, result in Hvalid.
    rewrite (validateTokenMint_malformed env mint w Hsol Hfmt) in Hvalid.
    cbn [fst] in Hvalid. congruence.
Qed.

Lemma accepted_mint_is_well_formed_witness :
  validates onlineEnv sampleMint (emptyWorld 0) = true ∧
  (sampleMint = SOL_MINT ∨ wellFormed onlineEnv sampleMint).
Proof.
  assert (validates onlineEnv sampleMint (emptyWorld 0) = true) as Hvalid by (by vm_compute).
  split; [exact Hvalid|].
  exact (accepted_mint_is_well_formed onlineEnv sampleMint (emptyWorld 0) Hvalid).
Defined.

(** X7: a mint that the validator accepts on the answer of the chain
    (not the native mint, nothing cached) has an account owned by the
    token program or by Token-2022, between 0 and 18 decimals and a
    positive supply; the verdict carries those decimals and that
    supply. *)
Theorem accepted_on_chain_is_a_token_mint (env : Env) (mint : string) (w : World)
    (verdict : TokenValidationResult) :
  String.eqb mint SOL_MINT = false →
  present (redis_lookup w (validation_key mint)) = None →
  result (validateTokenMint env mint) w = Returned verdict →
  isValid verdict = true →
  ∃ owner value,
    getAccountInfo env mint = Returned (Some owner)
    ∧ (owner = TOKEN_PROGRAM_ID ∨ owner = TOKEN_2022_PROGRAM_ID)
    ∧ getTokenSupplyRpc env mint = Returned (Some value)
    ∧ 0 ≤ sv_decimals value ≤ 18
    ∧ (0 < sv_amount value / inject_Z (10 ^ sv_decimals value))%Q
    ∧ verdict = verdict_valid (Some (sv_decimals value))
                  (Some (sv_amount value / inject_Z (10 ^ sv_decimals value))%Q).
Proof.
  intros Hsol Hmiss Hrun Hvalid.
  destruct (isValid (validateAddressFormat env mint)) eqn:Hfmt.
  2:{ unfold result in Hrun. rewrite (validateTokenMint_malformed env mint w Hsol Hfmt) in Hrun.
      cbn [fst] in Hrun. congruence. }
  destruct (validateTokenMint_miss env mint w Hsol Hfmt Hmiss) as (r & Hchain & E).
  unfold result in Hrun. rewrite E in Hrun. cbn [fst] in Hrun. injection Hrun as ->.
  revert Hchain. unfold validateOnChain, validateSupply, try_catch, bind, call, ret, throw.
  destruct (publicKeyOk env mint); cbn [negb].
  2:{ intros [= <-]. done. }
  destruct (getAccountInfo env mint) as [[owner|]|e]; [| intros [= <-]; done..].
  destruct (negb (String.eqb owner TOKEN_PROGRAM_ID)
            && negb (String.eqb owner TOKEN_2022_PROGRAM_ID)) eqn:Howner.
  { intros [= <-]. done. }
  destruct (getTokenSupplyRpc env mint) as [[value|]|e]; [| intros [= <-]; done..].
  destruct ((sv_decimals value <? 0) || (18 <? sv_decimals value)) eqn:Hdec.
  { intros [= <-]. done. }
  destruct (Qle_bool (sv_amount value / inject_Z (10 ^ sv_decimals value)) 0) eqn:Hsupply.
  { intros [= <-]. done. }
  intros Hr.
  assert (verdict = verdict_valid (Some (sv_decimals value))
                      (Some (sv_amount value / inject_Z (10 ^ sv_decimals value))%Q)) as ->
    by (destruct (getTokenLargestAccountsRpc env mint); by injection Hr).
  exists owner, value. split_and!; try done.
  - apply andb_false_iff in Howner as [H|H]; apply negb_false_iff, String.eqb_eq in H; auto.
  - apply orb_false_iff in Hdec as [H _]. by apply Z.ltb_ge in H.
  - apply orb_false_iff in Hdec as [_ H]. by apply Z.ltb_ge in H.
  - apply Qnot_le_lt. intros H. apply Qle_bool_iff in H. congruence.
Qed.

Lemma accepted_on_chain_is_a_token_mint_witness :
  String.eqb sampleMint SOL_MINT = false ∧
  present (redis_lookup (emptyWorld 0) (validation_key sampleMint)) = None ∧
  ∃ verdict,
    result (validateTokenMint onlineEnv sampleMint) (emptyWorld 0) = Returned verdict ∧
    isValid verdict = true ∧
    ∃ owner, getAccountInfo onlineEnv sampleMint = Returned (Some owner)
             ∧ (owner = TOKEN_PROGRAM_ID ∨ owner = TOKEN_2022_PROGRAM_ID).
Proof.
  assert (String.eqb sampleMint SOL_MINT = false) as Hsol by reflexivity.
  assert (present (redis_lookup (emptyWorld 0) (validation_key sampleMint)) = None)
    as Hmiss by reflexivity.
  split_and!; [exact Hsol | exact Hmiss |].
  destruct (validateTokenMint_result onlineEnv sampleMint (emptyWorld 0)) as [verdict Hrun].
  exists verdict.
  assert (isValid verdict = true) as Hvalid.
  { assert (validates onlineEnv sampleMint (emptyWorld 0) = true) as Hv by (by vm_compute).
    unfold validates in Hv. by rewrite Hrun in Hv. }
  split_and!; [exact Hrun | exact Hvalid |].
  destruct (accepted_on_chain_is_a_token_mint onlineEnv sampleMint (emptyWorld 0) verdict
              Hsol Hmiss Hrun Hvalid) as (owner & value & Hinfo & Howner & _).
  by exists owner.
Defined.

(** ** The cleanup of an invalid mint *)




Lemma lookup_foldr_delete {V} (m : gmap string V) keys key :
  foldr delete m keys !! key = if bool_decide (key ∈ keys) then None else m !! key.
Proof.
  induction keys as [|k keys IH]; [done|]. cbn [foldr].
  destruct (decide (k = key)) as [->|Hne].
  - rewrite lookup_delete_eq. rewrite bool_decide_eq_true_2; [done|].
    apply elem_of_cons. by left.
  - rewrite lookup_delete_ne by done. rewrite IH.
    destruct (bool_decide (key ∈ keys)) eqn:Hin.
    + apply bool_decide_eq_true_1 in Hin. rewrite bool_decide_eq_true_2; [done|].
      apply elem_of_cons. by right.
    + apply bool_decide_eq_false_1 in Hin. rewrite bool_decide_eq_false_2; [done|].
      rewrite elem_of_cons. intros [?|?]; [congruence|done].
Qed.



Lemma matching_spec pattern w key :
  key ∈ matching pattern w ↔ Js.glob pattern key = true ∧ is_Some (redis_lookup w key).
Proof.
  unfold matching. rewrite list_elem_of_In, filter_In, <- list_elem_of_In.
  rewrite andb_true_iff, bool_decide_eq_true. split; [tauto|].
  intros [Hglob Hlive]. split; [|done].
  unfold redis_lookup in Hlive. destruct (redis w !! key) as [entry|] eqn:Hkey.
  - apply list_elem_of_fmap. exists (key, entry). split; [done|].
    by apply elem_of_map_to_list.
  - by destruct Hlive.
Qed.

Lemma wildcard_run pattern w :
  run (let* found := redis_keys pattern in
       match found with
       | [] => ret tt
       | _ => redis_del found
       end) w
  = run (redis_del (matching pattern w)) w.
Proof.
  unfold run, bind, redis_keys, gets. fold (matching pattern w).
  destruct (matching pattern w) eqn:E; [|done].
  unfold redis_del, modify, ret. cbn. by destruct w.
Qed.




Lemma cleanup_one_result key w : result (cleanup_one key) w = Returned tt.
Proof.
  unfold cleanup_one, result, bind, redis_keys, gets, redis_del, modify, ret.
  destruct (Js.includes key "*"); [|done]. cbn. by destruct (List.filter _ _).
Qed.

Lemma cleanup_cache_cons key rest w :
  run (cleanup_cache (key :: rest)) w = run (cleanup_cache rest) (run (cleanup_one key) w).
Proof.
  cbn [cleanup_cache]. fold (cleanup_one key). rewrite run_bind.
  by rewrite cleanup_one_result.
Qed.







(** ** Validation of a batch *)

Lemma validateAndCleanupOne_spec env mint acc w :
  ∃ w',
    published w' = published w ∧
    if validates env mint w then
      validateAndCleanupOne env mint acc w = (Returned (pushValid mint acc), w')
      ∧ tokenPrice w' = tokenPrice w ∧ priceHistory w' = priceHistory w
    else
      validateAndCleanupOne env mint acc w = (Returned (pushInvalid mint acc), w')
      ∧ match deleteFails env mint with
        | None => tokenPrice w' = delete mint (tokenPrice w) ∧
                  priceHistory w' = purgedHistory mint (priceHistory w)
        | Some _ => tokenPrice w' = tokenPrice w ∧ priceHistory w' = priceHistory w
        end.
Proof.
  unfold validates, result, validateAndCleanupOne, try_catch, bind.
  pose proof (validateTokenMint_keeps store _ store_blind_cache env mint w eq_refl) as Hv.
  unfold run in Hv.
  destruct (validateTokenMint_run env mint w) as (r & w1 & E & _). rewrite E in Hv |- *.
  cbn [fst snd] in *. unfold keeps, store in Hv. injection Hv as Htp Hph _ Hpub _.
  destruct (isValid r).
  - exists w1. by split_and!.
  - destruct (cleanupInvalidToken_store env mint w1) as (Hpub' & _ & Hdb).
    pose proof (result_try_catch_unit
                  (purge_rows env mint >> cleanup_cache (cleanup_keys mint)) w1) as Hres.
    fold (cleanupInvalidToken env mint) in Hres. unfold result, run in *.
    destruct (cleanupInvalidToken env mint w1) as [o w2]. cbn [fst snd] in *. subst o.
    exists w2. unfold ret. split; [congruence|]. split; [done|].
    rewrite <- Htp, <- Hph. exact Hdb.
Qed.

Lemma fold_delete_lookup {V} (mints : list string) : ∀ (table : gmap string V) m,
  fold_left (λ table m, delete m table) mints table !! m
  = if bool_decide (m ∈ mints) then None else table !! m.
Proof.
  induction mints as [|k mints IH]; intros table m; [done|]. cbn [fold_left].
  rewrite IH. destruct (decide (k = m)) as [->|Hne].
  - rewrite lookup_delete_eq. rewrite (bool_decide_eq_true_2 (m ∈ m :: mints)).
    + by destruct (bool_decide _).
    + apply elem_of_cons. by left.
  - rewrite lookup_delete_ne by done.
    destruct (bool_decide (m ∈ mints)) eqn:Hin.
    + apply bool_decide_eq_true_1 in Hin. rewrite bool_decide_eq_true_2; [done|].
      apply elem_of_cons. by right.
    + apply bool_decide_eq_false_1 in Hin. rewrite bool_decide_eq_false_2; [done|].
      rewrite elem_of_cons. intros [?|?]; [congruence|done].
Qed.

Lemma fold_purged_filter (mints : list string) : ∀ rows,
  fold_left (λ rows m, purgedHistory m rows) mints rows
  = List.filter (λ r, bool_decide (ph_tokenMint r ∉ mints)) rows.
Proof.
  induction mints as [|k mints IH]; intros rows.
  - cbn [fold_left]. induction rows as [|r rows IHr]; [done|]. cbn [List.filter].
    rewrite bool_decide_eq_true_2 by apply not_elem_of_nil. by rewrite <- IHr.
  - cbn [fold_left]. rewrite IH. unfold purgedHistory.
    induction rows as [|r rows IHr]; [done|]. cbn [List.filter].
    destruct (String.eqb (ph_tokenMint r) k) eqn:Hk; cbn [negb List.filter].
    + apply String.eqb_eq in Hk. rewrite (bool_decide_eq_false_2 (_ ∉ k :: mints)); [done|].
      intros Hnot. apply Hnot. apply elem_of_cons. by left.
    + apply String.eqb_neq in Hk. rewrite IHr.
      destruct (bool_decide (ph_tokenMint r ∉ mints)) eqn:Hin.
      * apply bool_decide_eq_true_1 in Hin. rewrite bool_decide_eq_true_2; [done|].
        rewrite elem_of_cons. intros [?|?]; [congruence|done].
      * apply bool_decide_eq_false_1 in Hin. rewrite bool_decide_eq_false_2; [done|].
        intros Hnot. apply Hin. intros Hm. apply Hnot. apply elem_of_cons. by right.
Qed.

Lemma validateAndCleanupLoop_spec env mints : ∀ acc w,
  ∃ accepted rejected w',
    validateAndCleanupLoop env mints acc w
    = (Returned {| bv_valid := (bv_valid acc ++ accepted)%list;
                   bv_invalid := (bv_invalid acc ++ rejected)%list |}, w')
    ∧ (accepted ++ rejected)%list ≡ₚ mints
    ∧ sublist accepted mints ∧ sublist rejected mints
    ∧ published w' = published w
    ∧ ((∀ m, m ∈ rejected → deleteFails env m = None) → purgedAll rejected w w').
Proof.
  induction mints as [|m mints IH]; intros acc w.
  - exists [], [], w. cbn. rewrite !app_nil_r. destruct acc. by split_and!.
  - cbn [validateAndCleanupLoop]. unfold bind at 1.
    destruct (validateAndCleanupOne_spec env m acc w) as (w1 & Hpub1 & Hone).
    destruct (validates env m w).
    + destruct Hone as (-> & Htp & Hph).
      destruct (IH (pushValid m acc) w1) as (vs & rs & w' & -> & Hperm & Hsv & Hsr & Hpub & Hdb).
      exists (m :: vs), rs, w'. cbn [pushValid bv_valid bv_invalid].
      rewrite <- !app_assoc. split_and!; try done.
      * cbn. by f_equiv.
      * by apply sublist_skip.
      * by apply sublist_cons.
      * congruence.
      * intros Hdel. destruct (Hdb Hdel) as [H1 H2]. split; congruence.
    + destruct Hone as (-> & Hdb1).
      destruct (IH (pushInvalid m acc) w1) as (vs & rs & w' & -> & Hperm & Hsv & Hsr & Hpub & Hdb).
      exists vs, (m :: rs), w'. cbn [pushInvalid bv_valid bv_invalid].
      rewrite <- !app_assoc. split_and!; try done.
      * rewrite <- Hperm. symmetry. apply Permutation_middle.
      * by apply sublist_cons.
      * by apply sublist_skip.
      * congruence.
      * intros Hdel. destruct Hdb as [H1 H2].
        { intros k Hk. apply Hdel, elem_of_cons. by right. }
        rewrite (Hdel m) in Hdb1 by (apply elem_of_cons; by left).
        destruct Hdb1 as [H3 H4]. split; cbn [fold_left]; congruence.
Qed.

(** X9: a batch validation sorts every mint of its input into exactly
    one of the two lists it answers with, each in input order, and
    publishes nothing; when the database accepts the deletions, the
    rows of the rejected mints, and only those, are gone from both
    tables afterwards. *)
Theorem batch_validation_partitions (env : Env) (mints : list string) (w : World) :
  ∃ results w',
    validateAndCleanupBatch env mints w = (Returned results, w')
    ∧ (bv_valid results ++ bv_invalid results)%list ≡ₚ mints
    ∧ sublist (bv_valid results) mints
    ∧ sublist (bv_invalid results) mints
    ∧ published w' = published w
    ∧ ((∀ m, m ∈ bv_invalid results → deleteFails env m = None) →
       (∀ m, tokenPrice w' !! m
             = if bool_decide (m ∈ bv_invalid results) then None else tokenPrice w !! m)
       ∧ priceHistory w'
         = List.filter (λ r, bool_decide (ph_tokenMint r ∉ bv_invalid results))
                       (priceHistory w)).
Proof.
  unfold validateAndCleanupBatch.
  destruct (validateAndCleanupLoop_spec env mints {| bv_valid := []; bv_invalid := [] |} w)
    as (vs & rs & w' & E & Hperm & Hsv & Hsr & Hpub & Hdb).
  cbn [bv_valid bv_invalid app] in E. eexists _, w'. split; [exact E|].
  cbn [bv_valid bv_invalid]. split_and!; try done.
  intros Hdel. destruct (Hdb Hdel) as [Htp Hph]. split.
  - intros m. rewrite Htp. apply fold_delete_lookup.
  - rewrite Hph. apply fold_purged_filter.
Qed.

Lemma batch_validation_partitions_witness :
  (∀ m, deleteFails goneEnv m = None) ∧
  ∃ results w',
    validateAndCleanupBatch goneEnv [sampleMint; SOL_MINT] trackedWorld
    = (Returned results, w')
    ∧ (bv_valid results ++ bv_invalid results)%list ≡ₚ [sampleMint; SOL_MINT]
    ∧ ∀ m, tokenPrice w' !! m
           = if bool_decide (m ∈ bv_invalid results) then None
             else tokenPrice trackedWorld !! m.
Proof.
  assert (∀ m, deleteFails goneEnv m = None) as Hdel by reflexivity.
  split; [exact Hdel|].
  destruct (batch_validation_partitions goneEnv [sampleMint; SOL_MINT] trackedWorld)
    as (results & w' & E & Hperm & _ & _ & _ & Hdb).
  exists results, w'. split; [exact E|]. split; [exact Hperm|].
  exact (proj1 (Hdb (λ m _, Hdel m))).
Defined.

(** ** The price caches *)

Lemma redis_lookup_fresh w key v seconds dt key' :
  key' = key → 0 ≤ dt < seconds * 1000 →
  redis_lookup (with_now (now w + dt) (run (redis_setex key seconds v) w)) key' = Some v.
Proof.
  intros -> Hdt. apply (redis_lookup_later _ _ _ (now w + seconds * 1000)); [|lia].
  cbn. apply lookup_insert_eq.
Qed.

(** X10: a supply read from the chain (the cache held none) is the
    answer of every supply request for that mint during the next hour,
    whatever the chain would answer then, and those requests change
    nothing. *)
Theorem supply_cached_for_an_hour (env1 env2 : Env) (mint : string) (w : World)
    (value : SupplyValue) (dt : Z) :
  present (redis_lookup w (supply_key mint)) = None →
  publicKeyOk env1 mint = true →
  getTokenSupplyRpc env1 mint = Returned (Some value) →
  0 ≤ dt < 3600 * 1000 →
  let later := with_now (now w + dt) (run (getTokenSupply env1 mint) w) in
  result (getTokenSupply env1 mint) w = Returned (reportedSupply value) ∧
  getTokenSupply env2 mint later = (Returned (reportedSupply value), later).
Proof.
  intros Hmiss Hkey Hrpc Hdt later.
  assert (getTokenSupply env1 mint w
          = (Returned (reportedSupply value),
             run (redis_setex (supply_key mint) 3600 (RNumber (reportedSupply value))) w))
    as E.
  { unfold getTokenSupply, try_catch, bind, redis_get, gets, call. fold (supply_key mint).
    cbv beta zeta. rewrite Hmiss, Hkey, Hrpc. reflexivity. }
  assert (run (getTokenSupply env1 mint) w
          = run (redis_setex (supply_key mint) 3600 (RNumber (reportedSupply value))) w)
    as Hrun by (unfold run at 1; by rewrite E).
  subst later. rewrite Hrun. split; [unfold result; by rewrite E|]. clear E Hrun.
  unfold getTokenSupply, try_catch, bind, redis_get, gets. fold (supply_key mint).
  cbv beta zeta. rewrite redis_lookup_fresh; [|done|done]. reflexivity.
Qed.

Lemma supply_cached_for_an_hour_witness :
  present (redis_lookup (emptyWorld 0) (supply_key sampleMint)) = None ∧
  publicKeyOk onlineEnv sampleMint = true ∧
  0 ≤ 60000 < 3600 * 1000 ∧
  ∃ supply,
    result (getTokenSupply onlineEnv sampleMint) (emptyWorld 0) = Returned supply ∧
    result (getTokenSupply offlineEnv sampleMint)
      (with_now (now (emptyWorld 0) + 60000)
         (run (getTokenSupply onlineEnv sampleMint) (emptyWorld 0)))
    = Returned supply.
Proof.
  assert (present (redis_lookup (emptyWorld 0) (supply_key sampleMint)) = None)
    as Hmiss by reflexivity.
  assert (publicKeyOk onlineEnv sampleMint = true) as Hkey by reflexivity.
  assert (0 ≤ 60000 < 3600 * 1000) as Hdt by lia.
  split; [exact Hmiss|]. split; [exact Hkey|]. split; [exact Hdt|].
  destruct (supply_cached_for_an_hour onlineEnv offlineEnv sampleMint (emptyWorld 0)
              {| sv_amount := 555000000000000 # 1; sv_decimals := 6 |} 60000
              Hmiss Hkey eq_refl Hdt) as [Hfirst Hsecond].
  eexists. split; [exact Hfirst|]. unfold result at 1. by rewrite Hsecond.
Defined.

Lemma fetched_price_run env mint w price :
  String.eqb mint SOL_MINT = false →
  cachedPrice mint w = None →
  fetchedPrice env mint = Some price →
  getTokenPriceInSolOptimized env mint w
  = (Returned price, run (redis_setex (price_key mint) 5 (RTimedPrice price (now w))) w).
Proof.
  intros Hsol Hmiss Hfetch.
  unfold getTokenPriceInSolOptimized, tryDexScreener, tryPool, cache_price, try_catch,
    bind, redis_get, gets, call, ret, throw, run, redis_setex, modify.
  rewrite Hsol. cbv beta zeta. unfold cachedPrice in Hmiss. rewrite Hmiss.
  unfold fetchedPrice, aggregatorPrice, poolPrice in Hfetch.
  destruct (dexScreenerTokenPrice env mint) as [[r|]|e];
    [destruct (Qpositive (br_priceInSol r))|..];
    (try by simplify_eq/=);
    (destruct (tokenPriceFromPool env mint) as [p|?]; [destruct (Qpositive p)|]);
    by simplify_eq/=.
Qed.

(** X11: a price that the dispatch fetched from the aggregator, or from
    the pool when the aggregator had none, is the answer of every
    request for that mint during the next five seconds, whatever the
    two sources would answer then, and those requests change nothing. *)
Theorem price_cached_for_five_seconds (env1 env2 : Env) (mint : string) (w : World)
    (price : Q) (dt : Z) :
  String.eqb mint SOL_MINT = false →
  cachedPrice mint w = None →
  fetchedPrice env1 mint = Some price →
  0 ≤ dt < 5000 →
  let later := with_now (now w + dt) (run (getTokenPriceInSolOptimized env1 mint) w) in
  result (getTokenPriceInSolOptimized env1 mint) w = Returned price ∧
  getTokenPriceInSolOptimized env2 mint later = (Returned price, later).
Proof.
  intros Hsol Hmiss Hfetch Hdt later.
  pose proof (fetched_price_run env1 mint w price Hsol Hmiss Hfetch) as E.
  assert (run (getTokenPriceInSolOptimized env1 mint) w
          = run (redis_setex (price_key mint) 5 (RTimedPrice price (now w))) w)
    as Hrun by (unfold run at 1; by rewrite E).
  subst later. rewrite Hrun. split; [unfold result; by rewrite E|]. clear E Hrun.
  unfold getTokenPriceInSolOptimized, try_catch, bind at 1 2, redis_get, gets.
  rewrite Hsol. cbv beta zeta. rewrite redis_lookup_fresh; [|done|lia].
  cbn [present truthy mbind option_bind fresh_price now with_now].
  replace (now (run (redis_setex (price_key mint) 5 (RTimedPrice price (now w))) w))
    with (now w) by reflexivity.
  assert ((now w + dt - now w <? 5000) = true) as -> by lia. reflexivity.
Qed.

Lemma price_cached_for_five_seconds_witness :
  String.eqb sampleMint SOL_MINT = false ∧
  cachedPrice sampleMint (emptyWorld 0) = None ∧
  fetchedPrice onlineEnv sampleMint = Some (1 # 100)%Q ∧
  0 ≤ 4000 < 5000 ∧
  result (getTokenPriceInSolOptimized offlineEnv sampleMint)
    (with_now (now (emptyWorld 0) + 4000)
       (run (getTokenPriceInSolOptimized onlineEnv sampleMint) (emptyWorld 0)))
  = Returned (1 # 100)%Q.
Proof.
  assert (String.eqb sampleMint SOL_MINT = false) as Hsol by reflexivity.
  assert (cachedPrice sampleMint (emptyWorld 0) = None) as Hmiss by reflexivity.
  assert (fetchedPrice onlineEnv sampleMint = Some (1 # 100)%Q) as Hfetch by reflexivity.
  assert (0 ≤ 4000 < 5000) as Hdt by lia.
  split; [exact Hsol|]. split; [exact Hmiss|]. split; [exact Hfetch|]. split; [exact Hdt|].
  destruct (price_cached_for_five_seconds onlineEnv offlineEnv sampleMint (emptyWorld 0)
              (1 # 100)%Q 4000 Hsol Hmiss Hfetch Hdt) as [_ Hsecond].
  unfold result. by rewrite Hsecond.
Defined.

(** X12: a SOL price fetched from the aggregator (neither cache held a
    fresh one) is the answer of every request during the next thirty
    seconds, whatever the sources would answer then. *)
Theorem sol_price_cached_for_thirty_seconds (env1 env2 : Env) (w : World) (dt : Z) :
  cachedSolPrice w = None →
  rememberedSolPrice w = None →
  Qpositive (dexScreenerSolPrice env1) = true →
  0 ≤ dt < SOL_PRICE_CACHE_TTL →
  let later := with_now (now w + dt) (run (getSolPriceUsd env1) w) in
  result (getSolPriceUsd env1) w = Returned (dexScreenerSolPrice env1) ∧
  getSolPriceUsd env2 later = (Returned (dexScreenerSolPrice env1), later).
Proof.
  intros Hredis Hmemory Hpos Hdt later.
  assert (getSolPriceUsd env1 w
          = (Returned (dexScreenerSolPrice env1),
             run (remember_sol_price (dexScreenerSolPrice env1) (now w)) w)) as E.
  { unfold getSolPriceUsd, try_catch, bind at 1 2, redis_get, gets. cbv beta zeta.
    unfold cachedSolPrice in Hredis. rewrite Hredis.
    unfold bind at 1. cbv beta. unfold rememberedSolPrice in Hmemory. rewrite Hmemory.
    unfold bind at 1, trySolFromDexScreener. rewrite Hpos. reflexivity. }
  assert (run (getSolPriceUsd env1) w
          = run (remember_sol_price (dexScreenerSolPrice env1) (now w)) w)
    as Hrun by (unfold run at 1; by rewrite E).
  subst later. rewrite Hrun. split; [unfold result; by rewrite E|]. clear E Hrun.
  unfold SOL_PRICE_CACHE_TTL in Hdt.
  unfold getSolPriceUsd, try_catch, bind at 1 2, redis_get, gets. cbv beta zeta.
  assert (redis_lookup
            (with_now (now w + dt)
               (run (remember_sol_price (dexScreenerSolPrice env1) (now w)) w))
            "sol_usd_price"
          = Some (RTimedPrice (dexScreenerSolPrice env1) (now w))) as ->.
  { apply (redis_lookup_later _ _ _ (now w + 30 * 1000)); [|lia]. cbn. apply lookup_insert_eq. }
  cbn [present truthy mbind option_bind fresh_price now with_now].
  unfold SOL_PRICE_CACHE_TTL.
  assert ((now w + dt - now w <? 30000) = true) as -> by lia. reflexivity.
Qed.

Lemma sol_price_cached_for_thirty_seconds_witness :
  cachedSolPrice (emptyWorld 0) = None ∧
  rememberedSolPrice (emptyWorld 0) = None ∧
  Qpositive (dexScreenerSolPrice onlineEnv) = true ∧
  0 ≤ 29999 < SOL_PRICE_CACHE_TTL ∧
  result (getSolPriceUsd offlineEnv)
    (with_now (now (emptyWorld 0) + 29999) (run (getSolPriceUsd onlineEnv) (emptyWorld 0)))
  = Returned (dexScreenerSolPrice onlineEnv).
Proof.
  assert (cachedSolPrice (emptyWorld 0) = None) as Hredis by reflexivity.
  assert (rememberedSolPrice (emptyWorld 0) = None) as Hmemory by reflexivity.
  assert (Qpositive (dexScreenerSolPrice onlineEnv) = true) as Hpos by reflexivity.
  assert (0 ≤ 29999 < SOL_PRICE_CACHE_TTL) as Hdt by (unfold SOL_PRICE_CACHE_TTL; lia).
  split; [exact Hredis|]. split; [exact Hmemory|]. split; [exact Hpos|]. split; [exact Hdt|].
  destruct (sol_price_cached_for_thirty_seconds onlineEnv offlineEnv (emptyWorld 0) 29999
              Hredis Hmemory Hpos Hdt) as [_ Hsecond].
  unfold result. by rewrite Hsecond.
Defined.

(** ** The snapshot of an update *)

Lemma getTokenPrice_shape env mint w d w' :
  getTokenPrice env mint w = (Returned d, w') →
  tokenMint d = mint ∧ timestamp d = now w' ∧
  marketCap d = (priceUsd d * totalSupply d)%Q.
Proof.
  unfold getTokenPrice, bind, gets, ret, throw.
  repeat case_match; simpl; intros; by simplify_eq.
Qed.

Lemma native_price_is_one env w :
  getTokenPriceInSolOptimized env SOL_MINT w = (Returned 1%Q, w).
Proof. reflexivity. Qed.

Lemma getTokenPrice_native env w d :
  result (getTokenPrice env SOL_MINT) w = Returned d → priceInSol d = 1%Q.
Proof.
  unfold result, getTokenPrice, bind at 1.
  destruct (validateTokenMint env SOL_MINT w) as [[validation|e] w1]; [|done].
  destruct (isValid validation); cbn [negb]; [|done].
  unfold bind at 1. destruct (getTokenSupply env SOL_MINT w1) as [[s|e] w2]; [|done].
  unfold bind at 1. rewrite native_price_is_one.
  unfold bind, gets, ret. destruct (getSolPriceUsd env w2) as [[p|e] w3]; [|done].
  cbn [fst]. by intros [= <-].
Qed.




(** X14: the engine always has a snapshot for the native mint, whatever
    the outside services answer: it carries the native mint, a price
    of exactly one SOL and the time of the request. *)
Theorem native_mint_is_always_priced (env : Env) (w : World) :
  ∃ d, result (getTokenPrice env SOL_MINT) w = Returned d
       ∧ tokenMint d = SOL_MINT ∧ priceInSol d = 1%Q ∧ timestamp d = now w
       ∧ marketCap d = (priceUsd d * totalSupply d)%Q.
Proof.
  pose proof (getTokenPrice_keeps now _ now_blind_cache env SOL_MINT w eq_refl) as Hnow.
  pose proof (getTokenPrice_native env w) as Hone.
  pose proof (getTokenPrice_shape env SOL_MINT w) as Hshape.
  unfold keeps, run in Hnow. unfold result in *.
  assert (∃ d w', getTokenPrice env SOL_MINT w = (Returned d, w')) as (d & w' & E).
  { unfold getTokenPrice, bind at 1.
    change (validateTokenMint env SOL_MINT w)
      with (Returned {| isValid := true; reason := None; decimals := Some 9;
                        supply := Some (589000000 # 1); name := Some "Solana";
                        symbol := Some "SOL" |}, w).
    cbn [isValid negb]. unfold bind at 1.
    assert (∃ s, result (getTokenSupply env SOL_MINT) w = Returned s) as [s Hs]
      by apply result_try_catch_ret.
    unfold result in Hs.
    destruct (getTokenSupply env SOL_MINT w) as [o w1]. cbn [fst] in Hs. subst o.
    unfold bind at 1. rewrite native_price_is_one. unfold bind at 1.
    assert (∃ p, result (getSolPriceUsd env) w1 = Returned p) as [p Hp]
      by apply result_try_catch_ret.
    unfold result in Hp. destruct (getSolPriceUsd env w1) as [o w2]. cbn [fst] in Hp. subst o.
    by eexists _, _. }
  rewrite E in *. cbn [fst snd] in *. exists d.
  destruct (Hshape d w' eq_refl) as (Hmint & Hstamp & Hcap).
  split_and!; [done|done|by apply Hone|congruence|done].
Qed.

(** ** Components that the queue operations leave alone *)

Section BlindToQueue.
Context {A : Type} (proj : World → A) (x : A).
Context (Hcache : blind_cache proj) (Hqueue : blind_queue proj).

Let Hredis := proj1 Hcache.

Lemma removeRepeatables_keeps jid rs : preserves (keeps proj x) (removeRepeatables jid rs).
Proof. pose proof Hqueue. induction rs; simpl; unfold queue_removeRepeatable; pres. Qed.

Lemma removeInstances_keeps m js : preserves (keeps proj x) (removeInstances m js).
Proof. pose proof Hqueue. induction js; simpl; unfold job_remove; pres. Qed.

Lemma removeFromStates_keeps m sts : preserves (keeps proj x) (removeFromStates m sts).
Proof.
  pose proof removeInstances_keeps. induction sts; simpl; unfold queue_getJobs; pres.
Qed.

Lemma obliterate_keeps m : preserves (keeps proj x) (obliterateTokenJobs m).
Proof.
  pose proof Hredis. pose proof removeRepeatables_keeps. pose proof removeFromStates_keeps.
  unfold obliterateTokenJobs, queue_getRepeatableJobs. pres.
Qed.

Lemma removeTokenFromTracking_keeps_cache env m :
  (∀ tp ph s w, proj (with_db tp ph s w) = proj w) →
  preserves (keeps proj x) (removeTokenFromTracking env m).
Proof.
  intros Hd. pose proof Hredis. pose proof obliterate_keeps.
  unfold removeTokenFromTracking, db_deleteHistory, db_deleteTokenPrice. pres.
Qed.

End BlindToQueue.

Lemma store_blind_queue : blind_queue store.
Proof. by intros ? ? ?. Qed.

Lemma counter_blind_cache : blind_cache pollingJobsTotal.
Proof. by split. Qed.
Lemma counter_blind_store : blind_store pollingJobsTotal.
Proof. by split. Qed.
Lemma counter_blind_queue : blind_queue pollingJobsTotal.
Proof. by intros ? ? ?. Qed.

Lemma published_blind_cache : blind_cache published.
Proof. by split. Qed.
Lemma tokenPrice_blind_cache : blind_cache tokenPrice.
Proof. by split. Qed.
Lemma published_blind_queue : blind_queue published.
Proof. by intros ? ? ?. Qed.

(** ** A ban *)

(** The two deletions of a ban are statements of their own: the
    history is purged unless its deletion fails, and the latest row is
    deleted when neither fails. *)
Lemma removeTokenFromTracking_tables env mint w :
  let w' := run (removeTokenFromTracking env mint) w in
  priceHistory w'
  = match deleteHistoryFails env mint with
    | None => purgedHistory mint (priceHistory w)
    | Some _ => priceHistory w
    end
  ∧ tokenPrice w'
    = match deleteFails env mint with
      | None => delete mint (tokenPrice w)
      | Some _ => tokenPrice w
      end.
Proof.
  intros w'. subst w'. unfold removeTokenFromTracking.
  rewrite (run_try_catch_ret _ (λ _, tt)), run_bind. cbn [result redis_setex modify fst].
  rewrite run_bind.
  pose proof (obliterate_keeps store (store w) store_blind_cache store_blind_queue mint
                (run (redis_setex (invalidKey mint) 86400 (RText "true")) w) eq_refl) as Hk.
  revert Hk.
  generalize (run (obliterateTokenJobs mint)
                (run (redis_setex (invalidKey mint) 86400 (RText "true")) w)).
  intros w1 Hk. unfold keeps, store in Hk. injection Hk as Htp Hph _ _ _.
  assert (result (obliterateTokenJobs mint)
            (run (redis_setex (invalidKey mint) 86400 (RText "true")) w) = Returned tt)
    as -> by apply result_try_catch_unit.
  unfold run, bind, db_deleteHistory, db_deleteTokenPrice, failing, modify, throw,
    deleteFails.
  destruct (deleteHistoryFails env mint), (deleteTokenPriceFails env mint); cbn;
    by rewrite Htp, Hph.
Qed.

Lemma removeTokenFromTracking_published env mint w :
  published (run (removeTokenFromTracking env mint) w) = published w.
Proof.
  apply (removeTokenFromTracking_keeps_cache published (published w)
           published_blind_cache published_blind_queue env mint); done.
Qed.

Lemma removeTokenFromTracking_repeatable env mint w :
  keyed w → repeatable (run (removeTokenFromTracking env mint) w) = repeatable w.
Proof.
  intros Hkeyed. unfold removeTokenFromTracking.
  rewrite (run_try_catch_ret _ (λ _, tt)), run_bind. cbn [result redis_setex modify fst].
  rewrite run_bind.
  pose proof (obliterate_repeatable mint
                (run (redis_setex (invalidKey mint) 86400 (RText "true")) w) Hkeyed) as Ho.
  revert Ho.
  generalize (run (obliterateTokenJobs mint)
                (run (redis_setex (invalidKey mint) 86400 (RText "true")) w)).
  intros w1 Ho. cbn [run redis_setex modify snd repeatable with_redis] in Ho.
  destruct (result (obliterateTokenJobs mint) _); [|exact Ho].
  rewrite <- Ho.
  assert (preserves (keeps repeatable (repeatable w1))
            (db_deleteHistory env mint >> db_deleteTokenPrice env mint)) as Hp
    by (unfold db_deleteHistory, db_deleteTokenPrice; pres).
  exact (Hp w1 eq_refl).
Qed.

(** X15: a ban returns normally whatever the database does; it leaves
    the ban key set for 24 hours from now, and it publishes nothing.
    It takes no repeatable job out of a queue whose jobs were all
    added under a job id, as those of the worker are.  Its two
    deletions are statements of their own: the history of the mint is
    purged unless the first fails, and the latest row is deleted when
    neither fails, so that a failure of the second leaves the history
    purged and the row in place. *)
Theorem ban_sets_key_and_purges (env : Env) (mint : string) (w : World) :
  let w' := run (removeTokenFromTracking env mint) w in
  result (removeTokenFromTracking env mint) w = Returned tt
  ∧ banned mint (now w + BAN_TTL_MS) w'
  ∧ present (redis_lookup w' (invalidKey mint)) = Some (RText "true")
  ∧ (keyed w → repeatable w' = repeatable w)
  ∧ published w' = published w
  ∧ priceHistory w'
    = match deleteHistoryFails env mint with
      | None => purgedHistory mint (priceHistory w)
      | Some _ => priceHistory w
      end
  ∧ tokenPrice w'
    = match deleteFails env mint with
      | None => delete mint (tokenPrice w)
      | Some _ => tokenPrice w
      end.
Proof.
  intros w'. destruct (ban_establishes env mint w) as (Hbanned & Hnow).
  cbn [step] in Hbanned, Hnow. fold w' in Hbanned, Hnow.
  split_and!.
  - apply result_try_catch_unit.
  - done.
  - apply (banned_live mint (now w + BAN_TTL_MS)); [done|]. rewrite Hnow.
    unfold BAN_TTL_MS. lia.
  - apply removeTokenFromTracking_repeatable.
  - apply removeTokenFromTracking_published.
  - apply removeTokenFromTracking_tables.
  - apply removeTokenFromTracking_tables.
Qed.

Lemma ban_sets_key_and_purges_witness :
  keyed trackedWorld ∧
  repeatingJobs sampleMint trackedWorld = 1%nat ∧
  repeatingJobs sampleMint (run (removeTokenFromTracking goneEnv sampleMint) trackedWorld)
  = 1%nat ∧
  present (redis_lookup (run (removeTokenFromTracking goneEnv sampleMint) trackedWorld)
             (invalidKey sampleMint)) = Some (RText "true") ∧
  tokenPrice (run (removeTokenFromTracking goneEnv sampleMint) trackedWorld) = ∅ ∧
  priceHistory (run (removeTokenFromTracking halfDeleteEnv sampleMint) trackedWorld) = [] ∧
  tokenPrice (run (removeTokenFromTracking halfDeleteEnv sampleMint) trackedWorld)
  = tokenPrice trackedWorld.
Proof.
  assert (keyed trackedWorld) as Hkeyed.
  { apply Forall_cons. split; [apply jobId_not_empty | apply Forall_nil_2]. }
  destruct (ban_sets_key_and_purges goneEnv sampleMint trackedWorld)
    as (_ & _ & Hban & Hqueue & _ & _ & Hrow).
  destruct (ban_sets_key_and_purges halfDeleteEnv sampleMint trackedWorld)
    as (_ & _ & _ & _ & _ & Hhistory & Hkept).
  split_and!; [exact Hkeyed | reflexivity | | exact Hban | | exact Hhistory | exact Hkept].
  - unfold repeatingJobs. by rewrite (Hqueue Hkeyed).
  - rewrite Hrow. cbn [deleteFails goneEnv deleteHistoryFails deleteTokenPriceFails].
    apply delete_singleton_eq.
Defined.

(** ** The processor *)

Lemma worker_banned_run env mint w v :
  present (redis_lookup w (invalidKey mint)) = Some v →
  worker env mint w = removeTokenFromTracking env mint w.
Proof. intros Hban. unfold worker, bind, redis_get, gets. by rewrite Hban. Qed.

(** X16: the processor of the worker never fails a job.  On a mint
    whose ban key is set it runs the ban again and counts nothing; on
    any other mint it runs one update and counts one success, whether
    or not the update found the mint valid and whether or not it
    stored anything: the statuses invalid and error are never counted. *)
Theorem worker_never_fails (env : Env) (mint : string) (w : World) :
  result (worker env mint) w = Returned tt ∧
  match present (redis_lookup w (invalidKey mint)) with
  | Some _ =>
      run (worker env mint) w = run (removeTokenFromTracking env mint) w ∧
      pollingJobsTotal (run (worker env mint) w) = pollingJobsTotal w ∧
      published (run (worker env mint) w) = published w
  | None =>
      run (worker env mint) w
      = run (inc mint "success") (run (updateTokenPrice env mint) w) ∧
      pollingJobsTotal (run (worker env mint) w)
      = (pollingJobsTotal w ++ [(mint, "success")])%list
  end.
Proof.
  destruct (present (redis_lookup w (invalidKey mint))) as [v|] eqn:Hban.
  - assert (run (worker env mint) w = run (removeTokenFromTracking env mint) w) as Hrun
      by (unfold run; by rewrite (worker_banned_run env mint w v Hban)).
    assert (result (worker env mint) w = result (removeTokenFromTracking env mint) w) as ->
      by (unfold result; by rewrite (worker_banned_run env mint w v Hban)).
    rewrite Hrun. split_and!.
    + apply result_try_catch_unit.
    + done.
    + apply (removeTokenFromTracking_keeps_cache pollingJobsTotal (pollingJobsTotal w)
               counter_blind_cache counter_blind_queue env mint); done.
    + apply removeTokenFromTracking_published.
  - assert (run (worker env mint) w
            = run (inc mint "success") (run (updateTokenPrice env mint) w)) as Hrun
      by (unfold run at 1; by rewrite (worker_unbanned env mint w Hban)).
    assert (result (worker env mint) w = Returned tt) as ->
      by (unfold result; by rewrite (worker_unbanned env mint w Hban)).
    rewrite Hrun. split_and!; [done..|].
    pose proof (updateTokenPrice_keeps pollingJobsTotal (pollingJobsTotal w)
                  counter_blind_cache counter_blind_store env mint w eq_refl) as Hk.
    unfold keeps in Hk. cbn. by rewrite Hk.
Qed.

(** ** Removal of the job instances *)




(** *** What an obliteration spares *)





(** *** What it removes when no worker holds an instance of the mint *)
















(** ** Start-up *)

Lemma tracked_spec mint w :
  mint ∈ (findTokenPrices w).*1 ↔ is_Some (tokenPrice w !! mint).
Proof.
  unfold findTokenPrices. rewrite merge_sort_Permutation. split.
  - intros Hin. apply list_elem_of_fmap in Hin as ([m row] & -> & Hin).
    apply elem_of_map_to_list in Hin. by eexists.
  - intros [row Hrow]. apply list_elem_of_fmap. exists (mint, row). split; [done|].
    by apply elem_of_map_to_list.
Qed.

Lemma tracked_NoDup w : NoDup (findTokenPrices w).*1.
Proof.
  unfold findTokenPrices. rewrite merge_sort_Permutation. apply NoDup_fst_map_to_list.
Qed.

Lemma purgeBanned_cons env m mints w :
  purgeBanned env (m :: mints) w
  = if banLive m w then
      match deleteHistoryFails env m, deleteTokenPriceFails env m with
      | None, None =>
          purgeBanned env mints
            (with_db (delete m (tokenPrice w)) (purgedHistory m (priceHistory w))
                     (historySeq w) w)
      | None, Some e =>
          (Thrown e, with_db (tokenPrice w) (purgedHistory m (priceHistory w))
                             (historySeq w) w)
      | Some e, _ => (Thrown e, w)
      end
    else purgeBanned env mints w.
Proof.
  unfold banLive. cbn [purgeBanned].
  unfold bind, redis_get, gets, db_deleteHistory, db_deleteTokenPrice, failing, modify,
    throw, ret.
  destruct (present (redis_lookup w (invalidKey m))); cbn; [|done].
  by destruct (deleteHistoryFails env m), (deleteTokenPriceFails env m).
Qed.

Lemma banLive_with_db m tp ph s w : banLive m (with_db tp ph s w) = banLive m w.
Proof. reflexivity. Qed.

(** The loop of the cleanup: it purges the banned mints in order up to
    the first deletion that the database refuses, and stops there. *)
Lemma purgeBanned_run env mints : ∀ w,
  let w' := run (purgeBanned env mints) w in
  redis w' = redis w ∧ now w' = now w ∧ published w' = published w
  ∧ repeatable w' = repeatable w
  ∧ ∃ before after,
      mints = (before ++ after)%list
      ∧ (∀ m, m ∈ before → banLive m w = true → deleteFails env m = None)
      ∧ tokenPrice w'
        = fold_left (λ table m, delete m table) (List.filter (λ m, banLive m w) before)
                    (tokenPrice w)
      ∧ match after with
        | [] =>
            result (purgeBanned env mints) w = Returned tt
            ∧ priceHistory w'
              = fold_left (λ rows m, purgedHistory m rows)
                          (List.filter (λ m, banLive m w) before) (priceHistory w)
        | m0 :: _ =>
            banLive m0 w = true ∧ deleteFails env m0 ≠ None
            ∧ priceHistory w'
              = fold_left (λ rows m, purgedHistory m rows)
                  (List.filter (λ m, banLive m w) before ++
                   match deleteHistoryFails env m0 with None => [m0] | Some _ => [] end)
                  (priceHistory w)
        end.
Proof.
  induction mints as [|m mints IH]; intros w w'; subst w'.
  - split_and!; [done..|]. exists [], []. split_and!; try done.
    intros m Hm. by apply elem_of_nil in Hm.
  - unfold result, run. rewrite purgeBanned_cons.
    destruct (banLive m w) eqn:Hban.
    + destruct (deleteHistoryFails env m) as [e|] eqn:Hh;
        [|destruct (deleteTokenPriceFails env m) as [e|] eqn:Ht].
      * split_and!; [done..|]. exists [], (m :: mints). cbn. rewrite Hh.
        split_and!; try done; [intros k Hk; by apply elem_of_nil in Hk|].
        unfold deleteFails. by rewrite Hh.
      * split_and!; [done..|]. exists [], (m :: mints). cbn. rewrite Hh.
        split_and!; try done; [intros k Hk; by apply elem_of_nil in Hk|].
        unfold deleteFails. by rewrite Hh, Ht.
      * destruct (IH (with_db (delete m (tokenPrice w)) (purgedHistory m (priceHistory w))
                              (historySeq w) w))
          as (Hredis & Hnow & Hpub & Hrep & before & after & -> & Hok & Htp & Hafter).
        unfold result, run in *. split_and!; [done..|].
        exists (m :: before), after. cbn [List.filter app]. rewrite Hban.
        split_and!; [done| |exact Htp|].
        -- intros k Hk Hlive. apply elem_of_cons in Hk as [->|Hk].
           ++ unfold deleteFails. by rewrite Hh, Ht.
           ++ by apply Hok.
        -- destruct after as [|m0 after]; exact Hafter.
    + destruct (IH w) as (Hredis & Hnow & Hpub & Hrep & before & after & -> & Hok & Htp & Hafter).
      unfold result, run in *. split_and!; [done..|].
      exists (m :: before), after. cbn [List.filter app]. rewrite Hban.
      split_and!; [done| |exact Htp|exact Hafter].
      intros k Hk Hlive. apply elem_of_cons in Hk as [->|Hk]; [congruence|by apply Hok].
Qed.

Lemma purged_rows (before : list string) (w : World) (table : gmap string TokenPriceRow) m :
  fold_left (λ table m, delete m table) (List.filter (λ m, banLive m w) before) table !! m
  = if bool_decide (m ∈ before) && banLive m w then None else table !! m.
Proof.
  rewrite fold_delete_lookup.
  destruct (bool_decide (m ∈ before)) eqn:Hin; cbn [andb].
  - apply bool_decide_eq_true_1 in Hin. destruct (banLive m w) eqn:Hban.
    + rewrite bool_decide_eq_true_2; [done|]. by apply elem_of_filter_bool.
    + rewrite bool_decide_eq_false_2; [done|]. intros Hm.
      apply elem_of_filter_bool in Hm as [_ Hm]. congruence.
  - apply bool_decide_eq_false_1 in Hin. rewrite bool_decide_eq_false_2; [done|].
    intros Hm. by apply elem_of_filter_bool in Hm as [Hm _].
Qed.

Lemma purged_entries (before extra : list string) (w : World) rows :
  fold_left (λ rows m, purgedHistory m rows)
            (List.filter (λ m, banLive m w) before ++ extra) rows
  = List.filter (λ r, negb (bool_decide (ph_tokenMint r ∈ before) && banLive (ph_tokenMint r) w
                            || bool_decide (ph_tokenMint r ∈ extra))) rows.
Proof.
  rewrite fold_purged_filter. apply filter_ext. intros r.
  destruct (bool_decide (ph_tokenMint r ∈ before) && banLive (ph_tokenMint r) w
            || bool_decide (ph_tokenMint r ∈ extra)) eqn:Hgone; cbn [negb].
  - apply bool_decide_eq_false_2. intros Hnot. apply Hnot. apply elem_of_app.
    apply orb_true_iff in Hgone as [Hgone|Hgone].
    + left. apply andb_true_iff in Hgone as [Hin Hban].
      apply bool_decide_eq_true_1 in Hin. by apply elem_of_filter_bool.
    + right. by apply bool_decide_eq_true_1 in Hgone.
  - apply bool_decide_eq_true_2. intros Hin. apply orb_false_iff in Hgone as [Hb He].
    apply elem_of_app in Hin as [Hin|Hin].
    + apply elem_of_filter_bool in Hin as [Hin Hban].
      rewrite (bool_decide_eq_true_2 _ Hin), Hban in Hb. done.
    + by rewrite (bool_decide_eq_true_2 _ Hin) in He.
Qed.

(** X18: the start-up cleanup returns normally and touches neither the
    cache, the clock, the queue nor the pub/sub channel.  It goes
    through the tracked mints in order and purges those with a live ban
    key, up to the first deletion that the database refuses: of the
    mints [before] that point, those with a live ban key have lost
    their latest-price row and their history; the mint at which it
    stopped keeps its row, and has lost its history exactly when the
    database accepted that deletion and refused the one of the row; the
    mints after it are as they were.  So when the database accepts the
    deletions of every tracked mint with a live ban key, afterwards no
    such mint has a latest-price row, the other rows are as they were,
    and the history has lost exactly the entries of tracked, banned
    mints. *)
Theorem startup_cleanup_purges_banned (env : Env) (w : World) :
  let w' := run (cleanupInvalidTokensFromDatabase env) w in
  result (cleanupInvalidTokensFromDatabase env) w = Returned tt
  ∧ redis w' = redis w ∧ now w' = now w ∧ published w' = published w
  ∧ repeatable w' = repeatable w
  ∧ (∃ before after,
       (findTokenPrices w).*1 = (before ++ after)%list
       ∧ (∀ m, m ∈ before → banLive m w = true → deleteFails env m = None)
       ∧ (∀ m, tokenPrice w' !! m
               = if bool_decide (m ∈ before) && banLive m w then None else tokenPrice w !! m)
       ∧ match after with
         | [] =>
             priceHistory w'
             = List.filter (λ r, negb (bool_decide (ph_tokenMint r ∈ before)
                                       && banLive (ph_tokenMint r) w))
                           (priceHistory w)
         | m0 :: _ =>
             banLive m0 w = true ∧ deleteFails env m0 ≠ None
             ∧ priceHistory w'
               = List.filter (λ r, negb (bool_decide (ph_tokenMint r ∈ before)
                                         && banLive (ph_tokenMint r) w
                                         || String.eqb (ph_tokenMint r) m0
                                            && bool_decide (deleteHistoryFails env m0 = None)))
                             (priceHistory w)
         end)
  ∧ ((∀ m, tracked m w = true → banLive m w = true → deleteFails env m = None) →
     (∀ m, tokenPrice w' !! m = if banLive m w then None else tokenPrice w !! m)
     ∧ priceHistory w'
       = List.filter (λ r, negb (tracked (ph_tokenMint r) w && banLive (ph_tokenMint r) w))
                     (priceHistory w)).
Proof.
  intros w'. subst w'. unfold cleanupInvalidTokensFromDatabase.
  rewrite (run_try_catch_ret _ (λ _, tt)).
  split; [apply result_try_catch_unit|].
  assert (run (let* allTokens := getTrackedTokens in purgeBanned env allTokens) w
          = run (purgeBanned env (findTokenPrices w).*1) w) as -> by reflexivity.
  destruct (purgeBanned_run env (findTokenPrices w).*1 w)
    as (Hredis & Hnow & Hpub & Hrep & before & after & Hsplit & Hok & Htp & Hafter).
  split_and!; [done..| |].
  - exists before, after. split_and!; [done|done| |].
    + intros m. rewrite Htp. apply purged_rows.
    + destruct after as [|m0 after].
      * destruct Hafter as [_ ->].
        rewrite <- (app_nil_r (List.filter _ before)), purged_entries.
        apply filter_ext. intros r.
        rewrite (bool_decide_eq_false_2 (_ ∈ [])) by apply not_elem_of_nil.
        by rewrite orb_false_r.
      * destruct Hafter as (Hban & Hfails & ->). split_and!; [done..|].
        rewrite purged_entries. apply filter_ext. intros r. do 2 f_equal.
        destruct (deleteHistoryFails env m0) as [e|].
        -- rewrite bool_decide_eq_false_2 by apply not_elem_of_nil.
           rewrite (bool_decide_eq_false_2 (Some e = None)) by done.
           by rewrite andb_false_r.
        -- rewrite (bool_decide_eq_true_2 (None = None)) by done. rewrite andb_true_r.
           destruct (String.eqb_spec (ph_tokenMint r) m0) as [->|Hne].
           ++ apply bool_decide_eq_true_2. apply elem_of_cons. by left.
           ++ apply bool_decide_eq_false_2. rewrite elem_of_cons, elem_of_nil. tauto.
  - intros Haccepted.
    assert (∀ m, tracked m w = true → banLive m w = true → m ∈ before) as Hall.
    { intros m Htr Hban.
      assert (m ∈ (findTokenPrices w).*1) as Hin
        by (apply tracked_spec; unfold tracked in Htr; by apply bool_decide_eq_true_1 in Htr).
      rewrite Hsplit in Hin. apply elem_of_app in Hin as [Hin|Hin]; [done|].
      destruct after as [|m0 after]; [by apply elem_of_nil in Hin|].
      destruct Hafter as (Hban0 & Hfails & _). exfalso. apply Hfails, Haccepted; [|done].
      apply bool_decide_eq_true_2, tracked_spec. rewrite Hsplit.
      apply elem_of_app. right. apply elem_of_cons. by left. }
    assert (after = []) as ->.
    { destruct after as [|m0 after]; [done|]. destruct Hafter as (Hban0 & Hfails & _).
      exfalso. apply Hfails, Haccepted; [|done].
      apply bool_decide_eq_true_2, tracked_spec. rewrite Hsplit.
      apply elem_of_app. right. apply elem_of_cons. by left. }
    rewrite app_nil_r in Hsplit. destruct Hafter as [_ Hph]. split.
    + intros m. rewrite Htp, purged_rows.
      destruct (banLive m w) eqn:Hban; [|by rewrite andb_false_r]. rewrite andb_true_r.
      case_bool_decide as Hin; [done|].
      destruct (tokenPrice w !! m) eqn:Hrow; [|done].
      exfalso. apply Hin, Hall; [|done]. apply bool_decide_eq_true_2. by eexists.
    + rewrite Hph, <- (app_nil_r (List.filter _ before)), purged_entries.
      apply filter_ext. intros r. rewrite (bool_decide_eq_false_2 (_ ∈ [])) by apply not_elem_of_nil.
      rewrite orb_false_r. do 2 f_equal. unfold tracked.
      apply bool_decide_ext. rewrite <- Hsplit. apply tracked_spec.
Qed.

Lemma startup_cleanup_purges_banned_witness :
  banLive sampleMint staleRows = true
  ∧ deleteFails halfDeleteEnv sampleMint ≠ None
  ∧ deleteHistoryFails halfDeleteEnv sampleMint = None
  ∧ priceHistory staleRows ≠ []
  ∧ priceHistory (run (cleanupInvalidTokensFromDatabase halfDeleteEnv) staleRows) = []
  ∧ tokenPrice (run (cleanupInvalidTokensFromDatabase halfDeleteEnv) staleRows)
    = tokenPrice staleRows
  ∧ (∀ m, tokenPrice (run (cleanupInvalidTokensFromDatabase goneEnv) staleRows) !! m
          = if banLive m staleRows then None else tokenPrice staleRows !! m).
Proof.
  destruct (startup_cleanup_purges_banned goneEnv staleRows) as (_ & _ & _ & _ & _ & _ & Hall).
  split_and!; [by vm_compute..|].
  by apply Hall.
Defined.

(** ** Entries that an enrolment leaves alone *)

Section Entry.
Context (key : string) (x : option (RedisValue * option Z)).

Lemma entry_setex k seconds v :
  k ≠ key → preserves (keeps (entry key) x) (redis_setex k seconds v).
Proof.
  intros Hne. apply keeps_modify. intros w. unfold entry. cbn.
  by apply lookup_insert_ne.
Qed.

Lemma entry_del_glob pattern :
  Js.glob pattern key = false →
  preserves (keeps (entry key) x)
    (let* found := redis_keys pattern in
     match found with
     | [] => ret tt
     | _ => redis_del found
     end).
Proof.
  intros Hglob w Hw. rewrite wildcard_run. unfold keeps, entry in *. cbn.
  rewrite lookup_foldr_delete, bool_decide_eq_false_2; [done|].
  intros Hin. apply matching_spec in Hin as [Hin _]. congruence.
Qed.

End Entry.

Section EntryOfAnotherMint.
Context (key : string) (x : option (RedisValue * option Z)) (mint : string).
Context (Hvalidation : validation_key mint ≠ key).
Context (Hban : invalidKey mint ≠ key).
Context (Hbull : Js.glob ("bull:price-tracking:*" +:+ jobId mint +:+ "*") key = false).

#[local] Hint Extern 1 (preserves (keeps (entry _) _) (redis_setex _ _ _)) =>
  (apply entry_setex; assumption) : pres.
#[local] Hint Extern 1 (preserves (keeps (entry _) _) (bind (redis_keys _) _)) =>
  (apply entry_del_glob; assumption) : pres.

Lemma validateTokenMint_entry env :
  preserves (keeps (entry key) x) (validateTokenMint env mint).
Proof. unfold validateTokenMint, validateOnChain, validateSupply. pres. Qed.

Lemma validationGate_entry env :
  preserves (keeps (entry key) x) (validationGate env mint).
Proof. pose proof validateTokenMint_entry. unfold validationGate. pres. Qed.

Lemma removeRepeatables_entry jid rs :
  preserves (keeps (entry key) x) (removeRepeatables jid rs).
Proof. induction rs; simpl; unfold queue_removeRepeatable; pres. Qed.

Lemma removeInstances_entry m js :
  preserves (keeps (entry key) x) (removeInstances m js).
Proof. induction js; simpl; unfold job_remove; pres. Qed.

Lemma removeFromStates_entry m sts :
  preserves (keeps (entry key) x) (removeFromStates m sts).
Proof.
  pose proof removeInstances_entry. induction sts; simpl; unfold queue_getJobs; pres.
Qed.

Lemma obliterate_entry : preserves (keeps (entry key) x) (obliterateTokenJobs mint).
Proof.
  pose proof removeRepeatables_entry. pose proof removeFromStates_entry.
  unfold obliterateTokenJobs, queue_getRepeatableJobs. pres.
Qed.

Lemma addTokenForTracking_entry env :
  preserves (keeps (entry key) x) (addTokenForTracking env mint).
Proof.
  pose proof validationGate_entry. pose proof obliterate_entry.
  unfold addTokenForTracking, queue_add. pres.
Qed.

End EntryOfAnotherMint.

(** ** What the validator and the ban test read *)

Lemma validateOnChain_world env mint w1 w2 :
  (validateOnChain env mint w1).1 = (validateOnChain env mint w2).1.
Proof.
  unfold validateOnChain, validateSupply, try_catch, bind, call, ret, throw.
  repeat (case_match; simplify_eq/=); eauto.
Qed.

Lemma redis_lookup_entry key w1 w2 :
  entry key w1 = entry key w2 → now w1 = now w2 →
  redis_lookup w1 key = redis_lookup w2 key.
Proof. unfold redis_lookup, entry. by intros -> ->. Qed.

Lemma validates_frame env mint w1 w2 :
  entry (validation_key mint) w1 = entry (validation_key mint) w2 → now w1 = now w2 →
  validates env mint w1 = validates env mint w2.
Proof.
  intros Hentry Hnow. pose proof (redis_lookup_entry _ _ _ Hentry Hnow) as Hl.
  unfold validates, result.
  destruct (String.eqb mint SOL_MINT) eqn:Hsol.
  { apply String.eqb_eq in Hsol as ->. reflexivity. }
  destruct (isValid (validateAddressFormat env mint)) eqn:Hfmt.
  2:{ by rewrite !validateTokenMint_malformed. }
  destruct (present (redis_lookup w1 (validation_key mint))) as [v|] eqn:Hhit.
  - rewrite (validateTokenMint_hit env mint w1 v), (validateTokenMint_hit env mint w2 v);
      try done. by rewrite <- Hl.
  - destruct (validateTokenMint_miss env mint w1 Hsol Hfmt Hhit) as (r1 & E1 & ->).
    destruct (validateTokenMint_miss env mint w2 Hsol Hfmt) as (r2 & E2 & ->).
    { by rewrite <- Hl. }
    pose proof (validateOnChain_world env mint w1 w2) as Hw. rewrite E1, E2 in Hw.
    cbn in *. by simplify_eq.
Qed.

Lemma banLive_frame mint w1 w2 :
  entry (invalidKey mint) w1 = entry (invalidKey mint) w2 → now w1 = now w2 →
  banLive mint w1 = banLive mint w2.
Proof. intros Hentry Hnow. unfold banLive. by rewrite (redis_lookup_entry _ w1 w2). Qed.

Lemma passes_unbanned env mint w :
  validates env mint w = true → banLive mint w = false → passes env mint w = true.
Proof.
  intros Hvalid Hban. unfold passes, validationGate, try_catch, bind.
  pose proof (validateTokenMint_ban_lookup env mint mint w) as Hl.
  unfold validates, result in Hvalid. unfold run in Hl.
  destruct (validateTokenMint_run env mint w) as (r & w' & E & _).
  rewrite E in *. simpl in *. rewrite Hvalid. simpl. rewrite Hl.
  unfold banLive in Hban. apply bool_decide_eq_false_1 in Hban.
  destruct (present (redis_lookup w (invalidKey mint))); [|done].
  exfalso. apply Hban. by eexists.
Qed.

(** ** Enrolments one after the other *)

Lemma validationGate_returns env mint w :
  ∃ passed, result (validationGate env mint) w = Returned passed.
Proof. apply result_try_catch_ret. Qed.

Lemma addTokenForTracking_result env mint w :
  result (addTokenForTracking env mint) w = Returned tt.
Proof.
  unfold addTokenForTracking, result, bind at 1.
  destruct (validationGate_returns env mint w) as [passed Hgate]. unfold result in Hgate.
  destruct (validationGate env mint w) as [o w1]. cbn [fst] in Hgate. subst o.
  destruct passed; cbn [negb]; [|done].
  unfold bind at 1, redis_get, gets.
  destruct (present (redis_lookup w1 (invalidKey mint))); [done|].
  unfold bind. pose proof (result_try_catch_unit
    (let* repeatableJobs := queue_getRepeatableJobs in
     removeRepeatables (jobId mint) repeatableJobs >>
     removeFromStates mint allStates >>
     let* keys := redis_keys ("bull:price-tracking:*" +:+ jobId mint +:+ "*") in
     match keys with
     | [] => ret tt
     | _ => redis_del keys
     end) w1) as Hr.
  change (result (obliterateTokenJobs mint) w1 = Returned tt) in Hr. unfold result in Hr.
  destruct (obliterateTokenJobs mint w1) as [o w2]. cbn [fst] in Hr. by subst o.
Qed.

Lemma addAllForTracking_run env mints : ∀ w,
  addAllForTracking env mints w = (Returned tt, exec (Enrol env <$> mints) w).
Proof.
  induction mints as [|m mints IH]; intros w; [done|].
  cbn [addAllForTracking fmap list_fmap exec fold_left]. unfold bind.
  pose proof (addTokenForTracking_result env m w) as Hr. unfold result in Hr.
  cbn [step]. unfold run. destruct (addTokenForTracking env m w) as [o w1].
  cbn [fst snd] in *. subst o. apply IH.
Qed.

Lemma keepUnbanned_run mints : ∀ w,
  keepUnbanned mints w = (Returned (List.filter (λ m, negb (banLive m w)) mints), w).
Proof.
  induction mints as [|m mints IH]; intros w; [done|].
  cbn [keepUnbanned List.filter]. unfold bind at 1, redis_get, gets. unfold bind.
  rewrite IH. destruct (present (redis_lookup w (invalidKey m))) as [v|] eqn:Hp.
  - assert (banLive m w = true) as ->; [|done].
    unfold banLive. rewrite Hp. apply bool_decide_eq_true_2. by eexists.
  - assert (banLive m w = false) as ->; [|done].
    unfold banLive. rewrite Hp. apply bool_decide_eq_false_2. by intros [? ?].
Qed.

Lemma schedulePriceTrackingJobs_run env w :
  schedulePriceTrackingJobs env w = (Returned tt, exec (scheduled env w) w).
Proof.
  unfold schedulePriceTrackingJobs, bind at 1, getTrackedTokens, gets.
  unfold bind. rewrite keepUnbanned_run. apply addAllForTracking_run.
Qed.

Lemma elapsed_enrolments env mints : elapsed (Enrol env <$> mints) = 0.
Proof. induction mints as [|m mints IH]; [done|]. cbn. exact IH. Qed.

Lemma enrol_other_count env m m0 w :
  m0 ≠ m → queue_wf w →
  repeatingJobs m (step (Enrol env m0) w) = repeatingJobs m w.
Proof.
  intros Hne (entries & Hnd & Hrs). cbn [step].
  destruct (addTokenForTracking_queue env m0 w entries Hrs) as [next Hq].
  rewrite (repeatingJobs_entries m w entries Hnd Hrs).
  destruct (passes env m0 w).
  - rewrite (repeatingJobs_entries m _ _ (reschedule_NoDup m0 next entries Hnd) Hq).
    apply (f_equal (λ b : bool, if b then 1%nat else 0%nat)).
    apply bool_decide_ext, reschedule_others. congruence.
  - by rewrite (repeatingJobs_entries m _ _ Hnd Hq).
Qed.

Lemma enrol_others_count env mints m : ∀ w,
  m ∉ mints → queue_wf w →
  repeatingJobs m (exec (Enrol env <$> mints) w) = repeatingJobs m w.
Proof.
  induction mints as [|m0 mints IH]; intros w Hnot Hwf; [done|].
  apply not_elem_of_cons in Hnot as [Hne Hnot].
  cbn [fmap list_fmap exec fold_left].
  change (fold_left (λ w s, step s w) (list_fmap _ _ (Enrol env) mints)
            (step (Enrol env m0) w))
    with (exec (Enrol env <$> mints) (step (Enrol env m0) w)).
  rewrite IH; [|done|by apply step_wf]. apply enrol_other_count; [congruence|done].
Qed.

Lemma enrol_frame env m m0 w :
  m0 ≠ m →
  validates env m (step (Enrol env m0) w) = validates env m w ∧
  banLive m (step (Enrol env m0) w) = banLive m w.
Proof.
  intros Hne. cbn [step].
  pose proof (addTokenForTracking_now (now w) env m0 w eq_refl) as Hnow.
  unfold keeps in Hnow. split.
  - apply validates_frame; [|done].
    apply (addTokenForTracking_entry (validation_key m) _ m0); [| | |done].
    + intros H. apply Hne. by apply (inj (String.app "token_validation:")).
    + by apply head_differs.
    + by apply glob_head_mismatch.
  - apply banLive_frame; [|done].
    apply (addTokenForTracking_entry (invalidKey m) _ m0); [| | |done].
    + by apply head_differs.
    + intros H. apply Hne. by apply (inj (String.app "invalid_token:")).
    + by apply glob_head_mismatch.
Qed.

Lemma enrol_all_count env mints : ∀ w m,
  NoDup mints → queue_wf w → m ∈ mints →
  validates env m w = true → banLive m w = false →
  repeatingJobs m (exec (Enrol env <$> mints) w) = 1%nat.
Proof.
  induction mints as [|m0 mints IH]; intros w m Hnd Hwf Hin Hvalid Hban.
  - by apply elem_of_nil in Hin.
  - apply NoDup_cons in Hnd as [Hfresh Hnd].
    cbn [fmap list_fmap exec fold_left].
    change (fold_left (λ w s, step s w) (list_fmap _ _ (Enrol env) mints)
              (step (Enrol env m0) w))
      with (exec (Enrol env <$> mints) (step (Enrol env m0) w)).
    apply elem_of_cons in Hin as [->|Hin].
    + rewrite enrol_others_count; [|done|by apply step_wf].
      apply accepted_enrolment_count; [done|]. by apply passes_unbanned.
    + assert (m0 ≠ m) as Hne by (intros ->; done).
      destruct (enrol_frame env m m0 w Hne) as [Hv Hb].
      apply IH; [done|by apply step_wf|done|congruence|congruence].
Qed.

(** X28: from a queue built by enrolments, whatever the scheduler does
    afterwards, the queue holds at most one repeating job of each mint;
    an enrolment that is accepted leaves exactly one, whether or not
    the mint had a repeating job already, and so does another
    enrolment of the mint right after it, accepted or refused. *)
Theorem one_repeating_job_per_mint (w : World) (steps : list Step) (env : Env)
    (mint : string) :
  queue_wf w →
  let w1 := exec steps w in
  (∀ m, (repeatingJobs m w1 ≤ 1)%nat)
  ∧ (passes env mint w1 = true →
     repeatingJobs mint (step (Enrol env mint) w1) = 1%nat
     ∧ ∀ env', repeatingJobs mint (step (Enrol env' mint) (step (Enrol env mint) w1)) = 1%nat).
Proof.
  intros Hwf w1. assert (queue_wf w1) as Hwf1 by (by apply exec_wf). split.
  - intros m. by apply queue_wf_at_most_one.
  - intros Hpass.
    pose proof (accepted_enrolment_count env mint w1 Hwf1 Hpass) as Hone.
    split; [exact Hone|]. intros env'.
    set (w2 := step (Enrol env mint) w1) in *.
    assert (queue_wf w2) as Hwf2 by (by apply step_wf).
    destruct (passes env' mint w2) eqn:Hagain.
    + by apply accepted_enrolment_count.
    + destruct (refused_enrolment env' mint w2 Hagain) as [Hrs _].
      unfold repeatingJobs in *. cbn [step]. by rewrite Hrs.
Qed.

Lemma one_repeating_job_per_mint_witness :
  queue_wf (emptyWorld 0) ∧
  passes onlineEnv sampleMint (exec [Enrol onlineEnv sampleMint; Elapse 1000] (emptyWorld 0))
  = true ∧
  repeatingJobs sampleMint (exec [Enrol onlineEnv sampleMint; Elapse 1000] (emptyWorld 0))
  = 1%nat ∧
  repeatingJobs sampleMint
    (step (Enrol onlineEnv sampleMint)
       (exec [Enrol onlineEnv sampleMint; Elapse 1000] (emptyWorld 0))) = 1%nat.
Proof.
  assert (passes onlineEnv sampleMint
            (exec [Enrol onlineEnv sampleMint; Elapse 1000] (emptyWorld 0)) = true) as Hpass
    by (by vm_compute).
  destruct (one_repeating_job_per_mint (emptyWorld 0) [Enrol onlineEnv sampleMint; Elapse 1000]
              onlineEnv sampleMint (emptyWorld_wf 0)) as (_ & Hone).
  split_and!; [apply emptyWorld_wf | exact Hpass | by vm_compute | exact (proj1 (Hone Hpass))].
Defined.

(** ** Start-up *)

Lemma cleanup_frame env w :
  let w' := run (cleanupInvalidTokensFromDatabase env) w in
  redis w' = redis w ∧ now w' = now w ∧ repeatable w' = repeatable w ∧
  ∀ m, banLive m w = false → tokenPrice w' !! m = tokenPrice w !! m.
Proof.
  intros w'. subst w'. unfold cleanupInvalidTokensFromDatabase.
  rewrite (run_try_catch_ret _ (λ _, tt)).
  assert (run (let* allTokens := getTrackedTokens in purgeBanned env allTokens) w
          = run (purgeBanned env (findTokenPrices w).*1) w) as -> by reflexivity.
  destruct (purgeBanned_run env (findTokenPrices w).*1 w)
    as (Hredis & Hnow & _ & Hrep & before & after & _ & _ & Htp & _).
  split_and!; try done. intros m Hban. by rewrite Htp, purged_rows, Hban, andb_false_r.
Qed.

(** X19: start-up from a well-formed queue leaves a well-formed queue
    in which every tracked mint that has no live ban key and that the
    validator accepts has exactly one repeating job, while a mint
    under a ban that had no repeating job still has none. *)
Theorem startup_schedules_tracked_mints (env : Env) (w : World) :
  queue_wf w →
  let w' := run (startWorker env) w in
  result (startWorker env) w = Returned tt
  ∧ queue_wf w'
  ∧ (∀ m, tracked m w = true → banLive m w = false → validates env m w = true →
          repeatingJobs m w' = 1%nat)
  ∧ (∀ m deadline, absent m w → banned m deadline w → now w < deadline →
                   repeatingJobs m w' = 0%nat).
Proof.
  intros Hwf w'.
  destruct (cleanup_frame env w) as (Hredis & Hnow & Hrep & Hrows).
  set (w1 := run (cleanupInvalidTokensFromDatabase env) w) in *.
  assert (startWorker env w = (Returned tt, exec (scheduled env w1) w1)) as E.
  { unfold startWorker, bind.
    pose proof (result_try_catch_unit
                  (let* allTokens := getTrackedTokens in purgeBanned env allTokens) w) as Hr.
    change (result (cleanupInvalidTokensFromDatabase env) w = Returned tt) in Hr.
    unfold result in Hr. unfold w1, run.
    destruct (cleanupInvalidTokensFromDatabase env w) as [o w2]. cbn [fst snd] in *. subst o.
    apply schedulePriceTrackingJobs_run. }
  assert (w' = exec (scheduled env w1) w1) as -> by (unfold w', run; by rewrite E).
  assert (queue_wf w1) as Hwf1.
  { destruct Hwf as (ms & ? & ?). exists ms. split; [done|congruence]. }
  split_and!.
  - unfold result. by rewrite E.
  - by apply exec_wf.
  - intros m Htracked Hban Hvalid. unfold scheduled.
    assert (entry (invalidKey m) w1 = entry (invalidKey m) w) as Hbe
      by (unfold entry; by rewrite Hredis).
    assert (entry (validation_key m) w1 = entry (validation_key m) w) as Hve
      by (unfold entry; by rewrite Hredis).
    apply enrol_all_count.
    + apply NoDup_ListNoDup, List.NoDup_filter, NoDup_ListNoDup, tracked_NoDup.
    + done.
    + apply elem_of_filter_bool. split.
      * apply tracked_spec. rewrite (Hrows m Hban). unfold tracked in Htracked.
        by apply bool_decide_eq_true_1 in Htracked.
      * rewrite (banLive_frame m w1 w Hbe Hnow), Hban. done.
    + by rewrite (validates_frame env m w1 w Hve Hnow).
    + by rewrite (banLive_frame m w1 w Hbe Hnow).
  - intros m deadline Habsent Hbanned Hlive. apply absent_none.
    apply (exec_absent m deadline).
    + destruct Habsent as (ms & ? & ? & ?). exists ms. split_and!; [done|congruence|done].
    + destruct Hbanned as (Hd & expiry & Hkey & Hexp). split; [by rewrite Hnow|].
      exists expiry. by rewrite Hredis.
    + unfold scheduled. rewrite elapsed_enrolments, Hnow. lia.
Qed.

Lemma startup_schedules_tracked_mints_witness :
  queue_wf trackedWorld ∧
  tracked sampleMint trackedWorld = true ∧
  banLive sampleMint trackedWorld = false ∧
  validates onlineEnv sampleMint trackedWorld = true ∧
  repeatingJobs sampleMint (run (startWorker onlineEnv) trackedWorld) = 1%nat.
Proof.
  assert (queue_wf trackedWorld) as Hwf.
  { exists [(sampleMint, 2000)]. split; [apply NoDup_singleton | reflexivity]. }
  assert (tracked sampleMint trackedWorld = true) as Htracked by (by vm_compute).
  assert (banLive sampleMint trackedWorld = false) as Hban by (by vm_compute).
  assert (validates onlineEnv sampleMint trackedWorld = true) as Hvalid by (by vm_compute).
  destruct (startup_schedules_tracked_mints onlineEnv trackedWorld Hwf) as (_ & _ & Hone & _).
  split_and!; [exact Hwf | exact Htracked | exact Hban | exact Hvalid |].
  exact (Hone sampleMint Htracked Hban Hvalid).
Defined.

(** ** The hub *)

Lemma room_inj a b : room a = room b → a = b.
Proof. apply (inj (String.app "token:")). Qed.

Lemma hub_consistent_ext w1 w2 :
  hub w1 = hub w2 → hub_consistent w1 → hub_consistent w2.
Proof.
  unfold hub. intros [= Hs Hr] Hc socket r. unfold subscribed.
  rewrite <- Hs, <- Hr. apply Hc.
Qed.

Lemma preserves_hub_consistent {A} (m : M A) :
  (∀ x, preserves (keeps hub x) m) → preserves hub_consistent m.
Proof.
  intros Hk w Hw. apply (hub_consistent_ext w); [|done].
  symmetry. by apply (Hk (hub w) w).
Qed.

Lemma hub_blind_cache : blind_cache hub.
Proof. by split. Qed.
Lemma hub_blind_store : blind_store hub.
Proof. by split. Qed.
Lemma hub_blind_queue : blind_queue hub.
Proof. by intros ? ? ?. Qed.
Lemma hubLog_blind_cache : blind_cache hubLog.
Proof. by split. Qed.
Lemma hubLog_blind_store : blind_store hubLog.
Proof. by split. Qed.
Lemma hubLog_blind_queue : blind_queue hubLog.
Proof. by intros ? ? ?. Qed.

#[local] Hint Resolve hub_blind_cache hub_blind_store hub_blind_queue
  hubLog_blind_cache hubLog_blind_store hubLog_blind_queue : pres.

Lemma addTokenForTracking_keeps {A} (proj : World → A) x env mint :
  blind_cache proj → blind_queue proj →
  preserves (keeps proj x) (addTokenForTracking env mint).
Proof.
  intros Hcache Hqueue. pose proof (proj1 Hcache) as Hredis.
  pose proof (validationGate_keeps proj x Hcache env mint).
  pose proof (obliterate_keeps proj x Hcache Hqueue mint).
  unfold addTokenForTracking, queue_add. pres.
Qed.

Lemma emit_hub socket ev x : preserves (keeps hub x) (emit socket ev).
Proof. unfold emit. pres. Qed.

#[local] Hint Resolve emit_hub : pres.

Lemma discover_hub env socket mint x : preserves (keeps hub x) (discover env socket mint).
Proof.
  pose proof (addTokenForTracking_keeps hub x env mint hub_blind_cache hub_blind_queue).
  unfold discover, getCurrentPrice. pres.
Qed.

Lemma emit_consistent socket ev : preserves hub_consistent (emit socket ev).
Proof. apply preserves_hub_consistent. intros x. apply emit_hub. Qed.

Lemma leave_consistent socket mint : preserves hub_consistent (leave socket mint).
Proof.
  intros w Hw s r. unfold run, leave, modify, subscribed. cbn.
  rewrite elem_of_difference, elem_of_singleton, (Hw s r). unfold subscribed. split.
  - intros [(m & -> & subs & Hs & Hm) Hne]. exists m. split; [done|].
    destruct (decide (s = socket)) as [->|Hs'].
    + exists (subs ∖ {[mint]}). rewrite lookup_alter_eq, Hs. split; [done|].
      apply elem_of_difference. split; [done|]. rewrite elem_of_singleton.
      intros ->. by apply Hne.
    + exists subs. by rewrite lookup_alter_ne.
  - intros (m & -> & subs & Hs & Hm). destruct (decide (s = socket)) as [->|Hs'].
    + rewrite lookup_alter_eq in Hs.
      destruct (socketSubscriptions w !! socket) as [subs0|] eqn:Hs0; [|done].
      cbn in Hs. injection Hs as <-. apply elem_of_difference in Hm as [Hm Hne].
      rewrite elem_of_singleton in Hne. split.
      * exists m. split; [done|]. by exists subs0.
      * intros Heq. apply (f_equal snd) in Heq. cbn in Heq.
        apply room_inj in Heq. done.
    + rewrite lookup_alter_ne in Hs by done. split.
      * exists m. split; [done|]. by exists subs.
      * intros Heq. apply (f_equal fst) in Heq. done.
Qed.

Lemma join_consistent socket mint w :
  is_Some (socketSubscriptions w !! socket) →
  hub_consistent w → hub_consistent (run (join socket mint) w).
Proof.
  intros [subs0 Hs0] Hw s r. unfold run, join, modify, subscribed. cbn.
  rewrite elem_of_union, elem_of_singleton, (Hw s r). unfold subscribed. split.
  - intros [[= -> ->] | (m & -> & subs & Hs & Hm)].
    + exists mint. split; [done|]. exists ({[mint]} ∪ subs0).
      rewrite lookup_alter_eq, Hs0. split; [done|]. apply elem_of_union. left.
      by apply elem_of_singleton.
    + exists m. split; [done|]. destruct (decide (s = socket)) as [->|Hs'].
      * exists ({[mint]} ∪ subs). rewrite lookup_alter_eq, Hs. split; [done|].
        apply elem_of_union. by right.
      * exists subs. by rewrite lookup_alter_ne.
  - intros (m & -> & subs & Hs & Hm). destruct (decide (s = socket)) as [->|Hs'].
    + rewrite lookup_alter_eq, Hs0 in Hs. cbn in Hs. injection Hs as <-.
      apply elem_of_union in Hm as [Hm|Hm].
      * apply elem_of_singleton in Hm as ->. by left.
      * right. exists m. split; [done|]. by exists subs0.
    + rewrite lookup_alter_ne in Hs by done. right. exists m. split; [done|]. by exists subs.
Qed.

Lemma subscribeToToken_consistent env socket mint :
  preserves hub_consistent (subscribeToToken env socket mint).
Proof.
  unfold subscribeToToken. apply preserves_try_catch; [|intros ?; apply emit_consistent].
  apply preserves_bind.
  { apply preserves_hub_consistent. intros x. pres. }
  intros validation. destruct (negb (isValid validation)); [apply emit_consistent|].
  intros w Hw. unfold run, bind at 1, gets.
  destruct (socketSubscriptions w !! socket) as [subs|] eqn:Hs; [|by apply emit_consistent].
  destruct (bool_decide (mint ∈ subs)); [by apply emit_consistent|].
  fold (run (join socket mint >>
             try_catch (discover env socket mint)
               (λ _, leave socket mint >>
                     emit socket (EvSubscriptionError mint "Failed to discover token" None)))
            w).
  rewrite run_bind. cbn [result join modify fst].
  assert (hub_consistent (run (join socket mint) w)) as Hj.
  { apply join_consistent; [by eexists|done]. }
  revert Hj. generalize (run (join socket mint) w). apply preserves_try_catch.
  - apply preserves_hub_consistent. intros x. apply discover_hub.
  - intros ?. apply preserves_bind; [apply leave_consistent|].
    intros ?. apply emit_consistent.
Qed.

Lemma unsubscribeFromToken_consistent socket mint :
  preserves hub_consistent (unsubscribeFromToken socket mint).
Proof.
  pose proof emit_consistent. pose proof leave_consistent.
  unfold unsubscribeFromToken. pres.
Qed.

Lemma handleSubscriptionMessage_consistent env socket message :
  preserves hub_consistent (handleSubscriptionMessage env socket message).
Proof.
  pose proof emit_consistent. pose proof subscribeToToken_consistent.
  pose proof unsubscribeFromToken_consistent.
  unfold handleSubscriptionMessage. pres.
Qed.

Lemma handleDisconnection_consistent socket :
  preserves hub_consistent (handleDisconnection socket).
Proof.
  intros w Hw. unfold run, handleDisconnection, bind, gets.
  destruct (socketSubscriptions w !! socket) as [subs0|] eqn:Hs0; [|done].
  intros s r. unfold modify, subscribed. cbn.
  rewrite elem_of_difference, elem_of_map, (Hw s r). unfold subscribed. split.
  - intros [(m & -> & subs & Hs & Hm) Hnot]. exists m. split; [done|].
    destruct (decide (s = socket)) as [->|Hs'].
    + exfalso. apply Hnot. exists m. split; [done|]. congruence.
    + exists subs. by rewrite lookup_delete_ne.
  - intros (m & -> & subs & Hs & Hm). destruct (decide (s = socket)) as [->|Hs'].
    + by rewrite lookup_delete_eq in Hs.
    + rewrite lookup_delete_ne in Hs by done. split.
      * exists m. split; [done|]. by exists subs.
      * intros (m' & Heq & _). apply (f_equal fst) in Heq. done.
Qed.

Lemma onRedisMessage_consistent channel data :
  preserves hub_consistent (onRedisMessage channel data).
Proof.
  unfold onRedisMessage, broadcastPriceUpdate.
  destruct (String.eqb channel "price_update"); [|apply preserves_ret].
  apply preserves_hub_consistent. intros x. pres.
Qed.

Lemma hub_exec_consistent steps : ∀ w, hub_consistent w → hub_consistent (hub_exec steps w).
Proof.
  induction steps as [|s steps IH]; intros w Hw; [done|]. apply IH.
  destruct s; cbn [hub_step].
  - by apply handleSubscriptionMessage_consistent.
  - by apply handleDisconnection_consistent.
  - by apply onRedisMessage_consistent.
Qed.

Lemma roomMembers_spec r w socket :
  socket ∈ roomMembers r w ↔ (socket, r) ∈ rooms w.
Proof.
  unfold roomMembers. rewrite list_elem_of_fmap. split.
  - intros ([s r'] & -> & Hin). apply elem_of_filter_bool in Hin as [Hin Hr].
    cbn in Hr. apply String.eqb_eq in Hr as ->. by apply elem_of_elements in Hin.
  - intros Hin. exists (socket, r). split; [done|]. apply elem_of_filter_bool.
    split; [by apply elem_of_elements|]. cbn. apply String.eqb_refl.
Qed.

Lemma roomMembers_NoDup r w : NoDup (roomMembers r w).
Proof.
  unfold roomMembers.
  assert (NoDup (List.filter (λ member : string * string, String.eqb member.2 r)
                   (elements (rooms w)))) as Hnd.
  { apply NoDup_ListNoDup, List.NoDup_filter, NoDup_ListNoDup, NoDup_elements. }
  assert (∀ p, p ∈ List.filter (λ member : string * string, String.eqb member.2 r)
                     (elements (rooms w)) → p.2 = r) as Hsnd.
  { intros p Hp. apply elem_of_filter_bool in Hp as [_ Hp]. by apply String.eqb_eq. }
  revert Hnd Hsnd.
  generalize (List.filter (λ member : string * string, String.eqb member.2 r)
                (elements (rooms w))).
  intros l Hnd Hsnd. apply NoDup_fmap_2_strong; [|done].
  intros [s1 r1] [s2 r2] H1 H2 Heq. cbn in Heq. subst s2.
  apply Hsnd in H1, H2. cbn in *. congruence.
Qed.

(** X20: whatever messages, disconnections and publications the hub has
    handled since its rooms matched its subscriptions, they still
    match, and a price update published on the price_update channel is
    emitted exactly once to each socket that holds a subscription to
    the mint of the update, and to no other socket. *)
Theorem broadcast_reaches_exactly_the_subscribers (steps : list HubStep) (w0 : World)
    (data : TokenPriceData) :
  hub_consistent w0 →
  let w := hub_exec steps w0 in
  let w' := run (onRedisMessage "price_update" data) w in
  hub_consistent w ∧
  ∃ recipients,
    emitted w' = (emitted w ++ ((λ socket, (socket, EvPriceUpdate data)) <$> recipients))%list
    ∧ NoDup recipients
    ∧ (∀ socket, socket ∈ recipients ↔ subscribed socket (tokenMint data) w)
    ∧ hub w' = hub w.
Proof.
  intros Hw0 w w'. assert (hub_consistent w) as Hw by (by apply hub_exec_consistent).
  split; [done|]. exists (roomMembers (room (tokenMint data)) w). split_and!.
  - reflexivity.
  - apply roomMembers_NoDup.
  - intros socket. rewrite roomMembers_spec, (Hw socket (room (tokenMint data))). split.
    + intros (m & Hroom & Hsub). apply room_inj in Hroom. by subst m.
    + intros Hsub. by exists (tokenMint data).
  - reflexivity.
Qed.

Lemma hubWorld_consistent : hub_consistent hubWorld.
Proof.
  intros socket r. split.
  - intros Hin. by apply elem_of_empty in Hin.
  - intros (m & -> & subs & Hs & Hm). cbn in Hs.
    apply lookup_singleton_Some in Hs as [_ <-]. by apply elem_of_empty in Hm.
Defined.

Lemma broadcast_reaches_exactly_the_subscribers_witness :
  hub_consistent hubWorld ∧
  ∃ recipients,
    emitted (run (onRedisMessage "price_update" sampleSnapshot)
               (hub_exec subscribeSteps hubWorld))
    = (emitted (hub_exec subscribeSteps hubWorld)
       ++ ((λ socket, (socket, EvPriceUpdate sampleSnapshot)) <$> recipients))%list
    ∧ (∀ socket, socket ∈ recipients ↔
                 subscribed socket (tokenMint sampleSnapshot)
                   (hub_exec subscribeSteps hubWorld)).
Proof.
  split; [exact hubWorld_consistent|].
  destruct (broadcast_reaches_exactly_the_subscribers subscribeSteps hubWorld sampleSnapshot
              hubWorld_consistent) as (_ & recipients & Hlog & _ & Hwho & _).
  exists recipients. split; [exact Hlog | exact Hwho].
Defined.

(** ** A subscription *)

Lemma pair_run {A} (m : M A) w a : result m w = Returned a → m w = (Returned a, run m w).
Proof. unfold result, run. destruct (m w). cbn. by intros ->. Qed.

Lemma redis_lookup_inserted w key v seconds :
  0 < seconds →
  redis_lookup (with_redis (<[key := (v, Some (now w + seconds * 1000))]> (redis w)) w) key
  = Some v.
Proof.
  intros Hpos. unfold redis_lookup, live. cbn. rewrite lookup_insert_eq. cbn.
  assert ((now w <? now w + seconds * 1000) = true) as -> by lia. done.
Qed.

Lemma validates_again env mint w :
  validates env mint (run (validateTokenMint env mint) w) = validates env mint w.
Proof.
  unfold validates, result, run.
  destruct (String.eqb mint SOL_MINT) eqn:Hsol.
  { apply String.eqb_eq in Hsol as ->. reflexivity. }
  destruct (isValid (validateAddressFormat env mint)) eqn:Hfmt.
  2:{ rewrite (validateTokenMint_malformed env mint w Hsol Hfmt). cbn [fst snd].
      by rewrite (validateTokenMint_malformed env mint w Hsol Hfmt). }
  destruct (present (redis_lookup w (validation_key mint))) as [v|] eqn:Hhit.
  - rewrite (validateTokenMint_hit env mint w v Hsol Hfmt Hhit). cbn [fst snd].
    by rewrite (validateTokenMint_hit env mint w v Hsol Hfmt Hhit).
  - destruct (validateTokenMint_miss env mint w Hsol Hfmt Hhit) as (r & _ & ->).
    cbn [fst snd]. rewrite (validateTokenMint_hit env mint _ (RVerdict r)); [done..|].
    rewrite redis_lookup_inserted; [done|]. unfold VALIDATION_CACHE_TTL. lia.
Qed.

Lemma getTokenPrice_total env mint w :
  validates env mint w = true → ∃ d w', getTokenPrice env mint w = (Returned d, w').
Proof.
  intros Hvalid. unfold validates, result in Hvalid. unfold getTokenPrice, bind at 1.
  destruct (validateTokenMint_run env mint w) as (r & w1 & E & _). rewrite E in *.
  cbn [fst] in Hvalid. rewrite Hvalid. cbn [negb]. unfold bind at 1.
  assert (∃ s, result (getTokenSupply env mint) w1 = Returned s) as [s Hs]
    by apply result_try_catch_ret.
  unfold result in Hs. destruct (getTokenSupply env mint w1) as [o w2].
  cbn [fst] in Hs. subst o. unfold bind at 1.
  assert (∃ p, result (getTokenPriceInSolOptimized env mint) w2 = Returned p) as [p Hp]
    by apply result_try_catch_ret.
  unfold result in Hp. destruct (getTokenPriceInSolOptimized env mint w2) as [o w3].
  cbn [fst] in Hp. subst o. unfold bind at 1.
  assert (∃ u, result (getSolPriceUsd env) w3 = Returned u) as [u Hu]
    by apply result_try_catch_ret.
  unfold result in Hu. destruct (getSolPriceUsd env w3) as [o w4].
  cbn [fst] in Hu. subst o. by eexists _, _.
Qed.

(** The discovery of a mint that the validator accepts *)
Lemma discover_run env socket mint w :
  validates env mint w = true →
  ∃ d w',
    discover env socket mint w = (Returned tt, w')
    ∧ tokenMint d = mint
    ∧ hub w' = hub w
    ∧ emitted w'
      = (emitted w
         ++ [ (socket, EvPriceUpdate d);
              (socket, EvSubscriptionSuccess mint
                         (Z.of_nat (size (default (∅ : gset string)
                                            (socketSubscriptions w !! socket))))) ])%list
    ∧ ∃ news, published w' = (published w ++ news)%list
              ∧ (is_Some (tokenPrice w !! mint) → news = [])
              ∧ (news = [] ∨ ∃ d', tokenMint d' = mint ∧ news = [("price_update", d')]).
Proof.
  intros Hvalid. unfold discover, bind at 1, getCurrentPrice, gets.
  destruct (tokenPrice w !! mint) as [row|] eqn:Hrow.
  - exists {| tokenMint := mint; priceUsd := tp_priceUsd row;
              priceInSol := tp_priceInSol row; marketCap := tp_marketCap row;
              totalSupply := tp_totalSupply row; timestamp := tp_lastUpdated row |}.
    eexists. split; [reflexivity|]. split_and!; [done|done| |].
    + cbn. by rewrite <- app_assoc.
    + exists []. cbn. rewrite app_nil_r. split_and!; [done|done|by left].
  - destruct (getTokenPrice_total env mint w Hvalid) as (d & w1 & E1).
    pose proof (getTokenPrice_keeps hubLog (hubLog w) hubLog_blind_cache env mint w eq_refl)
      as H1.
    unfold keeps, run in H1. rewrite E1 in H1. cbn [snd] in H1.
    pose proof (updateTokenPrice_keeps hubLog (hubLog w) hubLog_blind_cache hubLog_blind_store
                  env mint w1 H1) as H2.
    pose proof (addTokenForTracking_keeps hubLog (hubLog w) env mint hubLog_blind_cache
                  hubLog_blind_queue _ H2) as H3.
    set (w2 := run (updateTokenPrice env mint) w1) in *.
    set (w3 := run (addTokenForTracking env mint) w2) in *.
    assert ((let* d := getTokenPrice env mint in
             updateTokenPrice env mint >> addTokenForTracking env mint >> ret d) w
            = (Returned d, w3)) as Hinner.
    { rewrite (run_bind_returned _ _ _ _ _ E1).
      rewrite (run_bind_returned _ _ _ _ _
                 (pair_run _ _ _ (updateTokenPrice_never_throws env mint w1))).
      fold w2.
      rewrite (run_bind_returned _ _ _ _ _
                 (pair_run _ _ _ (addTokenForTracking_result env mint w2))).
      reflexivity. }
    rewrite (run_bind_returned _ _ _ _ _ Hinner).
    unfold keeps, hubLog in H3. injection H3 as Hs Hr He.
    pose proof (getTokenPrice_keeps published (published w) published_blind_cache env mint w
                  eq_refl) as P1.
    unfold keeps, run in P1. rewrite E1 in P1. cbn [snd] in P1.
    pose proof (updateTokenPrice_outcome env mint w1) as P2. cbv zeta in P2. fold w2 in P2.
    pose proof (addTokenForTracking_keeps published (published w2) env mint
                  published_blind_cache published_blind_queue w2 eq_refl) as P3.
    unfold keeps in P3. fold w3 in P3.
    eexists d, _. split; [reflexivity|].
    destruct (getTokenPrice_shape env mint w d w1 E1) as (Hmint & _).
    split_and!; [done| | |].
    + unfold hub. cbn. by rewrite Hs, Hr.
    + cbn. by rewrite Hs, He, <- app_assoc.
    + cbn [published with_hub]. rewrite P3.
      destruct P2 as [(d' & Hd' & Hpub & _) | (Hpub & _)]; rewrite Hpub, P1.
      * exists [("price_update", d')]. split_and!; [done| |right; by exists d'].
        intros [row Hsome]. congruence.
      * exists []. rewrite app_nil_r. split_and!; [done|done|by left].
Qed.

(** X21: a subscription of a connected socket to a mint that the
    validator accepts and that the socket does not hold yet always
    succeeds, whatever the other services answer: the call sends the
    socket one price update for the mint and then a confirmation that
    counts the new subscription; afterwards the socket holds the
    subscription and is in the room of the mint.  The socket joins
    that room before the discovery: for a mint that has a latest-price
    row the call publishes nothing, and for a mint that has none the
    discovery updates its price, which publishes at most one
    price_update for the mint; the hub, when that message reaches it,
    sends it to the room, so to this socket as well, as one more price
    update. *)
Theorem subscription_to_a_valid_mint_succeeds (env : Env) (socket mint : string)
    (w : World) (subs : gset string) :
  validates env mint w = true →
  socketSubscriptions w !! socket = Some subs →
  mint ∉ subs →
  let w' := run (subscribeToToken env socket mint) w in
  ∃ d news,
    tokenMint d = mint
    ∧ emitted w'
      = (emitted w
         ++ [ (socket, EvPriceUpdate d);
              (socket, EvSubscriptionSuccess mint (Z.of_nat (size subs) + 1)) ])%list
    ∧ socketSubscriptions w' !! socket = Some ({[mint]} ∪ subs)
    ∧ (socket, room mint) ∈ rooms w'
    ∧ published w' = (published w ++ news)%list
    ∧ (is_Some (tokenPrice w !! mint) → news = [])
    ∧ (news = [] ∨ ∃ d', tokenMint d' = mint ∧ news = [("price_update", d')])
    ∧ (∀ d', ("price_update", d') ∈ news →
         ∃ recipients,
           emitted (hub_step (Published "price_update" d') w')
           = (emitted w' ++ ((λ member, (member, EvPriceUpdate d')) <$> recipients))%list
           ∧ socket ∈ recipients).
Proof.
  intros Hvalid0 Hsock Hnew w'. pose proof Hvalid0 as Hvalid.
  pose proof (validateTokenMint_keeps hubLog (hubLog w) hubLog_blind_cache env mint w eq_refl)
    as Hk.
  pose proof (validateTokenMint_keeps now (now w) now_blind_cache env mint w eq_refl) as Hnow.
  pose proof (validateTokenMint_keeps published (published w) published_blind_cache env mint w
                eq_refl) as Hpub1.
  pose proof (validateTokenMint_keeps tokenPrice (tokenPrice w) tokenPrice_blind_cache env mint w
                eq_refl) as Htp1.
  pose proof (validates_again env mint w) as Hagain.
  unfold validates, result in Hvalid. unfold keeps, run in Hk, Hnow, Hagain, Hpub1, Htp1.
  destruct (validateTokenMint_run env mint w) as (r & w1 & E & _).
  rewrite E in *. cbn [fst snd] in *.
  unfold hubLog in Hk. injection Hk as Hs1 Hr1 He1.
  set (w2 := run (join socket mint) w1).
  assert (validates env mint w2 = true) as Hvalid2.
  { rewrite (validates_frame env mint w2 w1); [congruence|done|done]. }
  destruct (discover_run env socket mint w2 Hvalid2)
    as (d & w3 & E3 & Hmint & Hhub & Hlog & news & Hnews & Htracked & Hshape).
  assert (subscribeToToken env socket mint w = (Returned tt, w3)) as Hrun.
  { unfold subscribeToToken, try_catch at 1.
    rewrite (run_bind_returned _ _ _ _ _ E), Hvalid. cbn [negb].
    rewrite (run_bind_returned _ _ w1 (Some subs) w1)
      by (unfold gets; by rewrite Hs1, Hsock).
    rewrite bool_decide_eq_false_2 by done.
    rewrite (run_bind_returned _ _ w1 tt w2) by reflexivity.
    unfold try_catch. by rewrite E3. }
  assert (w' = w3) as -> by (unfold w', run; by rewrite Hrun).
  unfold hub in Hhub. injection Hhub as Hs3 Hr3.
  assert (socketSubscriptions w2 !! socket = Some ({[mint]} ∪ subs)) as Hsubs2.
  { unfold w2. cbn. by rewrite lookup_alter_eq, Hs1, Hsock. }
  assert ((socket, room mint) ∈ rooms w3) as Hroom.
  { rewrite Hr3. unfold w2. cbn. apply elem_of_union. left. by apply elem_of_singleton. }
  exists d, news. split_and!.
  - done.
  - rewrite Hlog, Hsubs2. cbn [default]. replace (emitted w2) with (emitted w) by done.
    assert (size (id ({[mint]} ∪ subs)) = S (size subs)) as ->.
    { unfold id. rewrite size_union, size_singleton; [done|].
      by apply disjoint_singleton_l. }
    by rewrite Nat2Z.inj_succ.
  - by rewrite Hs3.
  - exact Hroom.
  - rewrite Hnews. replace (published w2) with (published w1) by done. by rewrite Hpub1.
  - intros Hrow. apply Htracked. replace (tokenPrice w2) with (tokenPrice w1) by done.
    by rewrite Htp1.
  - exact Hshape.
  - intros d' Hin. exists (roomMembers (room (tokenMint d')) w3). split; [reflexivity|].
    apply roomMembers_spec.
    destruct Hshape as [->|(d0 & Hd0 & ->)]; [by apply elem_of_nil in Hin|].
    apply list_elem_of_singleton in Hin. injection Hin as ->. by rewrite Hd0.
Qed.

Lemma subscription_to_a_valid_mint_succeeds_witness :
  validates onlineEnv sampleMint hubWorld = true ∧
  socketSubscriptions hubWorld !! "socket-1" = Some ∅ ∧
  (sampleMint ∉ (∅ : gset string)) ∧
  (∃ d, emitted (run (subscribeToToken onlineEnv "socket-1" sampleMint) hubWorld)
        = (emitted hubWorld
           ++ [ ("socket-1", EvPriceUpdate d);
                ("socket-1",
                 EvSubscriptionSuccess sampleMint
                   (Z.of_nat (size (∅ : gset string)) + 1)) ])%list) ∧
  (∃ d', published (run (subscribeToToken onlineEnv "socket-1" sampleMint) hubWorld)
         = [("price_update", d')]
         ∧ emitted (hub_step (Published "price_update" d')
                      (run (subscribeToToken onlineEnv "socket-1" sampleMint) hubWorld))
           = (emitted (run (subscribeToToken onlineEnv "socket-1" sampleMint) hubWorld)
              ++ [("socket-1", EvPriceUpdate d')])%list).
Proof.
  assert (validates onlineEnv sampleMint hubWorld = true) as Hvalid by (by vm_compute).
  assert (socketSubscriptions hubWorld !! "socket-1" = Some (∅ : gset string)) as Hsock
    by reflexivity.
  assert (sampleMint ∉ (∅ : gset string)) as Hnew by apply not_elem_of_empty.
  destruct (subscription_to_a_valid_mint_succeeds onlineEnv "socket-1" sampleMint hubWorld ∅
              Hvalid Hsock Hnew) as (d & news & _ & Hlog & _).
  split_and!; [exact Hvalid | exact Hsock | exact Hnew | by exists d |].
  eexists. split; by vm_compute.
Defined.

(** ** An unsubscription *)

(** X22: the unsubscription of a socket from a mint it holds confirms
    with the number of subscriptions left, emits nothing else, takes
    the socket out of the room of the mint and leaves its other
    subscriptions alone; a second unsubscription answers
    not_subscribed and changes nothing. *)
Theorem unsubscription_is_idempotent (socket mint : string) (w : World)
    (subs : gset string) :
  socketSubscriptions w !! socket = Some subs →
  mint ∈ subs →
  let w' := run (unsubscribeFromToken socket mint) w in
  result (unsubscribeFromToken socket mint) w
  = Returned (Some (EvUnsubscriptionSuccess mint (Z.of_nat (size subs) - 1)))
  ∧ socketSubscriptions w' !! socket = Some (subs ∖ {[mint]})
  ∧ ((socket, room mint) ∉ rooms w')
  ∧ ¬ subscribed socket mint w'
  ∧ (∀ other, other ≠ mint → subscribed socket other w' ↔ subscribed socket other w)
  ∧ emitted w' = emitted w
  ∧ unsubscribeFromToken socket mint w'
    = (Returned (Some (EvUnsubscriptionStatus mint "not_subscribed")), w').
Proof.
  intros Hsock Hin w'.
  assert (unsubscribeFromToken socket mint w
          = (Returned (Some (EvUnsubscriptionSuccess mint (Z.of_nat (size subs) - 1))),
             run (leave socket mint) w)) as E.
  { unfold unsubscribeFromToken, bind at 1, gets. rewrite Hsock.
    rewrite bool_decide_eq_true_2 by done. cbn [negb].
    unfold bind, leave, modify, gets, ret, run. cbn.
    rewrite lookup_alter_eq, Hsock. cbn. do 4 f_equal.
    rewrite size_difference by (by apply singleton_subseteq_l).
    rewrite size_singleton. assert (size subs ≠ 0%nat); [|lia].
    apply size_non_empty_iff. intros Hempty. rewrite Hempty in Hin.
    by apply elem_of_empty in Hin. }
  assert (w' = run (leave socket mint) w) as -> by (unfold w', run at 1; by rewrite E).
  assert (socketSubscriptions (run (leave socket mint) w) !! socket = Some (subs ∖ {[mint]}))
    as Hleft.
  { cbn. by rewrite lookup_alter_eq, Hsock. }
  assert (mint ∉ subs ∖ {[mint]}) as Hgone.
  { rewrite elem_of_difference, elem_of_singleton. tauto. }
  split_and!.
  - unfold result. by rewrite E.
  - done.
  - cbn. rewrite elem_of_difference, elem_of_singleton. tauto.
  - intros (subs' & Hs & Hm). rewrite Hleft in Hs. injection Hs as <-. done.
  - intros other Hne. unfold subscribed. rewrite Hleft, Hsock. split.
    + intros (subs' & [= <-] & Hm). exists subs. split; [done|].
      by apply elem_of_difference in Hm as [? _].
    + intros (subs' & [= <-] & Hm). exists (subs ∖ {[mint]}). split; [done|].
      apply elem_of_difference. split; [done|]. by rewrite elem_of_singleton.
  - done.
  - unfold unsubscribeFromToken, bind at 1, gets. rewrite Hleft.
    by rewrite bool_decide_eq_false_2.
Qed.

Lemma unsubscription_is_idempotent_witness :
  socketSubscriptions subscribedHub !! "socket-1" = Some {[sampleMint]} ∧
  sampleMint ∈ ({[sampleMint]} : gset string) ∧
  result (unsubscribeFromToken "socket-1" sampleMint) subscribedHub
  = Returned (Some (EvUnsubscriptionSuccess sampleMint
                      (Z.of_nat (size ({[sampleMint]} : gset string)) - 1))).
Proof.
  assert (socketSubscriptions subscribedHub !! "socket-1" = Some {[sampleMint]}) as Hsock
    by apply lookup_singleton_eq.
  assert (sampleMint ∈ ({[sampleMint]} : gset string)) as Hin by (by apply elem_of_singleton).
  destruct (unsubscription_is_idempotent "socket-1" sampleMint subscribedHub {[sampleMint]}
              Hsock Hin) as (Hres & _).
  split_and!; [exact Hsock | exact Hin | exact Hres].
Defined.

(** ** A disconnection *)

(** X23: in a hub whose rooms match its subscriptions, a disconnection
    deletes the subscriptions of the socket and takes it out of every
    room, emits nothing, and leaves the subscriptions and rooms of
    every other socket as they were. *)
Theorem disconnection_forgets_the_socket (socket : string) (w : World) :
  hub_consistent w →
  let w' := run (handleDisconnection socket) w in
  socketSubscriptions w' !! socket = None
  ∧ (∀ r, (socket, r) ∉ rooms w')
  ∧ (∀ mint, ¬ subscribed socket mint w')
  ∧ (∀ other, other ≠ socket →
       socketSubscriptions w' !! other = socketSubscriptions w !! other
       ∧ ∀ r, (other, r) ∈ rooms w' ↔ (other, r) ∈ rooms w)
  ∧ emitted w' = emitted w
  ∧ hub_consistent w'.
Proof.
  intros Hw w'.
  assert (hub_consistent w') as Hw' by (by apply handleDisconnection_consistent).
  assert (socketSubscriptions w' !! socket = None) as Hnone.
  { unfold w', run, handleDisconnection, bind, gets.
    destruct (socketSubscriptions w !! socket) eqn:Hs; [|done].
    cbn. apply lookup_delete_eq. }
  assert (∀ mint, ¬ subscribed socket mint w') as Hnot.
  { intros mint (subs & Hs & _). congruence. }
  split_and!; try done.
  - intros r Hin. apply Hw' in Hin as (m & _ & Hsub). by apply (Hnot m).
  - intros other Hne. unfold w', run, handleDisconnection, bind, gets.
    destruct (socketSubscriptions w !! socket) as [subs|] eqn:Hs; [|done]. cbn. split.
    + by apply lookup_delete_ne.
    + intros r. rewrite elem_of_difference, elem_of_map. split; [tauto|].
      intros Hin. split; [done|]. intros (m & Heq & _).
      apply (f_equal fst) in Heq. done.
  - unfold w', run, handleDisconnection, bind, gets.
    by destruct (socketSubscriptions w !! socket).
Qed.

Lemma subscribedHub_consistent : hub_consistent subscribedHub.
Proof.
  intros socket r. unfold subscribed, subscribedHub.
  cbn [rooms socketSubscriptions with_hub]. rewrite elem_of_singleton. split.
  - intros [= -> ->]. exists sampleMint. split; [done|]. exists {[sampleMint]}.
    split; [apply lookup_singleton_eq | by apply elem_of_singleton].
  - intros (m & -> & subs & Hs & Hm). apply lookup_singleton_Some in Hs as [<- <-].
    by apply elem_of_singleton in Hm as ->.
Defined.

Lemma disconnection_forgets_the_socket_witness :
  hub_consistent subscribedHub ∧
  subscribed "socket-1" sampleMint subscribedHub ∧
  ¬ subscribed "socket-1" sampleMint (run (handleDisconnection "socket-1") subscribedHub).
Proof.
  destruct (disconnection_forgets_the_socket "socket-1" subscribedHub subscribedHub_consistent)
    as (_ & _ & Hnot & _).
  split_and!; [exact subscribedHub_consistent | | exact (Hnot sampleMint)].
  exists {[sampleMint]}. split; [apply lookup_singleton_eq | by apply elem_of_singleton].
Defined.

(** ** Messages *)

Lemma split_comma_not_nil s : split_comma s ≠ [].
Proof.
  destruct s as [|c s]; [done|]. cbn [split_comma].
  destruct (Ascii.eqb c ","); [done|]. by destruct (split_comma s).
Qed.

Lemma split_comma_single s : commaFree s = true → split_comma s = [s].
Proof.
  induction s as [|c s IH]; [done|]. unfold commaFree. cbn [list_ascii_of_string forallb].
  intros [Hc Hs]%andb_true_iff. apply negb_true_iff in Hc. cbn [split_comma].
  rewrite Hc. by rewrite (IH Hs).
Qed.

Lemma split_comma_first a b :
  commaFree a = true → split_comma (a +:+ "," +:+ b) = a :: split_comma b.
Proof.
  induction a as [|c a IH]; [done|]. unfold commaFree. cbn [list_ascii_of_string forallb].
  intros [Hc Ha]%andb_true_iff. apply negb_true_iff in Hc.
  change (String c a +:+ "," +:+ b) with (String c (a +:+ "," +:+ b)).
  cbn [split_comma]. rewrite Hc. by rewrite (IH Ha).
Qed.

Lemma commaFree_app a b :
  commaFree a = true → commaFree b = true → commaFree (a +:+ b) = true.
Proof.
  intros Ha Hb. induction a as [|c a IH]; [done|].
  change (String c a +:+ b) with (String c (a +:+ b)).
  unfold commaFree in *. cbn [list_ascii_of_string forallb] in *.
  apply andb_true_iff in Ha as [Hc Ha]. rewrite Hc. by apply IH.
Qed.

Lemma bytes_app a b : bytes (a +:+ b) = (bytes a ++ bytes b)%list.
Proof.
  induction a as [|c a IH]; [done|].
  change (String c a +:+ b) with (String c (a +:+ b)). unfold bytes in *. cbn. by rewrite IH.
Qed.

Lemma whiteSpace_bytes ws c : ws ∈ whiteSpace → c ∈ ws → c ≠ ","%char.
Proof.
  intros Hws Hc.
  assert (forallb (forallb (λ c, negb (Ascii.eqb c ","))) whiteSpace = true) as Hall
    by (by vm_compute).
  rewrite forallb_forall in Hall. apply list_elem_of_In, Hall in Hws.
  rewrite forallb_forall in Hws. apply list_elem_of_In, Hws in Hc.
  apply negb_true_iff in Hc. by apply Ascii.eqb_neq.
Qed.

Lemma blank_commaFree s : blank s → commaFree s = true.
Proof.
  intros (chars & Hchars & Hs). unfold commaFree. fold (bytes s). rewrite Hs.
  apply forallb_forall. intros c Hc. apply in_concat in Hc as (ws & Hws & Hc).
  apply list_elem_of_In in Hws, Hc.
  rewrite Forall_forall in Hchars. apply negb_true_iff, Ascii.eqb_neq.
  by apply (whiteSpace_bytes ws); [apply Hchars|].
Qed.

(** *** Leading white space *)

Lemma strip_whiteSpace ws l :
  ws ∈ whiteSpace → strip whiteSpace (ws ++ l)%list = strip whiteSpace l.
Proof.
  intros H. unfold whiteSpace in H. cbn [map] in H.
  repeat (apply elem_of_cons in H as [->|H]; [by vm_compute|]).
  by apply elem_of_nil in H.
Qed.

Lemma strip_reversed ws l :
  ws ∈ whiteSpace →
  strip (reverse <$> whiteSpace) (reverse ws ++ l)%list = strip (reverse <$> whiteSpace) l.
Proof.
  intros H. unfold whiteSpace in H. cbn [map] in H.
  repeat (apply elem_of_cons in H as [->|H]; [by vm_compute|]).
  by apply elem_of_nil in H.
Qed.

Lemma strip_blank chars l :
  Forall (λ ws, ws ∈ whiteSpace) chars →
  strip whiteSpace (concat chars ++ l)%list = strip whiteSpace l.
Proof.
  induction 1 as [|ws chars Hws _ IH]; [done|]. cbn [concat].
  by rewrite <- app_assoc, strip_whiteSpace.
Qed.

Lemma strip_blank_reversed chars l :
  Forall (λ ws, ws ∈ whiteSpace) chars →
  strip (reverse <$> whiteSpace) (reverse (concat chars) ++ l)%list
  = strip (reverse <$> whiteSpace) l.
Proof.
  intros Hchars. revert l. induction Hchars as [|ws chars Hws _ IH]; intros l; [done|].
  cbn [concat]. by rewrite reverse_app, <- app_assoc, IH, strip_reversed.
Qed.

(** Nothing is dropped from bytes that no code point among [spaces]
    starts. *)
Lemma strip_free spaces l :
  (∀ ws, ws ∈ spaces → ¬ ws `prefix_of` l) → strip spaces l = l.
Proof.
  intros Hfree.
  assert (∀ ws k, ws ∈ spaces → l ≠ (ws ++ k)%list) as Hno
    by (intros ws k Hws E; apply (Hfree ws Hws); by exists k).
  destruct l as [|a [|b [|c l]]]; cbn [strip]; [done|..];
    repeat case_bool_decide; try done; exfalso;
    match goal with H : ?ws ∈ spaces |- _ => eapply (Hno ws _ H); reflexivity end.
Qed.

(** The first byte of a white-space code point is not a later byte of
    one, so bytes that no white space starts are not made to start
    with white space by the white space that follows them. *)
Lemma whiteSpace_heads ws ws2 :
  ws ∈ whiteSpace → ws2 ∈ whiteSpace →
  ∃ x rest, ws2 = x :: rest ∧ x ∉ tail ws.
Proof.
  intros Hws Hws2.
  assert (forallb (λ ws, forallb (λ ws2, match ws2 with
                                          | x :: _ => negb (bool_decide (x ∈ tail ws))
                                          | [] => false
                                          end) whiteSpace) whiteSpace = true) as Hall
    by (by vm_compute).
  rewrite forallb_forall in Hall. apply list_elem_of_In, Hall in Hws.
  rewrite forallb_forall in Hws. apply list_elem_of_In, Hws in Hws2.
  destruct ws2 as [|x rest]; [done|]. exists x, rest. split; [done|].
  apply negb_true_iff in Hws2. by apply bool_decide_eq_false_1 in Hws2.
Qed.

Lemma blank_head chars :
  Forall (λ ws, ws ∈ whiteSpace) chars →
  concat chars = [] ∨
  ∃ ws x rest k, ws ∈ whiteSpace ∧ ws = x :: rest ∧ concat chars = x :: k.
Proof.
  induction 1 as [|ws chars Hws _ IH]; [by left|]. right.
  destruct (whiteSpace_heads ws ws Hws Hws) as (x & rest & -> & _).
  exists (x :: rest), x, rest. eexists. split_and!; [done|done|reflexivity].
Qed.

Lemma prefix_padded (l : list ascii) chars ws :
  l ≠ [] → (∀ ws, ws ∈ whiteSpace → ¬ ws `prefix_of` l) →
  Forall (λ ws, ws ∈ whiteSpace) chars →
  ws ∈ whiteSpace → ¬ ws `prefix_of` (l ++ concat chars)%list.
Proof.
  intros Hne Hfree Hchars Hws [k Hk].
  apply app_eq_inv in Hk as [(m & Hl & _) | (m & Hw & Ht)].
  - apply (Hfree ws Hws). by exists m.
  - destruct m as [|x m].
    + rewrite app_nil_r in Hw. subst ws. by apply (Hfree l Hws).
    + destruct (blank_head chars Hchars) as [Hnil | (ws2 & x2 & rest & k2 & Hws2 & -> & Hc)].
      * by rewrite Hnil in Ht.
      * rewrite Hc in Ht. injection Ht as -> _.
        destruct (whiteSpace_heads ws (x :: rest) Hws Hws2) as (x' & rest' & [= <- <-] & Hnot).
        apply Hnot. destruct l as [|y l]; [done|]. subst ws. cbn [tail app].
        apply elem_of_app. right. apply elem_of_cons. by left.
Qed.

Lemma trim_padded pad1 s pad2 :
  blank pad1 → blank pad2 → tight s → s ≠ "" →
  trim (pad1 +:+ s +:+ pad2) = s.
Proof.
  intros (c1 & Hc1 & H1) (c2 & Hc2 & H2) Htight Hne. unfold tight in Htight.
  rewrite Forall_forall in Htight.
  assert (bytes s ≠ []) as Hbytes by (by destruct s).
  assert (trimStart (pad1 +:+ s +:+ pad2) = s +:+ pad2) as Hstart.
  { unfold trimStart. rewrite bytes_app, H1, (strip_blank c1 _ Hc1), strip_free.
    - apply string_of_list_ascii_of_string.
    - intros ws Hws. rewrite bytes_app, H2. apply prefix_padded; try done.
      intros ws' Hws'. by apply Htight. }
  unfold trim. rewrite Hstart. unfold trimEnd.
  rewrite bytes_app, H2, reverse_app, (strip_blank_reversed c2 _ Hc2), strip_free.
  - rewrite reverse_involutive. apply string_of_list_ascii_of_string.
  - intros ws' Hws'. apply list_elem_of_fmap in Hws' as (ws & -> & Hws).
    rewrite <- suffix_prefix_reverse. by apply Htight.
Qed.

Lemma try_catch_returned {A} (m : M A) h w a :
  result m w = Returned a → try_catch m h w = m w.
Proof. unfold result, try_catch. destruct (m w) as [[?|?] ?]; [done|]. cbn. congruence. Qed.

Lemma subscribeToToken_result env socket mint w :
  result (subscribeToToken env socket mint) w = Returned tt.
Proof.
  unfold subscribeToToken, result, try_catch.
  match goal with |- context [match ?b w with _ => _ end] => destruct (b w) as [[[]|e] w1] end;
    done.
Qed.

Lemma unsubscribeFromToken_returns socket mint w :
  ∃ ev, result (unsubscribeFromToken socket mint) w = Returned ev.
Proof.
  unfold unsubscribeFromToken, result, bind, gets.
  destruct (socketSubscriptions w !! socket) as [subs|]; [|by eexists].
  destruct (negb (bool_decide (mint ∈ subs))); by eexists.
Qed.

(** X24: a message that carries a mint and an action, separated by a
    comma and each padded on both sides with white space (any run of
    the code points that [String.prototype.trim] removes, Unicode
    spaces included), is handled as that action on that mint, whatever
    the case of the action: subscribe is a subscription, unsubscribe an
    unsubscription, and anything else emits one error event and changes
    nothing else.  The mint and the action hold no comma, are not
    empty, and neither start nor end with white space. *)
Theorem messages_are_trimmed_and_case_blind (env : Env) (socket mint action : string)
    (pad1 pad2 pad3 pad4 : string) (w : World) :
  commaFree mint = true → tight mint → mint ≠ "" →
  commaFree action = true → tight action → action ≠ "" →
  blank pad1 → blank pad2 → blank pad3 → blank pad4 →
  let message := (pad1 +:+ mint +:+ pad2) +:+ "," +:+ (pad3 +:+ action +:+ pad4) in
  handleSubscriptionMessage env socket message w
  = if String.eqb (Js.toLowerCase action) "subscribe" then
      (subscribeToToken env socket mint >> ret None) w
    else if String.eqb (Js.toLowerCase action) "unsubscribe" then
      unsubscribeFromToken socket mint w
    else unknownAction socket action w.
Proof.
  intros Hmint Hmt Hmne Haction Hat Hane H1 H2 H3 H4 message.
  assert (trim <$> split_comma message = [mint; action]) as Hparts.
  { unfold message. rewrite split_comma_first, split_comma_single.
    - cbn [fmap list_fmap]. by rewrite !trim_padded.
    - apply commaFree_app; [by apply blank_commaFree|].
      apply commaFree_app; [done|by apply blank_commaFree].
    - apply commaFree_app; [by apply blank_commaFree|].
      apply commaFree_app; [done|by apply blank_commaFree]. }
  unfold handleSubscriptionMessage. cbv zeta. rewrite Hparts. cbn [lookup list_lookup].
  rewrite !bool_decide_eq_false_2 by done. cbn [orb].
  destruct (String.eqb (Js.toLowerCase action) "subscribe").
  - apply (try_catch_returned _ _ _ None). unfold result, bind.
    pose proof (subscribeToToken_result env socket mint w) as Hr. unfold result in Hr.
    destruct (subscribeToToken env socket mint w) as [o w1]. cbn [fst] in Hr. by subst o.
  - destruct (String.eqb (Js.toLowerCase action) "unsubscribe").
    + destruct (unsubscribeFromToken_returns socket mint w) as [ev Hev].
      by apply (try_catch_returned _ _ _ ev).
    + by apply (try_catch_returned _ _ _ None).
Qed.

Lemma blank_one ws : ws ∈ whiteSpace → blank (string_of_list_ascii ws).
Proof.
  intros Hws. exists [ws]. split; [by constructor|].
  unfold bytes. rewrite list_ascii_of_string_of_list_ascii. cbn. by rewrite app_nil_r.
Qed.

Lemma messages_are_trimmed_and_case_blind_witness :
  commaFree sampleMint = true ∧ tight sampleMint ∧ sampleMint ≠ "" ∧
  commaFree "UnSubscribe" = true ∧ tight "UnSubscribe" ∧ "UnSubscribe" ≠ "" ∧
  blank nbsp ∧ blank "" ∧ blank emSpace ∧ blank " " ∧
  handleSubscriptionMessage onlineEnv "socket-1"
    ((nbsp +:+ sampleMint +:+ "") +:+ "," +:+ (emSpace +:+ "UnSubscribe" +:+ " ")) hubWorld
  = unsubscribeFromToken "socket-1" sampleMint hubWorld.
Proof.
  assert (commaFree sampleMint = true) as Hmint by reflexivity.
  assert (tight sampleMint) as Hmt
    by (unfold tight; apply (bool_decide_unpack _); by vm_compute).
  assert (sampleMint ≠ "") as Hmne by done.
  assert (commaFree "UnSubscribe" = true) as Haction by reflexivity.
  assert (tight "UnSubscribe") as Hat
    by (unfold tight; apply (bool_decide_unpack _); by vm_compute).
  assert ("UnSubscribe" ≠ "") as Hane by done.
  assert (blank nbsp) as Hnbsp
    by (apply blank_one, (bool_decide_unpack _); by vm_compute).
  assert (blank "") as Hnone by (exists []; by split).
  assert (blank emSpace) as Hem
    by (apply blank_one, (bool_decide_unpack _); by vm_compute).
  assert (blank " ") as Hsp
    by (apply (blank_one [" "%char]), (bool_decide_unpack _); by vm_compute).
  split_and!; [exact Hmint | exact Hmt | exact Hmne | exact Haction | exact Hat | exact Hane
              | exact Hnbsp | exact Hnone | exact Hem | exact Hsp |].
  exact (messages_are_trimmed_and_case_blind onlineEnv "socket-1" sampleMint "UnSubscribe"
           nbsp "" emSpace " " hubWorld Hmint Hmt Hmne Haction Hat Hane Hnbsp Hnone Hem Hsp).
Defined.

(** ** The risk summary *)

(** X25: the risk summary counts every risk exactly once: the high,
    medium and low counts are not negative and add up to the total. *)
Theorem risk_summary_partitions (risks : list RugCheckRisk) :
  let summary := getRiskSummary risks in
  totalRisks summary = highRisks summary + mediumRisks summary + lowRisks summary
  ∧ 0 ≤ highRisks summary ∧ 0 ≤ mediumRisks summary ∧ 0 ≤ lowRisks summary
  ∧ totalRisks summary = Z.of_nat (length risks).
Proof.
  cbn. unfold count_level. split_and!; try lia.
  induction risks as [|r risks IH]; [done|]. cbn [length List.filter].
  destruct (rk_level r); cbn [RiskLevel_eqb length]; lia.
Qed.

(** X26: a risk report fetched from the risk service (the cache held no
    fresh one) is the answer of every request for that mint during the
    next five minutes, whatever the service would answer then, and
    those requests change nothing. *)
Theorem risk_report_cached_for_five_minutes (env1 env2 : Env) (mint : string) (w : World)
    (report : RugCheckData) (dt : Z) :
  cachedRisk mint w = None →
  rugCheckReport env1 mint = RugOk (Some report) →
  0 ≤ dt < 300 * 1000 →
  let later := with_now (now w + dt) (run (getTokenRugCheck env1 mint) w) in
  result (getTokenRugCheck env1 mint) w = Returned (Some report) ∧
  getTokenRugCheck env2 mint later = (Returned (Some report), later).
Proof.
  intros Hmiss Hreport Hdt later. unfold cachedRisk in Hmiss.
  assert (getTokenRugCheck env1 mint w
          = (Returned (Some report),
             run (redis_setex (rug_key mint) 300 (RRugCheck report (now w))) w)) as E.
  { unfold getTokenRugCheck, bind, redis_get, gets. fold (rug_key mint).
    cbv beta zeta. cbn [fst snd]. rewrite Hmiss, Hreport. reflexivity. }
  assert (run (getTokenRugCheck env1 mint) w
          = run (redis_setex (rug_key mint) 300 (RRugCheck report (now w))) w)
    as Hrun by (unfold run at 1; by rewrite E).
  subst later. rewrite Hrun. split; [unfold result; by rewrite E|]. clear E Hrun.
  unfold getTokenRugCheck, bind, redis_get, gets. fold (rug_key mint).
  cbv beta zeta. cbn [fst snd]. rewrite redis_lookup_fresh; [|done|done].
  cbn [present truthy mbind option_bind fresh_rug now with_now].
  unfold RUG_CACHE_TTL. replace (now w + dt - now w) with dt by lia.
  by rewrite (proj2 (Z.ltb_lt _ _) (proj2 Hdt)).
Qed.

Lemma risk_report_cached_for_five_minutes_witness :
  cachedRisk sampleMint (emptyWorld 0) = None ∧
  rugCheckReport ratedEnv sampleMint = RugOk (Some sampleReport) ∧
  0 ≤ 299999 < 300 * 1000 ∧
  result (getTokenRugCheck ratedEnv sampleMint) (emptyWorld 0) = Returned (Some sampleReport) ∧
  result (getTokenRugCheck throttledEnv sampleMint)
    (with_now (now (emptyWorld 0) + 299999)
       (run (getTokenRugCheck ratedEnv sampleMint) (emptyWorld 0)))
  = Returned (Some sampleReport).
Proof.
  assert (cachedRisk sampleMint (emptyWorld 0) = None) as Hmiss by reflexivity.
  assert (rugCheckReport ratedEnv sampleMint = RugOk (Some sampleReport)) as Hreport
    by reflexivity.
  assert (0 ≤ 299999 < 300 * 1000) as Hdt by lia.
  split; [exact Hmiss|]. split; [exact Hreport|]. split; [exact Hdt|].
  destruct (risk_report_cached_for_five_minutes ratedEnv throttledEnv sampleMint
              (emptyWorld 0) sampleReport 299999 Hmiss Hreport Hdt) as [Hfirst Hsecond].
  split; [exact Hfirst|]. unfold result. by rewrite Hsecond.
Defined.

(** ** Computations that keep the validator's verdict *)

Ltac key_ne := let H := fresh in intros H; lazy in H; congruence.

Section Accepted.
Context (env : Env) (mint : string).

Lemma accepted_frame w w' :
  entry (validation_key mint) w' = entry (validation_key mint) w → now w' = now w →
  accepted env mint w → accepted env mint w'.
Proof. unfold accepted. intros He Hn <-. by apply validates_frame. Qed.

Lemma accepted_modify f :
  (∀ w, redis (f w) = redis w) → (∀ w, now (f w) = now w) →
  preserves (accepted env mint) (modify f).
Proof.
  intros Hr Hn w. apply accepted_frame; [|apply Hn]. unfold entry, run, modify. cbn.
  by rewrite Hr.
Qed.

Lemma accepted_setex k seconds v :
  k ≠ validation_key mint → preserves (accepted env mint) (redis_setex k seconds v).
Proof.
  intros Hne w. apply accepted_frame; [|done]. unfold entry, run, redis_setex, modify. cbn.
  by apply lookup_insert_ne.
Qed.

Lemma accepted_validate : preserves (accepted env mint) (validateTokenMint env mint).
Proof. intros w. unfold accepted. by rewrite validates_again. Qed.

#[local] Hint Extern 1 (preserves (accepted _ _) (modify _)) =>
  (apply accepted_modify; intros; reflexivity) : pres.
#[local] Hint Extern 1 (preserves (accepted _ _) (redis_setex _ _ _)) =>
  (apply accepted_setex; key_ne) : pres.
#[local] Hint Resolve accepted_validate : pres.

Lemma accepted_getTokenPrice : preserves (accepted env mint) (getTokenPrice env mint).
Proof.
  unfold getTokenPrice, getTokenSupply, getTokenPriceInSolOptimized, getSolPriceUsd,
    tryDexScreener, tryPool, trySolFromDexScreener, remember_sol_price, cache_price.
  pres.
Qed.

Lemma accepted_getTokenInfo : preserves (accepted env mint) (getTokenInfo env mint).
Proof. unfold getTokenInfo. pres. Qed.

#[local] Hint Resolve accepted_getTokenInfo : pres.

Lemma accepted_getTopHolders limit :
  preserves (accepted env mint) (getTopHolders env mint limit).
Proof. unfold getTopHolders. pres. Qed.

Lemma accepted_concentration :
  preserves (accepted env mint) (calculateConcentrationRatio env mint).
Proof. pose proof accepted_getTopHolders. unfold calculateConcentrationRatio. pres. Qed.

Lemma accepted_verdict w r w' :
  accepted env mint w → validateTokenMint env mint w = (Returned r, w') → isValid r = true.
Proof. unfold accepted, validates, result. intros Ha E. by rewrite E in Ha. Qed.

(** An update of an accepted mint takes the branch that prices it. *)
Lemma accepted_updateTokenPrice : preserves (accepted env mint) (updateTokenPrice env mint).
Proof.
  intros w Hw. unfold updateTokenPrice. rewrite (run_try_catch_ret _ (λ _, tt)).
  destruct (validateTokenMint_run env mint w) as (r & w1 & E & _).
  pose proof (accepted_verdict w r w1 Hw E) as Hvalid.
  pose proof (accepted_validate w Hw) as Hw1. unfold run in Hw1 |- *.
  rewrite (run_bind_returned _ _ _ _ _ E), Hvalid. rewrite E in Hw1. cbn [snd negb] in *.
  fold (run (let* priceData := getTokenPrice env mint in
             transaction (db_upsertTokenPrice env priceData >>
                          db_createHistory env priceData) >>
             publish "price_update" priceData) w1).
  revert Hw1. generalize w1. apply preserves_bind; [apply accepted_getTokenPrice|].
  intros d. apply preserves_bind.
  - intros w2 Hw2. revert Hw2. apply accepted_frame.
    + unfold run, transaction, bind, db_upsertTokenPrice, db_createHistory, failing,
        modify, throw, entry.
      by destruct (upsertFails env), (createFails env).
    + unfold run, transaction, bind, db_upsertTokenPrice, db_createHistory, failing,
        modify, throw.
      by destruct (upsertFails env), (createFails env).
  - intros ?. unfold publish. pres.
Qed.

End Accepted.

(** ** The risk report under the other services *)

Section RiskEntry.
Context (mint : string) (x : option (RedisValue * option Z)).

#[local] Hint Extern 1 (preserves (keeps (entry _) _) (redis_setex _ _ _)) =>
  (apply entry_setex; by apply head_differs) : pres.

Lemma validateTokenMint_risk env m :
  preserves (keeps (entry (rug_key mint)) x) (validateTokenMint env m).
Proof. unfold validateTokenMint, validateOnChain, validateSupply. pres. Qed.

#[local] Hint Resolve validateTokenMint_risk : pres.

Lemma getTokenPrice_risk env m :
  preserves (keeps (entry (rug_key mint)) x) (getTokenPrice env m).
Proof.
  unfold getTokenPrice, getTokenSupply, getTokenPriceInSolOptimized, getSolPriceUsd,
    tryDexScreener, tryPool, trySolFromDexScreener, remember_sol_price, cache_price.
  pres.
Qed.

Lemma cleanup_one_risk k :
  (∃ c p, k = String c p ∧ Ascii.eqb c "*" = false ∧ Ascii.eqb c "?" = false
          ∧ Ascii.eqb c "r" = false) →
  preserves (keeps (entry (rug_key mint)) x) (cleanup_one k).
Proof.
  intros (c & p & -> & Hstar & Hany & Hr). unfold cleanup_one.
  destruct (Js.includes (String c p) "*").
  - apply entry_del_glob. by apply glob_head_mismatch.
  - apply keeps_modify. intros w. unfold entry. cbn.
    apply lookup_delete_ne. by apply head_differs.
Qed.

Lemma cleanup_cache_risk keys :
  Forall (λ k, ∃ c p, k = String c p ∧ Ascii.eqb c "*" = false ∧ Ascii.eqb c "?" = false
                      ∧ Ascii.eqb c "r" = false) keys →
  preserves (keeps (entry (rug_key mint)) x) (cleanup_cache keys).
Proof.
  induction 1 as [|k keys Hk _ IH]; [apply preserves_ret|].
  intros w Hw. rewrite cleanup_cache_cons. by apply IH, cleanup_one_risk.
Qed.

Lemma cleanupInvalidToken_risk env m :
  preserves (keeps (entry (rug_key mint)) x) (cleanupInvalidToken env m).
Proof.
  assert (preserves (keeps (entry (rug_key mint)) x) (cleanup_cache (cleanup_keys m))).
  { apply cleanup_cache_risk. unfold cleanup_keys.
    repeat (apply Forall_cons; split; [by eexists _, _|]). apply Forall_nil_2. }
  unfold cleanupInvalidToken, purge_rows, db_deleteHistory, db_deleteTokenPrice. pres.
Qed.

Lemma updateTokenPrice_risk env m :
  preserves (keeps (entry (rug_key mint)) x) (updateTokenPrice env m).
Proof.
  pose proof getTokenPrice_risk. pose proof cleanupInvalidToken_risk.
  unfold updateTokenPrice, db_upsertTokenPrice, db_createHistory, publish. pres.
Qed.

Lemma getTokenInfo_risk env m :
  preserves (keeps (entry (rug_key mint)) x) (getTokenInfo env m).
Proof. unfold getTokenInfo. pres. Qed.

#[local] Hint Resolve getTokenInfo_risk : pres.

Lemma getTopHolders_risk env m limit :
  preserves (keeps (entry (rug_key mint)) x) (getTopHolders env m limit).
Proof. unfold getTopHolders. pres. Qed.

Lemma concentration_risk env m :
  preserves (keeps (entry (rug_key mint)) x) (calculateConcentrationRatio env m).
Proof. pose proof getTopHolders_risk. unfold calculateConcentrationRatio. pres. Qed.

End RiskEntry.

(** ** What the metric service leaves alone *)

Section MetricsBlindToCache.
Context {A : Type} (proj : World → A) (x : A) (Hcache : blind_cache proj).

Let Hredis := proj1 Hcache.

Lemma getTokenInfo_keeps env mint : preserves (keeps proj x) (getTokenInfo env mint).
Proof.
  pose proof Hredis. pose proof (validateTokenMint_keeps proj x Hcache).
  unfold getTokenInfo. pres.
Qed.

Lemma getTopHolders_keeps env mint limit :
  preserves (keeps proj x) (getTopHolders env mint limit).
Proof.
  pose proof Hredis. pose proof (validateTokenMint_keeps proj x Hcache).
  pose proof getTokenInfo_keeps. unfold getTopHolders. pres.
Qed.

Lemma concentration_keeps env mint :
  preserves (keeps proj x) (calculateConcentrationRatio env mint).
Proof. pose proof getTopHolders_keeps. unfold calculateConcentrationRatio. pres. Qed.

End MetricsBlindToCache.

(** ** The metrics of an accepted mint *)

Section Settled.
Context (env : Env) (mint : string) (w0 : World).

Lemma settled_preserved {A} (m : M A) :
  preserves (accepted env mint) m →
  (∀ x, preserves (keeps (entry (rug_key mint)) x) m) →
  (∀ t, preserves (keeps now t) m) →
  preserves (settled env mint w0) m.
Proof.
  intros Ha He Hn w (Hw & Hentry & Hnow). split_and!.
  - by apply Ha.
  - by apply (He (entry (rug_key mint) w0)).
  - by apply (Hn (now w0)).
Qed.

Lemma settled_validate : preserves (settled env mint w0) (validateTokenMint env mint).
Proof.
  apply settled_preserved; intros.
  - apply accepted_validate.
  - apply validateTokenMint_risk.
  - apply validateTokenMint_keeps, now_blind_cache.
Qed.

Lemma settled_getTokenPrice : preserves (settled env mint w0) (getTokenPrice env mint).
Proof.
  apply settled_preserved; intros.
  - apply accepted_getTokenPrice.
  - apply getTokenPrice_risk.
  - apply getTokenPrice_keeps, now_blind_cache.
Qed.

Lemma settled_updateTokenPrice : preserves (settled env mint w0) (updateTokenPrice env mint).
Proof.
  apply settled_preserved; intros.
  - apply accepted_updateTokenPrice.
  - apply updateTokenPrice_risk.
  - apply updateTokenPrice_keeps; [apply now_blind_cache | apply now_blind_store].
Qed.

Lemma settled_getTokenInfo : preserves (settled env mint w0) (getTokenInfo env mint).
Proof.
  apply settled_preserved; intros.
  - apply accepted_getTokenInfo.
  - apply getTokenInfo_risk.
  - apply getTokenInfo_keeps, now_blind_cache.
Qed.

Lemma settled_concentration :
  preserves (settled env mint w0) (calculateConcentrationRatio env mint).
Proof.
  apply settled_preserved; intros.
  - apply accepted_concentration.
  - apply concentration_risk.
  - apply concentration_keeps, now_blind_cache.
Qed.

End Settled.

Lemma returned_step {A} (P : World → Prop) (m : M A) w :
  preserves P m → P w → (∃ a, result m w = Returned a) →
  ∃ a w', m w = (Returned a, w') ∧ P w'.
Proof.
  intros Hm Hw [a Ha]. specialize (Hm w Hw). unfold run, result in *.
  destruct (m w) as [o w']. cbn in *. subst o. by exists a, w'.
Qed.

Lemma getTokenInfo_total env mint w :
  accepted env mint w → ∃ i, result (getTokenInfo env mint) w = Returned i.
Proof.
  intros Hw. unfold getTokenInfo, result.
  destruct (validateTokenMint_run env mint w) as (r & w1 & E & _).
  rewrite (run_bind_returned _ _ _ _ _ E), (accepted_verdict env mint w r w1 Hw E).
  cbn [negb]. unfold bind at 1, redis_get, gets. cbn [fst snd].
  destruct (present (redis_lookup w1 ("token_info:" +:+ mint))); [by eexists|].
  apply result_try_catch_ret.
Qed.

Lemma Qmin_cap a : (Qmin a 100 <= 100)%Q.
Proof.
  unfold Qmin. destruct (Qle_bool a 100) eqn:E; [by apply Qle_bool_iff | apply Qle_refl].
Qed.

Lemma concentration_bounded env mint w :
  ∃ q, result (calculateConcentrationRatio env mint) w = Returned q ∧ (q <= 100)%Q.
Proof.
  unfold calculateConcentrationRatio, result, try_catch, bind.
  destruct (getTopHolders env mint 10 w) as [[hs|e] w1]; cbn.
  - eexists. split; [done | apply Qmin_cap].
  - exists 0%Q. split; [done | by vm_compute].
Qed.

Lemma getTokenRugCheck_result env mint w :
  result (getTokenRugCheck env mint) w = riskAnswer env mint w.
Proof.
  unfold getTokenRugCheck, riskAnswer, cachedRisk, rateLimited, reportedRisk, rug_key,
    result, bind, gets, redis_get. cbn.
  destruct (mbind (fresh_rug (now w)) (present (redis_lookup w ("rugcheck:" +:+ mint))));
    [done|].
  destruct (rugCheckReport env mint) as [[d|]|status|]; try done.
  destruct (status =? 404); [done|]. by destruct (status =? 429).
Qed.

Lemma getTokenRugCheck_now env mint t : preserves (keeps now t) (getTokenRugCheck env mint).
Proof. unfold getTokenRugCheck. pres. Qed.

Lemma riskAnswer_settled env mint w0 w :
  settled env mint w0 w → riskAnswer env mint w = riskAnswer env mint w0.
Proof.
  intros (_ & He & Hn). unfold riskAnswer, cachedRisk.
  by rewrite (redis_lookup_entry _ _ _ He Hn), Hn.
Qed.

(** The service function: everything before the risk report answers. *)
Lemma getTokenMetrics_result env mint window w :
  accepted env mint w →
  ∃ body : option RugCheckData → TokenMetricsResult,
    (∀ report, tm_tokenMint (body report) = mint
               ∧ tm_rugCheck (body report) = rugView <$> report
               ∧ (tm_concentrationRatio (body report) <= 100)%Q)
    ∧ result (getTokenMetrics env mint window) w
      = match riskAnswer env mint w with
        | Returned report => Returned (body report)
        | Thrown e => Thrown e
        end.
Proof.
  intros Hacc. assert (settled env mint w w) as Hw by done.
  unfold getTokenMetrics, result.
  destruct (returned_step _ _ w (settled_validate env mint w) Hw
              (validateTokenMint_result env mint w)) as (r & w1 & E1 & Hw1).
  rewrite (run_bind_returned _ _ _ _ _ E1), (accepted_verdict env mint w r w1 Hacc E1).
  cbn [negb].
  destruct (returned_step _ _ w1 (settled_getTokenInfo env mint w) Hw1
              (getTokenInfo_total env mint w1 (proj1 Hw1))) as (i & w2 & E2 & Hw2).
  rewrite (run_bind_returned _ _ _ _ _ E2).
  destruct (concentration_bounded env mint w2) as (q & Hq & Hle).
  destruct (returned_step _ _ w2 (settled_concentration env mint w) Hw2
              (ex_intro _ q Hq)) as (q' & w3 & E3 & Hw3).
  assert (q' = q) as -> by (unfold result in Hq; rewrite E3 in Hq; by injection Hq).
  exists (λ report,
     {| tm_tokenMint := mint;
        tm_name := ti_name i;
        tm_symbol := ti_symbol i;
        tm_totalSupply := ti_totalSupply i;
        tm_priceUsd := default 0%Q (tp_priceUsd <$> tokenPrice w2 !! mint);
        tm_priceInSol := default 0%Q (tp_priceInSol <$> tokenPrice w2 !! mint);
        tm_marketCap := default 0%Q (tp_marketCap <$> tokenPrice w2 !! mint);
        tm_concentrationRatio := q;
        tm_lastUpdated := now w;
        tm_rugCheck := rugView <$> report |}).
  split; [done|].
  unfold bind at 1, currentPrice, gets. cbn [fst snd].
  rewrite (run_bind_returned _ _ _ _ _ E3).
  rewrite <- (riskAnswer_settled env mint w w3 Hw3), <- getTokenRugCheck_result.
  pose proof (getTokenRugCheck_now env mint (now w) w3 (proj2 (proj2 Hw3))) as Hnow.
  unfold keeps, run, result in *. unfold bind at 1.
  destruct (getTokenRugCheck env mint w3) as [[report|e] w4]; [|done].
  cbn in *. by rewrite Hnow.
Qed.

(** X27: the metrics endpoint, asked about a mint that the validator
    accepts, answers 400 with the rate-limit message when no fresh risk
    report is cached and the risk service answers 429; in every other
    case it answers 200 with the metrics of that mint, whose risk part
    is the fresh cached report or else the one the service gave, and
    whose concentration ratio is at most 100. *)
Theorem metrics_of_an_accepted_mint env mint window w :
  mint ≠ "" → accepted env mint w →
  let answer := result (getTokenMetricsHandler env (Some mint) (Some (windowText window))) w in
  let served report :=
    ∃ body, answer = Returned (Ok200 body)
            ∧ tm_tokenMint body = mint
            ∧ tm_rugCheck body = rugView <$> report
            ∧ (tm_concentrationRatio body <= 100)%Q in
  match cachedRisk mint w with
  | Some hit => served hit
  | None =>
      if rateLimited env mint
      then answer = Returned (ErrorJson 400 "RugCheck API rate limit exceeded")
      else served (reportedRisk env mint)
  end.
Proof.
  intros Hne Hacc answer served.
  assert (settled env mint w w) as Hw by done.
  assert (∃ w1, settled env mint w w1 ∧
            (let* tokenData := getCurrentPrice mint in
             match tokenData with
             | Some _ => ret tt
             | None => getTokenPrice env mint >> updateTokenPrice env mint
             end) w = (Returned tt, w1)) as (w1 & Hw1 & E1).
  { unfold bind at 1, getCurrentPrice, gets. cbn [fst snd].
    destruct (tokenPrice w !! mint); [by exists w|].
    destruct (returned_step _ _ w (settled_getTokenPrice env mint w) Hw)
      as (d & w1 & E & Hw1).
    { destruct (getTokenPrice_total env mint w Hacc) as (d & w' & E). exists d.
      unfold result. by rewrite E. }
    rewrite (run_bind_returned _ _ _ _ _ E).
    destruct (returned_step _ _ w1 (settled_updateTokenPrice env mint w) Hw1)
      as ([] & w2 & E2 & Hw2).
    { exists tt. apply result_try_catch_unit. }
    by exists w2. }
  destruct (getTokenMetrics_result env mint window w1 (proj1 Hw1)) as (body & Hbody & Hrun).
  rewrite (riskAnswer_settled env mint w w1 Hw1) in Hrun.
  assert (answer = match riskAnswer env mint w with
                   | Returned report => Returned (Ok200 (body report))
                   | Thrown e => Returned (ErrorJson 400 e)
                   end) as Hanswer.
  { subst answer. unfold getTokenMetricsHandler. rewrite bool_decide_eq_false_2 by done.
    assert (parseWindow (Some (windowText window)) = Returned window) as Hparse
      by (by destruct window).
    unfold result, try_catch. unfold bind at 1. rewrite Hparse. cbn [call fst snd].
    unfold bind at 1, getCurrentPrice, gets in E1. cbn [fst snd] in E1.
    unfold bind at 1, getCurrentPrice, gets. cbn [fst snd].
    rewrite (run_bind_returned _ _ _ _ _ E1). unfold result in Hrun. unfold bind at 1.
    destruct (getTokenMetrics env mint window w1) as [o wf]. cbn [fst] in Hrun. subst o.
    by destruct (riskAnswer env mint w). }
  subst served. cbv beta. rewrite Hanswer. unfold riskAnswer.
  destruct (cachedRisk mint w) as [hit|].
  - exists (body hit). split; [done | apply Hbody].
  - destruct (rateLimited env mint); [done|].
    exists (body (reportedRisk env mint)). split; [done | apply Hbody].
Qed.

Lemma metrics_of_an_accepted_mint_witness :
  sampleMint ≠ "" ∧ accepted onlineEnv sampleMint (emptyWorld 0) ∧
  accepted throttledEnv sampleMint (emptyWorld 0) ∧
  (∃ body,
     result (getTokenMetricsHandler onlineEnv (Some sampleMint) (Some "5m")) (emptyWorld 0)
     = Returned (Ok200 body) ∧ tm_tokenMint body = sampleMint ∧ tm_rugCheck body = None
     ∧ (tm_concentrationRatio body <= 100)%Q) ∧
  result (getTokenMetricsHandler throttledEnv (Some sampleMint) (Some "5m")) (emptyWorld 0)
  = Returned (ErrorJson 400 "RugCheck API rate limit exceeded").
Proof.
  assert (sampleMint ≠ "") as Hne by done.
  assert (accepted onlineEnv sampleMint (emptyWorld 0)) as Honline by (by vm_compute).
  assert (accepted throttledEnv sampleMint (emptyWorld 0)) as Hthrottled by (by vm_compute).
  split_and!; [done..| |].
  - exact (metrics_of_an_accepted_mint onlineEnv sampleMint W5m (emptyWorld 0) Hne Honline).
  - exact (metrics_of_an_accepted_mint throttledEnv sampleMint W5m (emptyWorld 0)
             Hne Hthrottled).
Defined.
